(** * VCPToolBox: the asynchronous download pipeline of the ASMRTools and
    MissAVCrawl plugins.

    A shallow embedding of
      - [Plugin/ASMRTools/asmr_core/sync_downloader_simple.py]
      - [Plugin/ASMRTools/asmr_core/progress_manager.py]
      - [Plugin/ASMRTools/asmr_core/async_handler_fixed.py]
      - [Plugin/ASMRTools/asmr_core/config.py]
      - [Plugin/ASMRTools/asmr_core/asmr_api.py] (the request loop)
      - [Plugin/MissAVCrawl/missav_crawl_async.py]
    and the properties of the specification that are stated about them,
    followed by further properties of the same code.

    Conventions of the embedding.
      - A Python [str] is a [string]: the sequence of its UTF-8 bytes.  Every
        character the code inspects ([/], the nine characters of the
        sanitiser's class, [.], the blank) is ASCII, and an ASCII byte never
        occurs inside a multi-byte UTF-8 sequence, so splitting, stripping,
        prefix tests and comparisons agree with the code-point versions.
      - A Python [int] is a [Z].  A Python [float] (wall-clock readings,
        percentages) is a binary64 [float]: differences, products, quotients
        and comparisons round as the interpreter's do.  The estimator of the
        time remaining alone is idealised: it works in rationals [Q], on the
        exact values of the floats it is given.  [int(x)] is truncation
        toward zero.
      - A JSON object read with [.get(key, default)] is a record of
        [option] fields.
      - A [dict] whose iteration order is observed is an association list
        with Python's assignment (overwrite in place, else append); a [dict]
        only read by key is a [gmap].
      - The file system, the clock, the file server, the progress files and
        the callback endpoint live in an explicit [world] that every effectful
        function threads; what the API server and the process environment
        give to one job is an [upstream].  A call of [time.time()] takes the
        next reading of the clock.
      - An exception is the text of [str(e)]; a function that can raise
        returns a sum whose left side is that text.
      - A [pathlib] path is a root and a list of parts, with the parsing and
        joining of a POSIX system.

    The file has four parts: the embedding of the code, the notions the
    statements use, concrete runs, and the properties with their proofs. *)

From Stdlib Require Import ZArith QArith String Ascii List Bool Lia.
From Stdlib Require Import DecimalString Floats.
From stdpp Require Import base gmap strings list.

Set Warnings "-register-all".

Local Open Scope string_scope.
Local Open Scope Z_scope.

(** ** Python string primitives *)

Module PyStr.

(** [s.startswith(p)] *)
Fixpoint startswith (p s : string) : bool :=
  match p, s with
  | EmptyString, _ => true
  | String a p', String b s' => if Ascii.eqb a b then startswith p' s' else false
  | String _ _, EmptyString => false
  end.

(** [c in s] for a one-character [c] *)
Fixpoint has_char (c : ascii) (s : string) : bool :=
  match s with
  | EmptyString => false
  | String a s' => if Ascii.eqb a c then true else has_char c s'
  end.

(** [s.lstrip(chars)], [s.rstrip(chars)], [s.strip(chars)]; the set
    [chars] is given by its membership test. *)
Fixpoint lstrip (P : ascii -> bool) (s : string) : string :=
  match s with
  | EmptyString => EmptyString
  | String a s' => if P a then lstrip P s' else s
  end.

Fixpoint rstrip (P : ascii -> bool) (s : string) : string :=
  match s with
  | EmptyString => EmptyString
  | String a s' =>
      match rstrip P s' with
      | EmptyString => if P a then EmptyString else String a EmptyString
      | String b t => String a (String b t)
      end
  end.

Definition strip (P : ascii -> bool) (s : string) : string :=
  rstrip P (lstrip P s).

(** [s.split(sep)] for a one-character separator: never the empty list. *)
Fixpoint split (sep : ascii) (s : string) : list string :=
  match s with
  | EmptyString => [EmptyString]
  | String a s' =>
      if Ascii.eqb a sep then EmptyString :: split sep s'
      else match split sep s' with
           | [] => [String a EmptyString]
           | h :: t => String a h :: t
           end
  end.

(** [sep.join(parts)] *)
Fixpoint join (sep : string) (parts : list string) : string :=
  match parts with
  | [] => EmptyString
  | [p] => p
  | p :: rest => p ++ sep ++ join sep rest
  end.

(** [l[:-1]] *)
Definition drop_last {A} (l : list A) : list A := removelast l.

(** [tok in s] for a string [tok] *)
Fixpoint contains (tok s : string) : bool :=
  if startswith tok s then true
  else match s with
       | EmptyString => false
       | String _ s' => contains tok s'
       end.

(** [str(n)] for an integer *)
Definition str_of_Z (n : Z) : string := NilZero.string_of_int (Z.to_int n).

(** [f"{n:02d}"]: zero padding to width two (the sign counts). *)
Definition fmt_02d (n : Z) : string :=
  let s := str_of_Z n in
  if (String.length s <? 2)%nat then "0" ++ s else s.

Definition is_ch (c : ascii) : ascii -> bool := fun a => Ascii.eqb a c.

(** Every character satisfies [Q]. *)
Fixpoint every (Q : ascii -> bool) (s : string) : bool :=
  match s with
  | EmptyString => true
  | String a s' => Q a && every Q s'
  end.

(** The first character, if there is one, is outside [P]. *)
Definition head_clear (P : ascii -> bool) (s : string) : Prop :=
  match s with
  | EmptyString => True
  | String a _ => P a = false
  end.

End PyStr.

Definition slash : ascii := "/"%char.

(** ** SyncDownloaderSimple: manifest flattening and path filter *)

(** The character class of the [re.sub] call of [_sanitize_filename]: the
    nine characters less-than, greater-than, colon, double quote (code 34),
    slash, backslash, bar, question mark and star; each is replaced by an
    underscore. *)
Definition illegal_chars : list ascii :=
  [ "<"%char; ">"%char; ":"%char; "034"%char; "/"%char; "\"%char;
    "|"%char; "?"%char; "*"%char ].

Definition is_illegal (c : ascii) : bool :=
  existsb (Ascii.eqb c) illegal_chars.

Fixpoint re_sub_illegal (s : string) : string :=
  match s with
  | EmptyString => EmptyString
  | String a s' =>
      String (if is_illegal a then "_"%char else a) (re_sub_illegal s')
  end.

(** The argument of [filename.strip('. ')]. *)
Definition dot_or_space (c : ascii) : bool :=
  Ascii.eqb c "."%char || Ascii.eqb c " "%char.

Definition _sanitize_filename (filename : string) : string :=
  let filename := re_sub_illegal filename in
  let filename := PyStr.strip dot_or_space filename in
  match filename with
  | EmptyString => "unnamed_file"
  | _ => filename
  end.

(** One node of the [tracks] JSON: the five keys the downloader reads.
    A missing [children] key reads as the empty list. *)
Inductive track : Type :=
  Track (type : option string) (title : option string)
        (children : list track)
        (mediaDownloadUrl : option string) (size : option Z).

(** [track.get("type") == "folder"] *)
Definition is_folder (ty : option string) : bool :=
  match ty with
  | Some s => String.eqb s "folder"
  | None => false
  end.

(** The [file_info] dictionaries built by [_extract_files_from_tracks]. *)
Record file_info : Type := FileInfo {
  fi_title : string;
  fi_mediaDownloadUrl : string;
  fi_path : string;
  fi_filename : string;
  fi_size : Z
}.

Definition str_nonempty (s : string) : bool :=
  match s with EmptyString => false | _ => true end.

(** [f"{base_path}/{name}" if base_path else name] *)
Definition path_join (base_path name : string) : string :=
  if str_nonempty base_path then base_path ++ "/" ++ name else name.

Fixpoint extract_track (base_path : string) (t : track) : list file_info :=
  match t with
  | Track ty title children url size =>
      if is_folder ty then
        let track_title := default "Unknown Folder" title in
        let folder_path := path_join base_path (_sanitize_filename track_title) in
        flat_map (extract_track folder_path) children
      else
        [ {| fi_title := default "Unknown File" title;
             fi_mediaDownloadUrl := default EmptyString url;
             fi_path := base_path;
             fi_filename := _sanitize_filename (default "Unknown File" title);
             fi_size := default 0 size |} ]
  end.

(** [for track in tracks: files.extend(...) / files.append(...)] *)
Definition _extract_files_from_tracks (tracks : list track) (base_path : string)
  : list file_info :=
  flat_map (extract_track base_path) tracks.

(** *** The file-structure tree

    [_build_file_structure] returns a [dict] from sanitised names to nodes;
    [get_file_size_from_structure] iterates it with [.items()], so the order
    of the keys is part of the model. *)

Inductive node : Type :=
| NFile (size : Z) (url : string)
| NFolder (children : list (string * node)) (file_count : Z).

(** [d[key] = value] on an insertion-ordered dictionary: an existing key keeps
    its position and takes the new value, a new key goes to the end. *)
Fixpoint dict_set {V} (d : list (string * V)) (key : string) (value : V)
  : list (string * V) :=
  match d with
  | [] => [(key, value)]
  | (k, v) :: rest =>
      if String.eqb k key then (k, value) :: rest
      else (k, v) :: dict_set rest key value
  end.

Definition _count_files_in_structure (structure : list (string * node)) : Z :=
  fold_left
    (fun count item =>
       match snd item with
       | NFile _ _ => count + 1
       | NFolder _ file_count => count + file_count
       end)
    structure 0.

Fixpoint build_track (base_path : string) (structure : list (string * node))
  (t : track) : list (string * node) :=
  match t with
  | Track ty title children url size =>
      if is_folder ty then
        let track_title := default "Unknown Folder" title in
        let folder_name := _sanitize_filename track_title in
        let child_structure :=
          fold_left (build_track (path_join base_path folder_name)) children [] in
        dict_set structure folder_name
          (NFolder child_structure (_count_files_in_structure child_structure))
      else
        let filename := _sanitize_filename (default "Unknown File" title) in
        dict_set structure filename
          (NFile (default 0 size) (default EmptyString url))
  end.

Definition _build_file_structure (tracks : list track) (base_path : string)
  : list (string * node) :=
  fold_left (build_track base_path) tracks [].

(** [get_file_size_from_structure]: the inner [search_structure].  The
    recursive call on [value["children"]] is [search_children]. *)
Fixpoint search_children (filename : string) (value : node) {struct value} : Z :=
  match value with
  | NFile _ _ => 0
  | NFolder children _ =>
      (fix loop (items : list (string * node)) : Z :=
         match items with
         | [] => 0
         | (key, NFile size _) :: rest =>
             if String.eqb key filename then size else loop rest
         | (key, (NFolder _ _) as sub) :: rest =>
             let size := search_children filename sub in
             if (0 <? size)%Z then size else loop rest
         end) children
  end.

Fixpoint search_structure (filename : string) (structure : list (string * node))
  : Z :=
  match structure with
  | [] => 0
  | (key, NFile size _) :: rest =>
      if String.eqb key filename then size else search_structure filename rest
  | (key, (NFolder _ _) as sub) :: rest =>
      let size := search_children filename sub in
      if (0 <? size)%Z then size else search_structure filename rest
  end.

Definition get_file_size_from_structure (file_structure : list (string * node))
  (filename : string) : Z :=
  search_structure filename file_structure.

(** *** Path filter *)

Definition strip_slashes (s : string) : string :=
  PyStr.strip (PyStr.is_ch slash) s.

Definition _path_matches (file_path target_path : string) : bool :=
  let file_path := strip_slashes file_path in
  let target_path := strip_slashes target_path in
  if negb (str_nonempty target_path) then true
  else if String.eqb file_path target_path then true
  else if PyStr.startswith (target_path ++ "/") file_path then true
  else
    let file_dir :=
      if PyStr.has_char slash file_path
      then PyStr.join "/" (PyStr.drop_last (PyStr.split slash file_path))
      else EmptyString in
    if String.eqb file_dir target_path then true
    else false.

(** [f"{file_path}/{filename}" if file_path else filename] *)
Definition full_path (fi : file_info) : string :=
  if str_nonempty (fi_path fi) then fi_path fi ++ "/" ++ fi_filename fi
  else fi_filename fi.

Definition _filter_files_by_path (all_files : list file_info) (target_path : string)
  : list file_info :=
  let target_path := strip_slashes target_path in
  fold_left
    (fun filtered_files file_info =>
       if _path_matches (full_path file_info) target_path
       then (filtered_files ++ [file_info])%list
       else filtered_files)
    all_files [].

(** ** The world outside the interpreter *)

(** One write of the progress file [ASMRTools-<task_id>.json]: the keys of the
    dictionary that [update_progress] dumps.  A key that a call does not pass
    is [None].  The constant keys [pluginName] and [type] and the free-text
    keys [message] and [downloadSpeed] are not represented. *)
Record snapshot : Type := Snapshot {
  requestId : string;
  status : string;
  timestamp : float;
  workId : option string;
  workTitle : option string;
  progress : option float;
  eta : option string;
  completedFiles : option Z;
  totalFiles : option Z;
  currentFile : option string;
  completedFilesList : option (list string);
  failedFilesList : option (list string);
  fileStructure : option (list (string * node));
  downloadedBytes : option Z;
  totalBytes : option Z;
  downloadDir : option string;
  reason : option string
}.

(** What a streamed [session.get(url, stream=True)] does: it raises, or it
    answers with a status code, a [content-length] header and a sequence of
    chunks (given by their lengths) that may end in a transport error.  A
    [content-length] that is not an integer makes [int(...)] raise before
    anything is stored, which the downloader cannot tell from a request that
    raises: [GetRaises] stands for that answer too. *)
Inductive http_download : Type :=
| GetRaises
| GetAnswers (status_code : Z) (content_length : Z) (chunks : list Z)
             (breaks_off : bool).

(** An API answer whose body is parsed with [.json()]: the call raises (with
    the text of the exception), or it answers with a status code and a body,
    and a body that does not parse or lacks the key read from it raises on
    access. *)
Inductive http_json (A : Type) : Type :=
| ApiRaises (why : string)
| ApiAnswers (status_code : Z) (body : string + A).
Arguments ApiRaises {A} why.
Arguments ApiAnswers {A} status_code body.

(** [ASMRConfig], the fields the download path reads. *)
Record ASMRConfig : Type := {
  username : string;
  password : string;
  download_path : string;
  api_channel : option string;
  progress_update_interval : Z
}.

(** The default of the dataclass field and of [from_env]. *)
Definition default_progress_update_interval : Z := 30.

(** [os.environ] once [load_env_file] has added the entries of [config.env]:
    the variables [from_env] reads.  A variable is unset ([None]) or holds a
    text; for the two that go through [int(...)] the text is given by the
    integer it denotes, if any. *)
Record environ : Type := {
  ASMR_USERNAME : option string;
  ASMR_PASSWORD : option string;
  ASMR_DOWNLOAD_PATH : option string;
  ASMR_API_CHANNEL : option string;
  ARIA2_PORT : option (option Z);
  ASMR_PROGRESS_UPDATE_INTERVAL : option (option Z)
}.

(** [os.getenv(name) or None] *)
Definition or_none (v : option string) : option string :=
  match v with
  | Some EmptyString => None
  | _ => v
  end.

(** [ASMRConfig.from_env()]: the configuration, or the text of the
    [ValueError] of a failed [int(...)]. *)
Definition from_env (e : environ) : string + ASMRConfig :=
  match default (Some 6800) (ARIA2_PORT e) with
  | None => inl "invalid literal for int() with base 10"
  | Some _ =>
      match default (Some default_progress_update_interval)
                    (ASMR_PROGRESS_UPDATE_INTERVAL e) with
      | None => inl "invalid literal for int() with base 10"
      | Some interval =>
          inr {| username := default EmptyString (ASMR_USERNAME e);
                 password := default EmptyString (ASMR_PASSWORD e);
                 download_path := default "./downloads/asmr" (ASMR_DOWNLOAD_PATH e);
                 api_channel := or_none (ASMR_API_CHANNEL e);
                 progress_update_interval := interval |}
      end
  end.

(** The work JSON: the two keys read from it. *)
Record work_info : Type := {
  wi_title : option string;
  wi_source_id : option string
}.

(** The dictionary [perform_download_sync] returns (and the callback posts). *)
Record job_result : Type := {
  r_requestId : string;
  r_status : string;
  r_reason : option string;
  r_totalTracks : option Z;
  r_successCount : option Z;
  r_failedCount : option Z;
  r_completedFiles : option (list string);
  r_failedFiles : option (list string)
}.

Definition failed_result (task_id why : string) (failed : option (list string))
  : job_result :=
  {| r_requestId := task_id; r_status := "Failed"; r_reason := Some why;
     r_totalTracks := None; r_successCount := None; r_failedCount := None;
     r_completedFiles := None; r_failedFiles := failed |}.

Record world : Type := World {
  (** [time.time()]: the n-th reading of the clock *)
  w_now : nat -> float;
  w_tick : nat;
  (** regular files by path, with their sizes *)
  w_fs : gmap string Z;
  (** the file server, and the URLs requested from it so far *)
  w_fetch : string -> http_download;
  w_requests : list string;
  (** bytes received from the file server so far *)
  w_received : Z;
  (** every dump of a progress file so far, oldest first *)
  w_writes : list snapshot;
  (** every body posted to the callback endpoint so far, with its URL *)
  w_posts : list (string * job_result)
}.

Definition time_time (w : world) : float * world :=
  (w_now w (w_tick w),
   {| w_now := w_now w; w_tick := S (w_tick w); w_fs := w_fs w;
      w_fetch := w_fetch w; w_requests := w_requests w;
      w_received := w_received w; w_writes := w_writes w;
      w_posts := w_posts w |}).

(** [json.dump(progress_data, f, ...)] into the progress file.  (Should the
    dump raise, [update_progress] logs and goes on; the model keeps to dumps
    that land.) *)
Definition dump_progress (s : snapshot) (w : world) : world :=
  {| w_now := w_now w; w_tick := w_tick w; w_fs := w_fs w;
     w_fetch := w_fetch w; w_requests := w_requests w;
     w_received := w_received w; w_writes := (w_writes w ++ [s])%list;
     w_posts := w_posts w |}.

Definition set_fs (fs : gmap string Z) (w : world) : world :=
  {| w_now := w_now w; w_tick := w_tick w; w_fs := fs;
     w_fetch := w_fetch w; w_requests := w_requests w;
     w_received := w_received w; w_writes := w_writes w;
     w_posts := w_posts w |}.

Definition log_request (url : string) (w : world) : world :=
  {| w_now := w_now w; w_tick := w_tick w; w_fs := w_fs w;
     w_fetch := w_fetch w; w_requests := (w_requests w ++ [url])%list;
     w_received := w_received w; w_writes := w_writes w;
     w_posts := w_posts w |}.

Definition receive (n : Z) (w : world) : world :=
  {| w_now := w_now w; w_tick := w_tick w; w_fs := w_fs w;
     w_fetch := w_fetch w; w_requests := w_requests w;
     w_received := w_received w + n; w_writes := w_writes w;
     w_posts := w_posts w |}.

(** [requests.post(callback_url, json=body, timeout=30)]: the attempt is
    recorded whatever becomes of it. *)
Definition post_callback (url : string) (body : job_result) (w : world) : world :=
  {| w_now := w_now w; w_tick := w_tick w; w_fs := w_fs w;
     w_fetch := w_fetch w; w_requests := w_requests w;
     w_received := w_received w; w_writes := w_writes w;
     w_posts := (w_posts w ++ [(url, body)])%list |}.

(** ** Python numbers *)

(** An integer as a mantissa with exponent 0, of any length. *)
Definition sf_of_Z (z : Z) : spec_float :=
  match z with
  | Z0 => S754_zero false
  | Zpos m => S754_finite false m 0
  | Zneg m => S754_finite true m 0
  end.

(** [a / b] for two integers and a non-zero [b]: the float nearest to the
    exact quotient (ties to even).  A quotient beyond the range of the floats
    would raise an [OverflowError]; it takes [|a|] at least [2 ^ 1024] times
    [|b|]. *)
Definition int_truediv (a b : Z) : float :=
  SF2Prim (SFdiv prec emax (sf_of_Z a) (sf_of_Z b)).

(** [float(n)] for an integer: the nearest float (ties to even) *)
Definition float_of_Z (n : Z) : float :=
  SF2Prim (binary_normalize prec emax n 0 false).

(** The rational a finite float stands for (0 for an infinity or a NaN,
    which have none). *)
Definition exact (x : float) : Q :=
  match Prim2SF x with
  | S754_finite s m e =>
      let n := if s then Z.neg m else Z.pos m in
      match e with
      | Zneg k => Qred (n # Pos.pow 2 k)
      | _ => inject_Z (n * 2 ^ e)
      end
  | _ => 0%Q
  end.

Coercion exact : float >-> Q.

(** [x >= n] for a float and an integer: Python compares the exact values. *)
Definition float_ge_int (x : float) (n : Z) : bool :=
  match Prim2SF x with
  | S754_finite _ _ _ | S754_zero _ => Qle_bool (inject_Z n) (exact x)
  | S754_infinity s => negb s
  | S754_nan => false
  end.

Definition Qltb (a b : Q) : bool := negb (Qle_bool b a).

(** [int(x)]: truncation toward zero *)
Definition py_int (x : Q) : Z := Z.quot (Qnum x) (Z.pos (Qden x)).

(** ** ProgressManager *)

(** One entry of [_progress_history], as the estimator reads it: the time and
    the progress are the exact values of the floats stored. *)
Record sample : Type := Sample {
  s_time : Q;
  s_progress : Q;
  s_completed_files : Z;
  s_downloaded_bytes : Z;
  s_total_bytes : Z
}.

(** The attributes of a [ProgressManager].  [_last_progress] and
    [_last_eta_seconds] are not set by [__init__]: [None] is the absent
    attribute that [hasattr] and [getattr] test for. *)
Record ProgressManager : Type := {
  update_interval : Z;
  last_update_time : float;
  _start_time : float;
  _progress_history : list sample;
  _completed_files_list : list string;
  _file_structure : list (string * node);
  _last_progress : option float;
  _last_eta_seconds : option Z
}.

(** [ProgressManager.__init__], once the results directory exists and the
    configuration is read. *)
Definition ProgressManager_init (config : ASMRConfig) : ProgressManager :=
  {| update_interval := progress_update_interval config;
     last_update_time := 0%float;
     _start_time := 0%float;
     _progress_history := [];
     _completed_files_list := [];
     _file_structure := [];
     _last_progress := None;
     _last_eta_seconds := None |}.

(** The dictionary [update_progress] builds: the keyword arguments (given as
    a snapshot) under the request id, the status and the time stamp. *)
Definition stamp (task_id st : string) (t : float) (kwargs : snapshot) : snapshot :=
  {| requestId := task_id; status := st; timestamp := t;
     workId := workId kwargs; workTitle := workTitle kwargs;
     progress := progress kwargs; eta := eta kwargs;
     completedFiles := completedFiles kwargs;
     totalFiles := totalFiles kwargs;
     currentFile := currentFile kwargs;
     completedFilesList := completedFilesList kwargs;
     failedFilesList := failedFilesList kwargs;
     fileStructure := fileStructure kwargs;
     downloadedBytes := downloadedBytes kwargs;
     totalBytes := totalBytes kwargs;
     downloadDir := downloadDir kwargs;
     reason := reason kwargs |}.

(** [update_progress(task_id, status, **kwargs)] *)
Definition update_progress (task_id : string) (st : string) (kwargs : snapshot)
  (w : world) : world :=
  let '(t, w) := time_time w in
  dump_progress (stamp task_id st t kwargs) w.

Definition set_completed_files_list (l : list string) (pm : ProgressManager)
  : ProgressManager :=
  {| update_interval := update_interval pm;
     last_update_time := last_update_time pm;
     _start_time := _start_time pm;
     _progress_history := _progress_history pm;
     _completed_files_list := l;
     _file_structure := _file_structure pm;
     _last_progress := _last_progress pm;
     _last_eta_seconds := _last_eta_seconds pm |}.

Definition set_progress_history (h : list sample) (pm : ProgressManager)
  : ProgressManager :=
  {| update_interval := update_interval pm;
     last_update_time := last_update_time pm;
     _start_time := _start_time pm;
     _progress_history := h;
     _completed_files_list := _completed_files_list pm;
     _file_structure := _file_structure pm;
     _last_progress := _last_progress pm;
     _last_eta_seconds := _last_eta_seconds pm |}.

Definition set_last_progress (p : float) (pm : ProgressManager) : ProgressManager :=
  {| update_interval := update_interval pm;
     last_update_time := last_update_time pm;
     _start_time := _start_time pm;
     _progress_history := _progress_history pm;
     _completed_files_list := _completed_files_list pm;
     _file_structure := _file_structure pm;
     _last_progress := Some p;
     _last_eta_seconds := _last_eta_seconds pm |}.

Definition set_last_eta_seconds (e : Z) (pm : ProgressManager) : ProgressManager :=
  {| update_interval := update_interval pm;
     last_update_time := last_update_time pm;
     _start_time := _start_time pm;
     _progress_history := _progress_history pm;
     _completed_files_list := _completed_files_list pm;
     _file_structure := _file_structure pm;
     _last_progress := _last_progress pm;
     _last_eta_seconds := Some e |}.

Definition set_last_update_time (t : float) (pm : ProgressManager) : ProgressManager :=
  {| update_interval := update_interval pm;
     last_update_time := t;
     _start_time := _start_time pm;
     _progress_history := _progress_history pm;
     _completed_files_list := _completed_files_list pm;
     _file_structure := _file_structure pm;
     _last_progress := _last_progress pm;
     _last_eta_seconds := _last_eta_seconds pm |}.

Definition set_file_structure (fs : list (string * node)) (pm : ProgressManager)
  : ProgressManager :=
  {| update_interval := update_interval pm;
     last_update_time := last_update_time pm;
     _start_time := _start_time pm;
     _progress_history := _progress_history pm;
     _completed_files_list := _completed_files_list pm;
     _file_structure := fs;
     _last_progress := _last_progress pm;
     _last_eta_seconds := _last_eta_seconds pm |}.

(** *** The ETA estimator *)

Definition unknown_eta : string := "--:--".

(** [l[-n:]] for a positive [n] *)
Definition last_n {A} (n : nat) (l : list A) : list A :=
  skipn (length l - n) l.

(** [self._progress_history[-min(8, len(self._progress_history)):]] *)
Definition recent_history (history : list sample) : list sample :=
  last_n (Nat.min 8 (length history)) history.

(** The three presentations of a number of seconds. *)
Definition format_eta (eta_seconds : Z) : string :=
  if (7200 <? eta_seconds)%Z then ">2h"
  else if (3600 <? eta_seconds)%Z then
    let hours := eta_seconds / 3600 in
    let minutes := (eta_seconds mod 3600) / 60 in
    PyStr.str_of_Z hours ++ "h" ++ PyStr.fmt_02d minutes ++ "m"
  else
    let minutes := eta_seconds / 60 in
    let seconds := eta_seconds mod 60 in
    PyStr.fmt_02d minutes ++ ":" ++ PyStr.fmt_02d seconds.

(** [bytes_diff / total_time_diff] between the oldest and the newest of the
    recent samples *)
Definition bytes_per_second (oldest newest : sample) : Q :=
  (inject_Z (s_downloaded_bytes newest - s_downloaded_bytes oldest)
   / (s_time newest - s_time oldest))%Q.

(** [int(remaining_bytes / bytes_per_second)] *)
Definition raw_eta_seconds (oldest newest : sample) : Z :=
  py_int (inject_Z (s_total_bytes newest - s_downloaded_bytes newest)
          / bytes_per_second oldest newest)%Q.

(** The smoothing step: with a previous positive estimate that the new one
    leaves by more than 40 percent, blend seven to three. *)
Definition smooth_eta (last_eta : option Z) (eta_seconds : Z) : Z :=
  match last_eta with
  | Some last =>
      if (0 <? last)%Z then
        if Qltb (inject_Z last * (4 # 10))%Q (inject_Z (Z.abs (eta_seconds - last)))
        then py_int ((7 # 10) * inject_Z last + (3 # 10) * inject_Z eta_seconds)%Q
        else eta_seconds
      else eta_seconds
  | None => eta_seconds
  end.

Definition _calculate_eta_by_progress (recent : list sample)
  (current_progress total_time_diff : Q) : string :=
  match recent, last recent with
  | oldest :: _, Some newest =>
      let total_progress_diff := (s_progress newest - s_progress oldest)%Q in
      if Qle_bool total_progress_diff 0 then unknown_eta
      else
        let progress_rate := (total_progress_diff / total_time_diff)%Q in
        let remaining_progress := (100 - current_progress)%Q in
        if Qle_bool progress_rate 0 then unknown_eta
        else format_eta (py_int (remaining_progress / progress_rate)%Q)
  | _, _ => unknown_eta
  end.

(** [_calculate_eta]: the string returned and the manager afterwards (only
    [_last_eta_seconds] can change).  An empty [recent_history] would raise an
    [IndexError] that the method catches to return the unknown value. *)
Definition _calculate_eta (pm : ProgressManager) (current_progress current_time : Q)
  : string * ProgressManager :=
  if Qle_bool current_progress 0 || Qle_bool 100 current_progress
  then (unknown_eta, pm)
  else if (length (_progress_history pm) <? 2)%nat then (unknown_eta, pm)
  else
    let recent := recent_history (_progress_history pm) in
    if (length recent <? 2)%nat then (unknown_eta, pm)
    else
      match recent, last recent with
      | oldest :: _, Some newest =>
          let total_time_diff := (s_time newest - s_time oldest)%Q in
          if Qltb total_time_diff 3 then (unknown_eta, pm)
          else if (0 <? s_total_bytes newest)%Z && (0 <? s_downloaded_bytes newest)%Z
          then
            let bytes_diff := s_downloaded_bytes newest - s_downloaded_bytes oldest in
            if (0 <? bytes_diff)%Z then
              let remaining_bytes := s_total_bytes newest - s_downloaded_bytes newest in
              if (0 <? remaining_bytes)%Z then
                let eta_seconds := raw_eta_seconds oldest newest in
                let eta_seconds := smooth_eta (_last_eta_seconds pm) eta_seconds in
                (format_eta eta_seconds, set_last_eta_seconds eta_seconds pm)
              else ("00:00", pm)
            else (_calculate_eta_by_progress recent current_progress total_time_diff, pm)
          else (_calculate_eta_by_progress recent current_progress total_time_diff, pm)
      | _, _ => (unknown_eta, pm)
      end.

(** *** The state-writing methods *)

(** [self._progress_history.append(...)] and the cut to the last 15 entries *)
Definition record_sample (s : sample) (pm : ProgressManager) : ProgressManager :=
  let history := (_progress_history pm ++ [s])%list in
  let history := if (15 <? length history)%nat then last_n 15 history else history in
  set_progress_history history pm.

(** The decision of [update_download_progress] to write the file, and the
    manager after it ([_last_progress] moves only when the forced branch is
    taken).  The two differences are float subtractions; the first is
    compared with the integer interval, the second with [1.0]. *)
Definition should_update_file (pm : ProgressManager)
  (current_time progress_percent : float) : bool * ProgressManager :=
  let should_update_file :=
    float_ge_int (current_time - last_update_time pm)%float (update_interval pm) in
  let hasattr_last_progress :=
    match _last_progress pm with Some _ => true | None => false end in
  let getattr_last_progress := default 0%float (_last_progress pm) in
  if (1 <? abs (progress_percent - getattr_last_progress))%float
     || negb hasattr_last_progress
  then (true, set_last_progress progress_percent pm)
  else (should_update_file, pm).

Definition update_download_progress (pm : ProgressManager) (w : world)
  (task_id : string) (wi : work_info) (progress_percent : float)
  (download_speed completed_files total_files : Z) (current_file : string)
  (completed_files_list : list string) (downloaded_bytes total_bytes : Z)
  : ProgressManager * world :=
  let '(current_time, w) := time_time w in
  let pm :=
    match completed_files_list with
    | [] => pm
    | _ => set_completed_files_list completed_files_list pm
    end in
  let pm :=
    record_sample
      {| s_time := exact current_time; s_progress := exact progress_percent;
         s_completed_files := completed_files;
         s_downloaded_bytes := downloaded_bytes;
         s_total_bytes := total_bytes |} pm in
  let '(should, pm) := should_update_file pm current_time progress_percent in
  let '(eta_str, pm) :=
    _calculate_eta pm (exact progress_percent) (exact current_time) in
  if should then
    let pm := set_last_update_time current_time pm in
    (pm,
     update_progress task_id "Downloading"
       {| requestId := EmptyString; status := EmptyString; timestamp := 0%float;
          workId := Some (default EmptyString (wi_source_id wi));
          workTitle := Some (default "Unknown Work" (wi_title wi));
          progress := Some progress_percent;
          eta := Some eta_str;
          completedFiles := Some completed_files;
          totalFiles := Some total_files;
          currentFile := Some current_file;
          completedFilesList := Some (_completed_files_list pm);
          failedFilesList := None;
          fileStructure := Some (_file_structure pm);
          downloadedBytes := Some downloaded_bytes;
          totalBytes := Some total_bytes;
          downloadDir := None;
          reason := None |} w)
  else (pm, w).

(** The dictionary returned by [download_tracks]. *)
Record download_result : Type := {
  work_title : string;
  download_dir : string;
  total_tracks : Z;
  success_count : Z;
  failed_count : Z;
  completed_downloads : list string;
  failed_downloads : list string
}.

Definition update_success (task_id : string) (wi : work_info)
  (dr : download_result) (w : world) : world :=
  update_progress task_id "Succeed"
    {| requestId := EmptyString; status := EmptyString; timestamp := 0%float;
       workId := Some (default EmptyString (wi_source_id wi));
       workTitle := Some (default "Unknown Work" (wi_title wi));
       progress := Some 100%float;
       eta := None;
       completedFiles := Some (success_count dr);
       totalFiles := Some (total_tracks dr);
       currentFile := None;
       completedFilesList := Some (completed_downloads dr);
       failedFilesList := Some (failed_downloads dr);
       fileStructure := None;
       downloadedBytes := None;
       totalBytes := None;
       downloadDir := Some (download_dir dr);
       reason := None |} w.

Definition update_failed (task_id : string) (why : string)
  (wi : option work_info) (w : world) : world :=
  update_progress task_id "Failed"
    {| requestId := EmptyString; status := EmptyString; timestamp := 0%float;
       workId := (fun i => default EmptyString (wi_source_id i)) <$> wi;
       workTitle := (fun i => default "Unknown Work" (wi_title i)) <$> wi;
       progress := None;
       eta := None;
       completedFiles := None;
       totalFiles := None;
       currentFile := None;
       completedFilesList := None;
       failedFilesList := None;
       fileStructure := None;
       downloadedBytes := None;
       totalBytes := None;
       downloadDir := None;
       reason := Some why |} w.

Definition update_starting (pm : ProgressManager) (task_id work_id : string)
  (w : world) : ProgressManager * world :=
  let '(t, w) := time_time w in
  let pm :=
    {| update_interval := update_interval pm;
       last_update_time := last_update_time pm;
       _start_time := t;
       _progress_history := [];
       _completed_files_list := [];
       _file_structure := [];
       _last_progress := _last_progress pm;
       _last_eta_seconds := Some 0 |} in
  (pm,
   update_progress task_id "Starting"
     {| requestId := EmptyString; status := EmptyString; timestamp := 0%float;
        workId := Some work_id;
        workTitle := None;
        progress := Some 0%float;
        eta := Some unknown_eta;
        completedFiles := Some 0;
        totalFiles := Some 0;
        currentFile := Some EmptyString;
        completedFilesList := Some [];
        failedFilesList := None;
        fileStructure := Some [];
        downloadedBytes := None;
        totalBytes := None;
        downloadDir := None;
        reason := None |} w).

Definition update_preparing (pm : ProgressManager) (task_id : string)
  (wi : work_info) (total_files : Z) (file_structure : list (string * node))
  (w : world) : ProgressManager * world :=
  let pm :=
    match file_structure with
    | [] => pm
    | _ => set_file_structure file_structure pm
    end in
  (pm,
   update_progress task_id "Preparing"
     {| requestId := EmptyString; status := EmptyString; timestamp := 0%float;
        workId := Some (default EmptyString (wi_source_id wi));
        workTitle := Some (default "Unknown Work" (wi_title wi));
        progress := Some 5%float;
        eta := None;
        completedFiles := None;
        totalFiles := Some total_files;
        currentFile := None;
        completedFilesList := None;
        failedFilesList := None;
        fileStructure := Some (_file_structure pm);
        downloadedBytes := None;
        totalBytes := None;
        downloadDir := None;
        reason := None |} w).

(** ** pathlib on a POSIX system *)

(** A [PurePosixPath]: its root (none, ["/"] or ["//"]) and the parts under
    the root. *)
Record posix_path : Type := {
  pp_root : string;
  pp_parts : list string
}.

(** The root of a path given as a string: exactly two leading slashes make
    the root ["//"], one leading slash or more than two make the root
    ["/"]. *)
Definition path_root (s : string) : string :=
  if PyStr.startswith "/" s then
    let stripped := PyStr.lstrip (PyStr.is_ch slash) s in
    if (String.length s - String.length stripped =? 2)%nat then "//" else "/"
  else EmptyString.

(** A piece between two slashes counts as a part unless it is empty or
    [.]. *)
Definition is_part (piece : string) : bool :=
  str_nonempty piece && negb (String.eqb piece ".").

(** [Path(s)]: the root, and the parts of what follows the leading
    slashes. *)
Definition Path (s : string) : posix_path :=
  {| pp_root := path_root s;
     pp_parts :=
       List.filter is_part (PyStr.split slash (PyStr.lstrip (PyStr.is_ch slash) s)) |}.

(** [p / s]: a segment with a root replaces the path, any other segment adds
    its parts. *)
Definition path_div (p : posix_path) (s : string) : posix_path :=
  let q := Path s in
  if str_nonempty (pp_root q) then q
  else {| pp_root := pp_root p; pp_parts := (pp_parts p ++ pp_parts q)%list |}.

(** [str(p)] *)
Definition path_str (p : posix_path) : string :=
  match pp_root p, pp_parts p with
  | EmptyString, [] => "."
  | root, parts => root ++ PyStr.join "/" parts
  end.

(** ** SyncDownloaderSimple: fetching *)

(** The dictionary handed to the progress callback. *)
Record progress_info : Type := {
  pi_filename : string;
  pi_status : string;
  pi_completed_length : Z;
  pi_total_length : Z;
  pi_download_speed : Z;
  pi_progress_percent : float
}.

Section Downloader.

(** The caller's callback and whatever state it closes over.  It runs
    inside the downloader, so it sees and changes the world. *)
Context {State : Type}.
Variable progress_callback : option (progress_info -> world * State -> world * State).

Definition call_back (info : progress_info) (ws : world * State) : world * State :=
  match progress_callback with
  | Some cb => cb info ws
  | None => ws
  end.

(** [download_dir / file_path / filename], or [download_dir / filename]; the
    directory and the result are given by their [str]. *)
Definition full_file_path (download_dir : string) (fi : file_info) : string :=
  if str_nonempty (fi_path fi)
  then path_str (path_div (path_div (Path download_dir) (fi_path fi)) (fi_filename fi))
  else path_str (path_div (Path download_dir) (fi_filename fi)).

(** [full_file_path.exists() and full_file_path.stat().st_size > 0] *)
Definition exists_nonempty (fs : gmap string Z) (path : string) : bool :=
  match fs !! path with
  | Some sz => (0 <? sz)%Z
  | None => false
  end.

(** The state of the chunk loop of [download_single_file]. *)
Record transfer : Type := {
  downloaded_size : Z;
  last_progress_time : float;
  tr_state : world * State
}.

(** One turn of [for chunk in response.iter_content(...)].  ([int] of the
    speed would raise on an infinite quotient, which takes a byte count of
    more than [1e308] times the elapsed time; readings of [time.time()]
    differ by nothing or by more than [1e-7] seconds.) *)
Definition write_chunk (filename path : string) (total_size : Z) (start_time : float)
  (tr : transfer) (chunk : Z) : transfer :=
  if (0 <? chunk)%Z then
    let '(w, s) := tr_state tr in
    let downloaded_size := downloaded_size tr + chunk in
    let w := receive chunk (set_fs (<[path := downloaded_size]> (w_fs w)) w) in
    let '(current_time, w) := time_time w in
    let elapsed_time := (current_time - start_time)%float in
    let download_speed :=
      if (0 <? elapsed_time)%float
      then py_int (exact (float_of_Z downloaded_size / elapsed_time)%float) else 0 in
    let progress_percent :=
      if (0 <? total_size)%Z
      then (int_truediv downloaded_size total_size * 100)%float else 0%float in
    match progress_callback with
    | Some cb =>
        if (2 <=? current_time - last_progress_time tr)%float then
          {| downloaded_size := downloaded_size;
             last_progress_time := current_time;
             tr_state :=
               cb {| pi_filename := filename; pi_status := "active";
                     pi_completed_length := downloaded_size;
                     pi_total_length := total_size;
                     pi_download_speed := download_speed;
                     pi_progress_percent := progress_percent |} (w, s) |}
        else
          {| downloaded_size := downloaded_size;
             last_progress_time := last_progress_time tr;
             tr_state := (w, s) |}
    | None =>
        {| downloaded_size := downloaded_size;
           last_progress_time := last_progress_time tr;
           tr_state := (w, s) |}
    end
  else tr.

(** [download_single_file], in the runs in which the file system obeys:
    [mkdir], [open] and [write] do not raise (the [except] clause would return
    [False]), and what exists at the path of an item is a regular file. *)
Definition download_single_file (fi : file_info) (download_dir : string)
  (ws : world * State) : bool * (world * State) :=
  let url := fi_mediaDownloadUrl fi in
  if negb (str_nonempty url) then (false, ws)
  else
    let filename := fi_filename fi in
    let path := full_file_path download_dir fi in
    let '(w, s) := ws in
    if exists_nonempty (w_fs w) path then
      let st_size := default 0 (w_fs w !! path) in
      (true,
       call_back {| pi_filename := filename; pi_status := "skipped";
                    pi_completed_length := st_size;
                    pi_total_length := st_size;
                    pi_download_speed := 0;
                    pi_progress_percent := 100%float |} (w, s))
    else
      let w := log_request url w in
      match w_fetch w url with
      | GetRaises => (false, (w, s))
      | GetAnswers status_code content_length chunks breaks_off =>
          if negb (status_code =? 200)%Z then (false, (w, s))
          else
            let total_size := content_length in
            let '(start_time, w) := time_time w in
            let w := set_fs (<[path := 0]> (w_fs w)) w in
            let tr :=
              fold_left (write_chunk filename path total_size start_time) chunks
                {| downloaded_size := 0; last_progress_time := 0%float;
                   tr_state := (w, s) |} in
            if breaks_off then (false, tr_state tr)
            else
              (true,
               call_back {| pi_filename := filename; pi_status := "complete";
                            pi_completed_length := downloaded_size tr;
                            pi_total_length := total_size;
                            pi_download_speed := 0;
                            pi_progress_percent := 100%float |} (tr_state tr))
      end.

(** The loop of [download_tracks] over [all_files]. *)
Record tally : Type := {
  tl_completed : list string;
  tl_failed : list string;
  tl_state : world * State
}.

Definition download_one (download_dir : string) (acc : tally) (fi : file_info)
  : tally :=
  let '(success, ws) := download_single_file fi download_dir (tl_state acc) in
  if success then
    {| tl_completed := (tl_completed acc ++ [fi_filename fi])%list;
       tl_failed := tl_failed acc; tl_state := ws |}
  else
    {| tl_completed := tl_completed acc;
       tl_failed := (tl_failed acc ++ [fi_filename fi])%list; tl_state := ws |}.

(** The files [download_tracks] works on. *)
Definition selected_files (tracks : list track) (target_path : string)
  : list file_info :=
  let all_files := _extract_files_from_tracks tracks EmptyString in
  if str_nonempty target_path
  then _filter_files_by_path all_files target_path
  else all_files.

(** [Path(self.config.download_path) / "asmr" / f"{work_id} - {safe_title}"] *)
Definition download_directory (config : ASMRConfig) (wi : work_info) : posix_path :=
  let work_id := default "unknown" (wi_source_id wi) in
  let work_title := default "Unknown Work" (wi_title wi) in
  let safe_title := _sanitize_filename work_title in
  path_div (path_div (Path (download_path config)) "asmr")
    (work_id ++ " - " ++ safe_title).

(** [str(download_dir)], by which the model names the directory. *)
Definition download_dir_of (config : ASMRConfig) (wi : work_info) : string :=
  path_str (download_directory config wi).

Definition download_tracks (config : ASMRConfig) (tracks : list track)
  (wi : work_info) (target_path : string) (ws : world * State)
  : download_result * (world * State) :=
  let work_title := default "Unknown Work" (wi_title wi) in
  let download_dir := download_dir_of config wi in
  let all_files := selected_files tracks target_path in
  let acc :=
    fold_left (download_one download_dir) all_files
      {| tl_completed := []; tl_failed := []; tl_state := ws |} in
  ({| work_title := work_title;
      download_dir := download_dir;
      total_tracks := Z.of_nat (length all_files);
      success_count := Z.of_nat (length (tl_completed acc));
      failed_count := Z.of_nat (length (tl_failed acc));
      completed_downloads := tl_completed acc;
      failed_downloads := tl_failed acc |},
   tl_state acc).

End Downloader.

(** ** The asynchronous handler of ASMRTools *)

(** [file_sizes] and [total_bytes] as [perform_download_sync] computes them:
    one look-up by bare file name per selected file. *)
Definition size_table (file_structure : list (string * node))
  (all_files : list file_info) : gmap string Z * Z :=
  fold_left
    (fun '(file_sizes, total_bytes) fi =>
       let file_size := get_file_size_from_structure file_structure (fi_filename fi) in
       (<[fi_filename fi := file_size]> file_sizes, total_bytes + file_size))
    all_files (∅, 0).

(** [file_sizes.get(filename, 0)] *)
Definition size_of (file_sizes : gmap string Z) (filename : string) : Z :=
  default 0 (file_sizes !! filename).

(** [filename in completed_files_list] *)
Definition name_in (filename : string) (l : list string) : bool :=
  existsb (String.eqb filename) l.

(** The variables [progress_callback] closes over and rebinds, with the
    progress manager it drives. *)
Record tracker : Type := {
  tk_pm : ProgressManager;
  completed_files : Z;
  current_file : string;
  completed_files_list : list string;
  downloaded_bytes : Z
}.

(** [overall_progress]: the quotient of the two integers is rounded to a
    float, and so is its product with 100. *)
Definition overall_progress (total_bytes total_files : Z)
  (downloaded_bytes completed_files : Z) : float :=
  if (0 <? total_bytes)%Z
  then (int_truediv downloaded_bytes total_bytes * 100)%float
  else if (0 <? total_files)%Z
       then (int_truediv completed_files total_files * 100)%float
       else 0%float.

Definition progress_callback (task_id : string) (wi : work_info)
  (file_sizes : gmap string Z) (total_bytes total_files : Z)
  (info : progress_info) (ws : world * tracker) : world * tracker :=
  let '(w, tk) := ws in
  let filename := pi_filename info in
  let '(completed_files, completed_files_list, downloaded_bytes) :=
    if String.eqb (pi_status info) "complete" || String.eqb (pi_status info) "skipped"
    then
      let completed_files := completed_files tk + 1 in
      if str_nonempty filename && negb (name_in filename (completed_files_list tk))
      then (completed_files,
            (completed_files_list tk ++ [filename])%list,
            downloaded_bytes tk + size_of file_sizes filename)
      else (completed_files, completed_files_list tk, downloaded_bytes tk)
    else if String.eqb (pi_status info) "active" then
      let temp_downloaded_bytes :=
        fold_left Z.add (map (size_of file_sizes) (completed_files_list tk)) 0 in
      (completed_files tk, completed_files_list tk,
       temp_downloaded_bytes + pi_completed_length info)
    else (completed_files tk, completed_files_list tk, downloaded_bytes tk) in
  let current_file :=
    if str_nonempty filename then filename else current_file tk in
  let progress_percent :=
    overall_progress total_bytes total_files downloaded_bytes completed_files in
  let '(pm, w) :=
    update_download_progress (tk_pm tk) w task_id wi progress_percent
      (pi_download_speed info) completed_files total_files current_file
      completed_files_list downloaded_bytes total_bytes in
  (w, {| tk_pm := pm; completed_files := completed_files;
         current_file := current_file;
         completed_files_list := completed_files_list;
         downloaded_bytes := downloaded_bytes |}).

(** What the process environment and the API server give to one job. *)
Record upstream : Type := {
  (** [self.results_dir.mkdir(exist_ok=True)]: the text of the exception
      it raises, if it does *)
  results_dir_mkdir : option string;
  (** the environment variables of the process *)
  os_environ : environ;
  (** the login call; the body carries the [token] key or lacks it.  (An
      exception of [config.ensure_download_path()], which is called just
      before, takes the course of a login that raises.) *)
  login : http_json (option string);
  (** the work call and the tracks call *)
  work : http_json work_info;
  tracks_of_work : http_json (list track);
  (** [CALLBACK_BASE_URL] and [PLUGIN_NAME_FOR_CALLBACK], and what the post
      of the result does: [None] when it is delivered, or the text of the
      exception with [true] when it is a [RequestException] *)
  callback_base_url : option string;
  plugin_name_for_callback : option string;
  post_raises : option (bool * string)
}.

(** [config.validate()] *)
Definition validate (config : ASMRConfig) : bool :=
  str_nonempty (username config) && str_nonempty (password config).

(** The part of the [try] block of [perform_download_sync] that follows the
    tracks call: everything is at hand and, the file system obeying (see
    [download_single_file]), nothing raises any more. *)
Definition download_phase (config : ASMRConfig) (pm : ProgressManager)
  (task_id work_id target_path : string) (wi : work_info) (tracks : list track)
  (w : world) : job_result * world :=
  let all_files := selected_files tracks target_path in
  let total_files := Z.of_nat (length all_files) in
  let file_structure := _build_file_structure tracks EmptyString in
  let '(pm, w) := update_preparing pm task_id wi total_files file_structure w in
  let '(file_sizes, total_bytes) := size_table file_structure all_files in
  let tk := {| tk_pm := pm; completed_files := 0; current_file := EmptyString;
               completed_files_list := []; downloaded_bytes := 0 |} in
  let '(dr, (w, _)) :=
    download_tracks
      (Some (progress_callback task_id wi file_sizes total_bytes total_files))
      config tracks wi target_path (w, tk) in
  if (0 <? success_count dr)%Z then
    let w := update_success task_id wi dr w in
    ({| r_requestId := task_id; r_status := "Succeed"; r_reason := None;
        r_totalTracks := Some (total_tracks dr);
        r_successCount := Some (success_count dr);
        r_failedCount := Some (failed_count dr);
        r_completedFiles := Some (completed_downloads dr);
        r_failedFiles := Some (failed_downloads dr) |}, w)
  else
    let w := update_failed task_id "All downloads failed" (Some wi) w in
    (failed_result task_id "All downloads failed" (Some (failed_downloads dr)), w).

(** The [try] block once the progress manager exists and [Starting] is
    written: [inl] is an exception that reaches the [except] clause. *)
Definition after_starting (up : upstream) (config : ASMRConfig)
  (pm : ProgressManager) (task_id work_id target_path : string) (w : world)
  : (string + job_result) * world :=
  if negb (validate config) then
    let why := "Invalid configuration: username and password are required" in
    (inr (failed_result task_id why None), update_failed task_id why None w)
  else
    match login up with
    | ApiRaises e => (inl e, w)
    | ApiAnswers code body =>
        if negb (code =? 200)%Z then
          let why := "Login failed: " ++ PyStr.str_of_Z code in
          (inr (failed_result task_id why None), update_failed task_id why None w)
        else
          match body with
          | inl e => (inl e, w)
          | inr None => (inl "'token'", w)
          | inr (Some token) =>
              match work up with
              | ApiRaises e => (inl e, w)
              | ApiAnswers code body =>
                  if negb (code =? 200)%Z then
                    let why := "Work not found: " ++ work_id in
                    (inr (failed_result task_id why None),
                     update_failed task_id why None w)
                  else
                    match body with
                    | inl e => (inl e, w)
                    | inr wi =>
                        match tracks_of_work up with
                        | ApiRaises e => (inl e, w)
                        | ApiAnswers code body =>
                            if negb (code =? 200)%Z then
                              let why := "No tracks found for this work" in
                              (inr (failed_result task_id why None),
                               update_failed task_id why (Some wi) w)
                            else
                              match body with
                              | inl e => (inl e, w)
                              | inr tracks =>
                                  let '(r, w) :=
                                    download_phase config pm task_id work_id
                                      target_path wi tracks w in
                                  (inr r, w)
                              end
                        end
                    end
              end
          end
    end.

Definition perform_download_sync (up : upstream)
  (task_id work_id quality target_path : string) (w : world)
  : job_result * world :=
  (* progress_manager = None; ProgressManager(plugin_dir) *)
  match (match results_dir_mkdir up with
         | Some e => inl e
         | None => from_env (os_environ up)
         end) with
  | inl e =>
      (* except clause with progress_manager still None *)
      (failed_result task_id e None, w)
  | inr config =>
      let pm := ProgressManager_init config in
      let '(pm, w) := update_starting pm task_id work_id w in
      match after_starting up config pm task_id work_id target_path w with
      | (inr result, w) => (result, w)
      | (inl e, w) =>
          (failed_result task_id e None, update_failed task_id e None w)
      end
  end.

(** [background_download_task]: the body of the thread.  It runs the job,
    then posts the result when both callback settings are non-empty.  A
    [RequestException] of the post is logged; any other exception reaches the
    outer [except], which posts an error result and swallows what that post
    raises. *)
Definition background_download_task (up : upstream)
  (task_id work_id quality target_path : string) (w : world) : world :=
  let '(result, w) := perform_download_sync up task_id work_id quality target_path w in
  match callback_base_url up, plugin_name_for_callback up with
  | Some base, Some plugin_name =>
      if str_nonempty base && str_nonempty plugin_name then
        let callback_url := base ++ "/" ++ plugin_name ++ "/" ++ task_id in
        let w := post_callback callback_url result w in
        match post_raises up with
        | None => w
        | Some (true, _) => w
        | Some (false, e) =>
            post_callback callback_url (failed_result task_id e None) w
        end
      else w
  | _, _ => w
  end.

(** ** The dispatchers *)

Definition nl : string := String "010"%char EmptyString.

(** What a dispatcher prints on standard output. *)
Inductive ack_result : Type :=
| ResultText (text : string)
| ResultObject (message taskId placeholder : string).

Record response : Type := {
  resp_status : string;
  resp_error : option string;
  resp_result : option ack_result;
  resp_messageForAI : option string
}.

Definition error_response (e : string) : response :=
  {| resp_status := "error"; resp_error := Some e; resp_result := None;
     resp_messageForAI := None |}.

(** The arguments of the background thread a dispatcher starts. *)
Record launch : Type := {
  l_task_id : string;
  l_target : string;
  l_quality : string;
  l_target_path : string
}.

Module ASMRTools.

(** The request JSON: the keys [handle_async_download] reads. *)
Record request : Type := {
  work_id : option string;
  target_path : option string
}.

(** The literal of the f-string [{{{{VCP_ASYNC_RESULT::ASMRTools::{task_id}}}}}] *)
Definition placeholder (task_id : string) : string :=
  "{{VCP_ASYNC_RESULT::ASMRTools::" ++ task_id ++ "}}".

(** [handle_async_download]; [task_id] is the value of [str(uuid.uuid4())].
    The result is the first object printed and the thread started, if any. *)
Definition handle_async_download (request_data : request) (task_id : string)
  : response * option launch :=
  let work_id := default EmptyString (work_id request_data) in
  if negb (str_nonempty work_id) then
    (error_response "Work ID is required for download", None)
  else
    let target_path := default EmptyString (target_path request_data) in
    let quality := "best" in
    let download_scope :=
      if negb (str_nonempty target_path) then "全部内容"
      else "指定路径: " ++ target_path in
    let initial_response :=
      {| resp_status := "success";
         resp_error := None;
         resp_result := Some (ResultText (
           "ASMR作品下载任务已提交 (ID: " ++ task_id ++ ")" ++ nl ++
           "作品ID: " ++ work_id ++ nl ++
           "下载范围: " ++ download_scope ++ nl ++
           "音质: 自动选择最佳音质" ++ nl ++
           "任务正在后台处理中，请耐心等待..." ++ nl ++
           "请在你的回复中包含以下占位符原文：" ++ placeholder task_id));
         resp_messageForAI := Some (
           "ASMR下载任务已提交，任务ID为 " ++ task_id ++
           "。请告知用户耐心等待，下载结果将通过通知推送。") |} in
    (initial_response,
     Some {| l_task_id := task_id; l_target := work_id; l_quality := quality;
             l_target_path := target_path |}).

End ASMRTools.

Module MissAVCrawl.

Record request : Type := {
  url : option string;
  quality : option string;
  download_dir : option string;
  downloader : option string
}.

Definition placeholder (task_id : string) : string :=
  "{{VCP_ASYNC_RESULT::MissAVCrawl::" ++ task_id ++ "}}".

(** [handle_async_download]; [task_id] is [str(uuid.uuid4())] and
    [fetched_title] the title the pre-fetch obtained, if it did not raise. *)
Definition handle_async_download (request_data : request) (task_id : string)
  (fetched_title : option string) : response * option launch :=
  match url request_data with
  | None => (error_response "Missing url parameter.", None)
  | Some u =>
      if negb (str_nonempty u) then
        (error_response "Missing url parameter.", None)
      else
        let video_title := default "未知视频" fetched_title in
        let initial_response :=
          {| resp_status := "success";
             resp_error := None;
             resp_result := Some (ResultObject
               ("已开始在后台下载视频 '" ++ video_title ++ "'。任务ID: " ++ task_id ++
                "。你可以使用占位符 `" ++ placeholder task_id ++
                "` 来跟踪此任务的进度。")
               task_id
               (placeholder task_id));
             resp_messageForAI := None |} in
        (initial_response,
         Some {| l_task_id := task_id; l_target := u;
                 l_quality := default EmptyString (quality request_data);
                 l_target_path := default EmptyString (download_dir request_data) |})
  end.

End MissAVCrawl.

(** ** config.py: the environment file *)

(** [s.split(sep, 1)] for a one-character separator: the text before the
    first separator and the text after it, or the string alone. *)
Fixpoint split_once (sep : ascii) (s : string) : list string :=
  match s with
  | EmptyString => [EmptyString]
  | String a s' =>
      if Ascii.eqb a sep then [EmptyString; s']
      else match split_once sep s' with
           | h :: t => String a h :: t
           | [] => [String a EmptyString]
           end
  end.

Section EnvFile.

(** Two builtins of the interpreter are taken as given: [str.strip()], which
    removes the white space of Unicode at both ends, and the check of
    [os.environ[key] = value], which refuses some keys and values (an empty
    key, a NUL character; the list depends on the platform) with an exception
    whose text it gives. *)
Variable py_strip : string -> string.
Variable putenv_error : string -> string -> option string.

(** [os.environ[key] = value] *)
Definition environ_setitem (key value : string) (os_environ : gmap string string)
  : string + gmap string string :=
  match putenv_error key value with
  | Some e => inl e
  | None => inr (<[key := value]> os_environ)
  end.

(** One turn of the loop of [load_env_file]: the environment afterwards, or
    the text of the exception that ends the loop. *)
Definition load_env_line (os_environ : gmap string string) (line : string)
  : string + gmap string string :=
  let line := py_strip line in
  if str_nonempty line && negb (PyStr.startswith "#" line)
     && PyStr.has_char "="%char line
  then
    match split_once "="%char line with
    | [key; value] =>
        let key := py_strip key in
        let value := py_strip value in
        match os_environ !! key with
        | None => environ_setitem key value os_environ
        | Some _ => inr os_environ
        end
    | _ => inl "not enough values to unpack (expected 2, got 1)"
    end
  else inr os_environ.

Fixpoint load_env_lines (lines : list string) (os_environ : gmap string string)
  : string + gmap string string :=
  match lines with
  | [] => inr os_environ
  | line :: rest =>
      match load_env_line os_environ line with
      | inl e => inl e
      | inr os_environ => load_env_lines rest os_environ
      end
  end.

(** [load_env_file(env_file_path)]: the file is absent ([None]) or holds the
    given lines. *)
Definition load_env_file (env_file : option (list string))
  (os_environ : gmap string string) : string + gmap string string :=
  match env_file with
  | None => inr os_environ
  | Some lines => load_env_lines lines os_environ
  end.

End EnvFile.

(** ** asmr_api.py: requests with retries *)

(** The API server as one session sees it: what the n-th request does, the
    requests made so far and the seconds slept so far.  The body of an answer
    is what [resp.json()] returns ([None] for the JSON null) or the exception
    it raises. *)
Record api_session (A : Type) : Type := {
  api_answers : nat -> http_json (option A);
  api_calls : nat;
  api_slept : Z
}.
Arguments api_answers {A} _ _.
Arguments api_calls {A} _.
Arguments api_slept {A} _.

Definition api_call {A} (s : api_session A) : api_session A :=
  {| api_answers := api_answers s; api_calls := S (api_calls s);
     api_slept := api_slept s |}.

(** [await asyncio.sleep(seconds)] *)
Definition api_sleep {A} (seconds : Z) (s : api_session A) : api_session A :=
  {| api_answers := api_answers s; api_calls := api_calls s;
     api_slept := api_slept s + seconds |}.

(** The loop [while retry <= max_retry] of [ASMRAPIClient.get] (and, word for
    word, of [post]); [turns] bounds the turns of the loop. *)
Fixpoint get_loop {A} (turns : nat) (max_retry retry : Z) (s : api_session A)
  : option A * api_session A :=
  match turns with
  | O => (None, s)
  | S turns =>
      if (retry <=? max_retry)%Z then
        let on_exception (s : api_session A) :=
          if (max_retry <=? retry)%Z then (None, s)
          else get_loop turns max_retry (retry + 1) (api_sleep 2 s) in
        match api_answers s (api_calls s) with
        | ApiRaises _ => on_exception (api_call s)
        | ApiAnswers status_code body =>
            if (status_code =? 200)%Z then
              match body with
              | inr json => (json, api_call s)
              | inl _ => on_exception (api_call s)
              end
            else (None, api_call s)
        end
      else (None, s)
  end.

(** [await client.get(route, params, max_retry)]: [retry] runs from 0 to
    [max_retry], so [max_retry + 1] turns are enough. *)
Definition get {A} (max_retry : Z) (s : api_session A) : option A * api_session A :=
  get_loop (Z.to_nat (max_retry + 1)) max_retry 0 s.

(** * Notions used in the statements *)

(** ** Manifests *)

(** The leaf files of a manifest: every node that is not a folder, at any
    depth. *)
Fixpoint leaf_files_of (t : track) : nat :=
  match t with
  | Track ty _ children _ _ =>
      if is_folder ty then list_sum (map leaf_files_of children) else 1%nat
  end.

Definition leaf_files (tracks : list track) : nat :=
  list_sum (map leaf_files_of tracks).

(** A sanitised path segment: not empty, free of the nine illegal characters,
    and with no dot or blank left to trim at either end. *)
Definition clean_segment (seg : string) : Prop :=
  seg <> EmptyString /\
  PyStr.every (fun a => negb (is_illegal a)) seg = true /\
  PyStr.strip dot_or_space seg = seg.

(** The segments of an item's relative path. *)
Definition segments (fi : file_info) : list string :=
  PyStr.split slash (full_path fi).

(** The last character, if there is one, is outside [P]. *)
Fixpoint last_clear (P : ascii -> bool) (s : string) : Prop :=
  match s with
  | EmptyString => True
  | String a EmptyString => P a = false
  | String _ s' => last_clear P s'
  end.

(** The name of a title, in the words of the specification, in three steps.
    First, [r] is [s] with every illegal character replaced by an underscore
    and every other character left in its place. *)
Definition replaces_illegal (s r : string) : Prop :=
  String.length r = String.length s /\
  forall n a, String.get n s = Some a ->
              String.get n r = Some (if is_illegal a then "_"%char else a).

(** Then, [t] is [r] with its leading and trailing dots and blanks trimmed:
    what is cut off at either end consists of dots and blanks, and what is
    left neither starts nor ends with one. *)
Definition trims (r t : string) : Prop :=
  exists pre post,
    r = pre ++ t ++ post /\
    PyStr.every dot_or_space pre = true /\ PyStr.every dot_or_space post = true /\
    PyStr.head_clear dot_or_space t /\ last_clear dot_or_space t.

(** Last, an empty name is replaced with the fallback name. *)
Definition sanitised_as (title name : string) : Prop :=
  exists r t,
    replaces_illegal title r /\ trims r t /\
    name = if str_nonempty t then t else "unnamed_file".

(** A folder path handed down by the flattening: the empty path of the root,
    or a path whose segments are all clean. *)
Definition clean_path (p : string) : Prop :=
  p = EmptyString \/ Forall clean_segment (PyStr.split slash p).

(** ** Path scopes *)

(** [rel] lies under the folder [scope]. *)
Definition nested_under (scope rel : string) : Prop :=
  exists rest, rel = scope ++ "/" ++ rest.

(** The immediate parent directory of [rel] is [scope]: [rel] is [scope], a
    slash and a name without a slash. *)
Definition parent_is (scope rel : string) : Prop :=
  exists name, PyStr.has_char slash name = false /\ rel = scope ++ "/" ++ name.

(** The items a scope keeps, in the words of the specification; the scope is
    normalised by stripping its surrounding slashes. *)
Definition scope_keeps (scope rel : string) : Prop :=
  let scope := strip_slashes scope in
  scope = EmptyString \/ rel = scope \/ nested_under scope rel \/ parent_is scope rel.

(** The full relative path of an item, free of surrounding slashes. *)
Definition relative_path (fi : file_info) : string :=
  strip_slashes (full_path fi).

(** ** Sizes by bare file name *)

(** The declared sizes of the files called [filename] in a file-structure
    tree, in depth-first order (a folder's content before what follows the
    folder). *)
Fixpoint node_matches (filename key : string) (value : node) : list Z :=
  match value with
  | NFile size _ => if String.eqb key filename then [size] else []
  | NFolder children _ =>
      flat_map (fun kv => node_matches filename (fst kv) (snd kv)) children
  end.

Definition dfs_matches (filename : string) (structure : list (string * node))
  : list Z :=
  flat_map (fun kv => node_matches filename (fst kv) (snd kv)) structure.

(** The sum of the looked-up sizes of a list of files. *)
Definition looked_up_total (file_structure : list (string * node))
  (all_files : list file_info) : Z :=
  fold_left Z.add
    (map (fun fi => get_file_size_from_structure file_structure (fi_filename fi))
       all_files) 0.

(** The completion events of the downloader. *)
Definition is_completion (info : progress_info) : bool :=
  String.eqb (pi_status info) "complete" || String.eqb (pi_status info) "skipped".

(** ** Persisted snapshots *)

(** The snapshots written between two worlds. *)
Definition writes_since (w w' : world) (l : list snapshot) : Prop :=
  w_writes w' = (w_writes w ++ l)%list.

(** A call persisted one [Downloading] snapshot of the job with the given
    progress value. *)
Definition persisted (w w' : world) (task_id : string) (p : float) : Prop :=
  exists snap,
    writes_since w w' [snap] /\ requestId snap = task_id /\
    status snap = "Downloading" /\ progress snap = Some p.

(** The configured interval has elapsed since [last_update_time]: the
    difference of the two readings, as a float, is at least the interval. *)
Definition interval_elapsed (pm : ProgressManager) (t : float) : Prop :=
  float_ge_int (t - last_update_time pm)%float (update_interval pm) = true.

(** The update is forced: there is no reference progress yet (the first
    [Downloading] update of the manager), or the progress is more than one
    point away from the reference [_last_progress], the difference being the
    float one. *)
Definition forced (pm : ProgressManager) (p : float) : Prop :=
  match _last_progress pm with
  | None => True
  | Some reference => (1 <? abs (p - reference))%float = true
  end.

(** The history once a sample is appended and the list cut to 15 entries. *)
Definition history_with (history : list sample) (s : sample) : list sample :=
  let h := (history ++ [s])%list in
  if (15 <? length h)%nat then last_n 15 h else h.

(** The throttle in the words of the specification: an update is persisted
    when it is the first [Downloading] snapshot, or the interval has elapsed
    since the last persisted snapshot, or the progress is more than one point
    away from the last persisted value.  [log] holds the snapshots persisted
    so far. *)
Definition claimed_persist (interval : Z) (log : list snapshot) (t p : float)
  : bool :=
  match last log with
  | None => true
  | Some s =>
      negb (existsb (fun s => String.eqb (status s) "Downloading") log)
      || float_ge_int (t - timestamp s)%float interval
      || (1 <? abs (p - default 0%float (progress s)))%float
  end.

(** ** States of the estimator *)

(** The manager on which [update_download_progress] calls [_calculate_eta]:
    the completed list is taken over, the sample recorded and the reference
    progress moved. *)
Definition entering_eta (pm : ProgressManager) (t p : float) (cfl : list string)
  (cf db tb : Z) : ProgressManager :=
  let pm0 := match cfl with [] => pm | _ => set_completed_files_list cfl pm end in
  (should_update_file (record_sample (Sample (exact t) (exact p) cf db tb) pm0) t p).2.

(** The managers a program obtains: a fresh one, and what the methods that
    change a manager return. *)
Inductive pm_reachable : ProgressManager -> Prop :=
| reach_init config : pm_reachable (ProgressManager_init config)
| reach_starting pm task_id work_id w :
    pm_reachable pm -> pm_reachable (update_starting pm task_id work_id w).1
| reach_preparing pm task_id wi total fs w :
    pm_reachable pm -> pm_reachable (update_preparing pm task_id wi total fs w).1
| reach_download pm w task_id wi p speed cf tf cur cfl db tb :
    pm_reachable pm ->
    pm_reachable
      (update_download_progress pm w task_id wi p speed cf tf cur cfl db tb).1.

(** No estimate has been made since the manager was created or restarted. *)
Definition no_estimate_yet (pm : ProgressManager) : Prop :=
  _last_eta_seconds pm = None \/ _last_eta_seconds pm = Some 0.

(** ** Re-runs *)

(** The event [download_single_file] hands to the callback when it skips a
    file that is already there. *)
Definition skipped_event (fs : gmap string Z) (download_dir : string)
  (fi : file_info) : progress_info :=
  let st_size := default 0 (fs !! full_file_path download_dir fi) in
  {| pi_filename := fi_filename fi; pi_status := "skipped";
     pi_completed_length := st_size; pi_total_length := st_size;
     pi_download_speed := 0; pi_progress_percent := 100%float |}.

(** A callback that leaves the files and the network alone. *)
Definition keeps_files {State : Type}
  (cb : option (progress_info -> world * State -> world * State)) : Prop :=
  forall info ws,
    let w' := (call_back cb info ws).1 in
    w_fs w' = w_fs ws.1 /\ w_requests w' = w_requests ws.1 /\
    w_received w' = w_received ws.1.

(** Every selected item has its file in place, with a size above zero. *)
Definition fully_populated (fs : gmap string Z) (download_dir : string)
  (files : list file_info) : Prop :=
  forall fi, In fi files ->
             exists_nonempty fs (full_file_path download_dir fi) = true.

(** Every selected item carries a download URL. *)
Definition all_have_url (files : list file_info) : Prop :=
  forall fi, In fi files -> fi_mediaDownloadUrl fi <> EmptyString.

(** ** Jobs *)

(** The writes between two worlds all satisfy [P]. *)
Definition extends (P : snapshot -> Prop) (w w' : world) : Prop :=
  exists l, writes_since w w' l /\ Forall P l.

(** A [Downloading] snapshot of the job: its progress is the ratio computed
    from its own byte counters (or file counters when no size is known). *)
Definition downloading_snapshot (task_id : string) (total_bytes total_files : Z)
  (s : snapshot) : Prop :=
  requestId s = task_id /\ status s = "Downloading" /\
  exists db cf,
    downloadedBytes s = Some db /\ totalBytes s = Some total_bytes /\
    completedFiles s = Some cf /\ totalFiles s = Some total_files /\
    progress s = Some (overall_progress total_bytes total_files db cf).

(** The snapshots a job writes before its terminal one. *)
Definition interim_snapshot (task_id : string) (s : snapshot) : Prop :=
  requestId s = task_id /\
  (status s = "Starting" \/ status s = "Preparing" \/ status s = "Downloading").

(** The terminal snapshots, with the status strings of the code. *)
Definition terminal_snapshot (task_id : string) (s : snapshot) : Prop :=
  requestId s = task_id /\ (status s = "Succeed" \/ status s = "Failed").

(** The terminal snapshots, with the status strings of the specification. *)
Definition claimed_terminal (s : snapshot) : Prop :=
  status s = "Succeeded" \/ status s = "Failed".

(** [ProgressManager(plugin_dir)] returns a manager: the results directory
    can be made and the configuration read. *)
Definition manager_built (up : upstream) : bool :=
  match results_dir_mkdir up, from_env (os_environ up) with
  | None, inr _ => true
  | _, _ => false
  end.

(** A sequence of progress values that never decreases. *)
Fixpoint nondecreasing (l : list float) : bool :=
  match l with
  | a :: (b :: _) as rest => (a <=? b)%float && nondecreasing rest
  | _ => true
  end.

(** The progress values carried by a list of snapshots. *)
Definition progress_values (log : list snapshot) : list float :=
  omap progress log.

(** A callback all of whose writes satisfy [P]. *)
Definition callback_extends {State : Type} (P : snapshot -> Prop)
  (cb : option (progress_info -> world * State -> world * State)) : Prop :=
  forall info ws, extends P ws.1 (call_back cb info ws).1.

(** ** Manifests without negative sizes *)

(** The manifest the server gives to the job: the body of the tracks call. *)
Definition manifest (up : upstream) : list track :=
  match tracks_of_work up with
  | ApiAnswers _ (inr tracks) => tracks
  | _ => []
  end.

(** No file of the track, at any depth, declares a negative size. *)
Fixpoint declares_sizes (t : track) : bool :=
  match t with
  | Track ty _ children _ size =>
      if is_folder ty then forallb declares_sizes children
      else (0 <=? default 0 size)%Z
  end.

(** No file of the node, at any depth, has a negative size. *)
Fixpoint sized (value : node) : bool :=
  match value with
  | NFile size _ => (0 <=? size)%Z
  | NFolder children _ => forallb (fun kv => sized (snd kv)) children
  end.

(** A float that is neither negative nor a NaN; the zero of either sign
    counts, as it compares equal to [0.0]. *)
Definition sf_nonneg (x : spec_float) : Prop :=
  match x with
  | S754_zero _ => True
  | S754_infinity s | S754_finite s _ _ => s = false
  | S754_nan => False
  end.

(** A snapshot whose progress is not below the [0.0] of [Starting]. *)
Definition from_zero (s : snapshot) : Prop :=
  exists v, progress s = Some v /\ (0 <=? v)%float = true.

(** The counters of the callback are not negative. *)
Definition counters_sound (tk : tracker) : Prop :=
  0 <= completed_files tk /\ 0 <= downloaded_bytes tk.

(** A callback that, called in a state of [I] with a byte count that is not
    negative, writes snapshots of [P] only and leaves a state of [I]. *)
Definition callback_keeps {State : Type} (I : State -> Prop) (P : snapshot -> Prop)
  (cb : option (progress_info -> world * State -> world * State)) : Prop :=
  forall info ws,
    0 <= pi_completed_length info -> I ws.2 ->
    extends P ws.1 (call_back cb info ws).1 /\ I (call_back cb info ws).2.

(** ** Outcomes of the items *)






(** ** Acknowledgements *)

(** [tok] occurs in [s]. *)
Definition is_substring (tok s : string) : Prop :=
  exists pre post, s = pre ++ tok ++ post.

(** The placeholder token as the specification spells it. *)
Definition claimed_token (plugin task_id : string) : string :=
  "{{ASYNC_RESULT::" ++ plugin ++ "::" ++ task_id ++ "}}".

(** ** File counts of a structure tree *)

(** The files of a node and of a structure, at any depth. *)
Fixpoint files_below (value : node) : Z :=
  match value with
  | NFile _ _ => 1
  | NFolder children _ =>
      fold_right Z.add 0 (map (fun kv => files_below (snd kv)) children)
  end.

Definition files_in (structure : list (string * node)) : Z :=
  fold_right Z.add 0 (map (fun kv => files_below (snd kv)) structure).

(** The names of one level are pairwise different. *)
Fixpoint distinct_names (names : list string) : bool :=
  match names with
  | [] => true
  | n :: rest => negb (existsb (String.eqb n) rest) && distinct_names rest
  end.

(** Every folder of the node, at any depth, holds pairwise different names
    and a [file_count] that is the number of files below it. *)
Fixpoint counted (value : node) : bool :=
  match value with
  | NFile _ _ => true
  | NFolder children file_count =>
      (file_count =? fold_right Z.add 0 (map (fun kv => files_below (snd kv)) children))
      && distinct_names (map fst children)
      && forallb (fun kv => counted (snd kv)) children
  end.

(** What [_count_files_in_structure] adds for one entry. *)
Definition entry_weight (value : node) : Z :=
  match value with
  | NFile _ _ => 1
  | NFolder _ file_count => file_count
  end.

(** A level of pairwise different names whose entries are all [counted]. *)
Definition well_counted (structure : list (string * node)) : Prop :=
  distinct_names (map fst structure) = true /\
  forallb (fun kv => counted (snd kv)) structure = true.

(** ** Fetches *)

(** The bytes a sequence of chunks delivers: an empty chunk is skipped. *)
Definition bytes_of (chunks : list Z) : Z :=
  fold_right Z.add 0 (map (Z.max 0) chunks).

(** ** The counters of the callback *)

(** The declared sizes of the names on the completed list, added up. *)
Definition completed_bytes (file_sizes : gmap string Z) (names : list string) : Z :=
  fold_left Z.add (map (size_of file_sizes) names) 0.

(** The completed list holds no name twice and no empty name, and it is not
    longer than the count of completion events. *)
Definition tracker_consistent (tk : tracker) : Prop :=
  NoDup (completed_files_list tk) /\
  Forall (fun name => name <> EmptyString) (completed_files_list tk) /\
  Z.of_nat (length (completed_files_list tk)) <= completed_files tk.

(** An event of the downloader for a file, with the given status and byte
    count. *)
Definition event (filename st : string) (completed_length : Z) : progress_info :=
  {| pi_filename := filename; pi_status := st;
     pi_completed_length := completed_length; pi_total_length := completed_length;
     pi_download_speed := 0; pi_progress_percent := 100%float |}.

(** ** Results and callback posts *)

(** The last snapshot of a job and the result the job returns tell the same
    story: the same job, the same status, the same reason. *)
Definition agrees (task_id : string) (res : job_result) (term : snapshot) : Prop :=
  requestId term = task_id /\ r_requestId res = task_id /\
  status term = r_status res /\ reason term = r_reason res.

(** A callback that posts nothing. *)
Definition keeps_posts {State : Type}
  (cb : option (progress_info -> world * State -> world * State)) : Prop :=
  forall info ws, w_posts (call_back cb info ws).1 = w_posts ws.1.

(** The address the thread posts to, when both callback settings are there
    and not empty. *)
Definition callback_url_of (up : upstream) (task_id : string) : option string :=
  match callback_base_url up, plugin_name_for_callback up with
  | Some base, Some plugin_name =>
      if str_nonempty base && str_nonempty plugin_name
      then Some (base ++ "/" ++ plugin_name ++ "/" ++ task_id)
      else None
  | _, _ => None
  end.

(** ** The environment file *)

(** The variable and the value a line of [config.env] assigns; a blank line,
    a comment and a line without an equals sign assign nothing. *)
Definition assignment (py_strip : string -> string) (line : string)
  : option (string * string) :=
  let line := py_strip line in
  if str_nonempty line && negb (PyStr.startswith "#" line) then
    match split_once "="%char line with
    | [key; value] => Some (py_strip key, py_strip value)
    | _ => None
    end
  else None.

(** ** Requests with retries *)

(** An attempt that the loop of [get] takes for an exception: the request
    raised, or it was answered with status 200 and a body that does not
    parse. *)
Definition exceptional {A} (a : http_json (option A)) : bool :=
  match a with
  | ApiRaises _ => true
  | ApiAnswers status_code (inl _) => (status_code =? 200)%Z
  | ApiAnswers _ (inr _) => false
  end.

(** What [get] returns for an attempt it does not retry. *)
Definition answer_of {A} (a : http_json (option A)) : option A :=
  match a with
  | ApiAnswers status_code (inr json) =>
      if (status_code =? 200)%Z then json else None
  | _ => None
  end.

(** ** Chains of titles *)

(** The titles from the root of a manifest down to each of its leaf files,
    in depth-first order, with the defaults the downloader reads for a missing
    title. *)
Fixpoint leaf_chains (t : track) : list (list string) :=
  match t with
  | Track ty title children _ _ =>
      if is_folder ty
      then map (cons (default "Unknown Folder" title)) (flat_map leaf_chains children)
      else [[default "Unknown File" title]]
  end.

(** The segments of a folder path; the root has none. *)
Definition path_segments (base_path : string) : list string :=
  if str_nonempty base_path then PyStr.split slash base_path else [].

(** ** Paths *)

(** A part of a path: not empty, not [.], and without a slash. *)
Definition path_part (piece : string) : Prop :=
  is_part piece = true /\ PyStr.has_char slash piece = false.

(** The paths [Path] and [/] build: one of the three roots, over parts. *)
Definition path_shaped (p : posix_path) : Prop :=
  (pp_root p = EmptyString \/ pp_root p = "/" \/ pp_root p = "//") /\
  Forall path_part (pp_parts p).

(** The path of an item under a directory: the parts of the directory
    followed by the segments of the item's relative path. *)
Definition item_path (dir : posix_path) (fi : file_info) : string :=
  path_str {| pp_root := pp_root dir;
              pp_parts := (pp_parts dir ++ segments fi)%list |}.

(** * Concrete runs *)

(** A world with the given clock readings (0 once they are used up), no file,
    a file server that refuses every request and no progress file. *)
Definition quiet_world (clock : list float) : world :=
  {| w_now := fun n => nth n clock 0%float; w_tick := 0%nat; w_fs := ∅;
     w_fetch := fun _ => GetRaises; w_requests := []; w_received := 0;
     w_writes := []; w_posts := [] |}.

Definition plain_config : ASMRConfig :=
  {| username := "user"; password := "secret"; download_path := "/data";
     api_channel := None; progress_update_interval := 30 |}.

Definition plain_work : work_info :=
  {| wi_title := Some "Title"; wi_source_id := Some "RJ123456" |}.

(** A manager restarted by [update_starting] that has taken one sample: at
    time 0, 0 of 1000 bytes. *)
Definition one_sample_pm : ProgressManager :=
  (update_download_progress
     (update_starting (ProgressManager_init plain_config) "job" "RJ123456"
        (quiet_world [])).1
     (quiet_world [0%float]) "job" plain_work 0%float 0 0 1 "a.mp3" [] 0 1000).1.

(** Three [Downloading] updates of a fresh manager, at 1000 s, 1031 s and
    1034 s, with progress 10, 10.75 and 11.5 (1000, 1075 and 1150 of 10000
    bytes). *)
Definition three_updates_clock : list float :=
  [1000%float; 1000%float; 1031%float; 1031%float; 1034%float; 1034%float].

Definition after_update_1 : ProgressManager * world :=
  update_download_progress (ProgressManager_init plain_config)
    (quiet_world three_updates_clock) "job" plain_work
    (overall_progress 10000 1 1000 0) 0 0 1 "a.mp3" [] 1000 10000.

Definition after_update_2 : ProgressManager * world :=
  update_download_progress after_update_1.1 after_update_1.2
    "job" plain_work (overall_progress 10000 1 1075 0) 0 0 1 "a.mp3" [] 1075 10000.

Definition after_update_3 : ProgressManager * world :=
  update_download_progress after_update_2.1 after_update_2.2
    "job" plain_work (overall_progress 10000 1 1150 0) 0 0 1 "a.mp3" [] 1150 10000.

Definition asmr_request : ASMRTools.request :=
  {| ASMRTools.work_id := Some "RJ123456"; ASMRTools.target_path := None |}.

Definition missav_request : MissAVCrawl.request :=
  {| MissAVCrawl.url := Some "https://missav.example/v/abc-123";
     MissAVCrawl.quality := None; MissAVCrawl.download_dir := None;
     MissAVCrawl.downloader := None |}.

(** A manifest of one file that carries no download URL, and a destination
    directory in which that file is already present with 100 bytes. *)
Definition no_url_manifest : list track :=
  [Track (Some "audio") (Some "a.mp3") [] None (Some 100)].

Definition populated_world : world :=
  {| w_now := fun _ => 0%float; w_tick := 0%nat;
     w_fs := {[ "/data/asmr/RJ123456 - Title/a.mp3" := 100 ]};
     w_fetch := fun _ => GetRaises; w_requests := []; w_received := 0;
     w_writes := []; w_posts := [] |}.

(** The same file with a URL. *)
Definition one_file_manifest : list track :=
  [Track (Some "audio") (Some "a.mp3") [] (Some "https://files.example/a.mp3")
     (Some 100)].

(** A job that finds both files of its manifest on disk: [a.mp3] of 10 bytes
    and [b.mp3] of 990 bytes.  The API answers every call, and the clock
    advances by ten seconds per reading. *)
Definition two_file_manifest : list track :=
  [Track (Some "audio") (Some "a.mp3") [] (Some "https://files.example/a.mp3")
     (Some 10);
   Track (Some "audio") (Some "b.mp3") [] (Some "https://files.example/b.mp3")
     (Some 990)].

Definition plain_environ : environ :=
  {| ASMR_USERNAME := Some "user"; ASMR_PASSWORD := Some "secret";
     ASMR_DOWNLOAD_PATH := Some "/data"; ASMR_API_CHANNEL := None;
     ARIA2_PORT := None; ASMR_PROGRESS_UPDATE_INTERVAL := None |}.

Definition answering_upstream : upstream :=
  {| results_dir_mkdir := None;
     os_environ := plain_environ;
     login := ApiAnswers 200 (inr (Some "token"));
     work := ApiAnswers 200 (inr plain_work);
     tracks_of_work := ApiAnswers 200 (inr two_file_manifest);
     callback_base_url := Some "http://localhost:6005/plugin-callback";
     plugin_name_for_callback := Some "ASMRTools";
     post_raises := None |}.

Definition rerun_world : world :=
  {| w_now := fun n => float_of_Z (1000 + 10 * Z.of_nat n); w_tick := 0%nat;
     w_fs := {[ "/data/asmr/RJ123456 - Title/a.mp3" := 10;
                "/data/asmr/RJ123456 - Title/b.mp3" := 990 ]};
     w_fetch := fun _ => GetRaises; w_requests := []; w_received := 0;
     w_writes := []; w_posts := [] |}.

Definition rerun_job : job_result * world :=
  perform_download_sync answering_upstream "job" "RJ123456" "best" EmptyString
    rerun_world.

Definition rerun_thread : world :=
  background_download_task answering_upstream "job" "RJ123456" "best" EmptyString
    rerun_world.

(** Two folders that each hold a file [x.mp3]: the first declares no size,
    the second 5 bytes. *)
Definition shadow_manifest : list track :=
  [Track (Some "folder") (Some "A")
     [Track (Some "audio") (Some "x.mp3") [] (Some "https://files.example/A/x.mp3")
        None] None None;
   Track (Some "folder") (Some "B")
     [Track (Some "audio") (Some "x.mp3") [] (Some "https://files.example/B/x.mp3")
        (Some 5)] None None].

(** A manager holding the two samples of the estimator example, with an
    earlier estimate of 100 seconds on record. *)
Definition estimated_pm : ProgressManager :=
  {| update_interval := 30; last_update_time := 0%float; _start_time := 0%float;
     _progress_history := [Sample 0 0 0 0 1000; Sample 10 50 0 500 1000];
     _completed_files_list := []; _file_structure := [];
     _last_progress := Some 50%float; _last_eta_seconds := Some 100 |}.

(** A job that fetches one file of 1000 bytes in two chunks of 10 and 990
    bytes. *)
Definition fetch_manifest : list track :=
  [Track (Some "audio") (Some "a.mp3") [] (Some "https://files.example/a.mp3")
     (Some 1000)].

Definition fetch_upstream : upstream :=
  {| results_dir_mkdir := None;
     os_environ := plain_environ;
     login := ApiAnswers 200 (inr (Some "token"));
     work := ApiAnswers 200 (inr plain_work);
     tracks_of_work := ApiAnswers 200 (inr fetch_manifest);
     callback_base_url := None;
     plugin_name_for_callback := None;
     post_raises := None |}.

Definition fetch_world : world :=
  {| w_now := fun n => float_of_Z (1000 + 10 * Z.of_nat n); w_tick := 0%nat;
     w_fs := ∅;
     w_fetch := fun _ => GetAnswers 200 1000 [10; 990] false;
     w_requests := []; w_received := 0;
     w_writes := []; w_posts := [] |}.

Definition fetch_job : job_result * world :=
  perform_download_sync fetch_upstream "job" "RJ123456" "best" EmptyString
    fetch_world.

(** A job that fetches two files of 1000 bytes, each in two chunks of 500
    bytes. *)
Definition two_fetch_manifest : list track :=
  [Track (Some "audio") (Some "a.mp3") [] (Some "https://files.example/a.mp3")
     (Some 1000);
   Track (Some "audio") (Some "b.mp3") [] (Some "https://files.example/b.mp3")
     (Some 1000)].

Definition two_fetch_upstream : upstream :=
  {| results_dir_mkdir := None;
     os_environ := plain_environ;
     login := ApiAnswers 200 (inr (Some "token"));
     work := ApiAnswers 200 (inr plain_work);
     tracks_of_work := ApiAnswers 200 (inr two_fetch_manifest);
     callback_base_url := None;
     plugin_name_for_callback := None;
     post_raises := None |}.

Definition two_fetch_world : world :=
  {| w_now := fun n => float_of_Z (1000 + 10 * Z.of_nat n); w_tick := 0%nat;
     w_fs := ∅;
     w_fetch := fun _ => GetAnswers 200 1000 [500; 500] false;
     w_requests := []; w_received := 0;
     w_writes := []; w_posts := [] |}.

Definition two_fetch_job : job_result * world :=
  perform_download_sync two_fetch_upstream "job" "RJ123456" "best" EmptyString
    two_fetch_world.

(** The same job against a file server that refuses [a.mp3] and delivers
    [b.mp3]. *)
Definition mixed_world : world :=
  {| w_now := fun n => float_of_Z (1000 + 10 * Z.of_nat n); w_tick := 0%nat;
     w_fs := ∅;
     w_fetch := fun url => if String.eqb url "https://files.example/a.mp3"
                           then GetRaises
                           else GetAnswers 200 1000 [500; 500] false;
     w_requests := []; w_received := 0;
     w_writes := []; w_posts := [] |}.

Definition mixed_job : job_result * world :=
  perform_download_sync two_fetch_upstream "job" "RJ123456" "best" EmptyString
    mixed_world.

(** A job whose manifest declares a negative size for [a.mp3] and 1010 bytes
    for [b.mp3], and that finds both files on disk. *)
Definition negative_size_manifest : list track :=
  [Track (Some "audio") (Some "a.mp3") [] (Some "https://files.example/a.mp3")
     (Some (-10));
   Track (Some "audio") (Some "b.mp3") [] (Some "https://files.example/b.mp3")
     (Some 1010)].

Definition negative_size_upstream : upstream :=
  {| results_dir_mkdir := None;
     os_environ := plain_environ;
     login := ApiAnswers 200 (inr (Some "token"));
     work := ApiAnswers 200 (inr plain_work);
     tracks_of_work := ApiAnswers 200 (inr negative_size_manifest);
     callback_base_url := None;
     plugin_name_for_callback := None;
     post_raises := None |}.

Definition negative_size_job : job_result * world :=
  perform_download_sync negative_size_upstream "job" "RJ123456" "best" EmptyString
    rerun_world.



(** The tracker [perform_download_sync] starts from. *)
Definition fresh_tracker : tracker :=
  {| tk_pm := ProgressManager_init plain_config; completed_files := 0;
     current_file := EmptyString; completed_files_list := [];
     downloaded_bytes := 0 |}.

(** The white space of ASCII, for the runs below. *)
Definition ascii_blank (c : ascii) : bool :=
  existsb (Ascii.eqb c) [" "%char; "009"%char; "010"%char; "013"%char].

Definition ascii_strip (s : string) : string := PyStr.strip ascii_blank s.

(** The assignments a POSIX interpreter refuses. *)
Definition posix_putenv_error (key value : string) : option string :=
  if PyStr.has_char "000"%char key || PyStr.has_char "000"%char value
  then Some "embedded null byte"
  else if negb (str_nonempty key) || PyStr.has_char "="%char key
       then Some "illegal environment variable name"
       else None.

Definition sample_env_file : list string :=
  ["# credentials"; EmptyString; "ASMR_USERNAME = alice";
   "ASMR_PASSWORD=first"; "ASMR_PASSWORD=second"; "no assignment here"].

(** A server that raises on the first two requests and then answers. *)
Definition flaky_session : api_session string :=
  {| api_answers := fun n => if (n <? 2)%nat then ApiRaises "timeout"
                             else ApiAnswers 200 (inr (Some "works"));
     api_calls := 0%nat; api_slept := 0 |}.

(** * Properties *)

#[local] Arguments String.append !_ _ / : simpl nomatch.

(** ** The model on small inputs *)

Example sanitize_replaces : _sanitize_filename "  ..a<b>/c.. " = "a_b__c".
Proof. reflexivity. Qed.

Example sanitize_fallback : _sanitize_filename " .. " = "unnamed_file".
Proof. reflexivity. Qed.

Example split_keeps_empty_pieces :
  PyStr.split slash "a/b//c" = ["a"; "b"; EmptyString; "c"].
Proof. reflexivity. Qed.

Example flatten_nested :
  map full_path (_extract_files_from_tracks shadow_manifest EmptyString)
  = ["A/x.mp3"; "B/x.mp3"].
Proof. reflexivity. Qed.

Example path_matches_folder : _path_matches "a/b/c.mp3" "/a/b/" = true.
Proof. reflexivity. Qed.

Example path_matches_inner_name : _path_matches "a/b/c.mp3" "b" = false.
Proof. reflexivity. Qed.

Example format_eta_minutes : format_eta 75 = "01:15".
Proof. reflexivity. Qed.

Example format_eta_hours : format_eta 3700 = "1h01m".
Proof. reflexivity. Qed.

Example format_eta_beyond : format_eta 7201 = ">2h".
Proof. reflexivity. Qed.

(** The smoothing step at work: with an estimate of 100 seconds on record the
    raw 10 seconds become [int(0.7 * 100 + 0.3 * 10)]. *)
Example smoothing_blends : (_calculate_eta estimated_pm 50 10).1 = "01:13".
Proof. reflexivity. Qed.

(** A fresh download: the file server is asked once, all bytes arrive, and
    the job succeeds.  The byte counter counts the file twice when its
    completion follows an [active] event, so the last [Downloading] snapshot
    carries 200. *)
Example fetch_one_file :
  r_status fetch_job.1 = "Succeed" /\
  w_requests fetch_job.2 = ["https://files.example/a.mp3"] /\
  w_received fetch_job.2 = 1000 /\
  w_fs fetch_job.2 !! "/data/asmr/RJ123456 - Title/a.mp3" = Some 1000 /\
  map status (w_writes fetch_job.2)
  = ["Starting"; "Preparing"; "Downloading"; "Downloading"; "Downloading";
     "Succeed"] /\
  progress_values (w_writes fetch_job.2)
  = [0%float; 5%float; 1%float; 100%float; 200%float; 100%float].
Proof. repeat split; vm_compute; reflexivity. Qed.

(** Floats round.  7 of 100 bytes are a progress above 7.  The progress of
    13 of 1000 bytes is 1.0 above that of 3 of 1000 bytes, as floats subtract,
    though the rationals the two floats stand for lie more than 1 apart. *)
Example progress_is_rounded :
  (7 <? overall_progress 100 1 7 0)%float = true /\
  (overall_progress 1000 1 13 0 - overall_progress 1000 1 3 0 =? 1)%float = true /\
  (1 < exact (overall_progress 1000 1 13 0) - exact (overall_progress 1000 1 3 0))%Q.
Proof. repeat split; vm_compute; reflexivity. Qed.

(** So the throttle does not force a write when the progress goes from 3 to
    13 of 1000 bytes, and forces one when it goes from 6.0 to 7 of 100
    bytes. *)
Example throttle_is_rounded :
  let fresh := ProgressManager_init plain_config in
  (should_update_file (set_last_progress (overall_progress 1000 1 3 0) fresh)
     0 (overall_progress 1000 1 13 0)).1 = false /\
  (should_update_file (set_last_progress 6 fresh)
     0 (overall_progress 100 1 7 0)).1 = true.
Proof. split; vm_compute; reflexivity. Qed.

(** A job whose first item fails and whose second item is fetched: both
    files are requested, and the job succeeds with the first item on its
    failed list. *)
Example one_failure_of_two :
  w_requests mixed_job.2
  = ["https://files.example/a.mp3"; "https://files.example/b.mp3"] /\
  r_status mixed_job.1 = "Succeed" /\
  r_completedFiles mixed_job.1 = Some ["b.mp3"] /\
  r_failedFiles mixed_job.1 = Some ["a.mp3"] /\
  (failedFilesList <$> last (w_writes mixed_job.2)) = Some (Some ["a.mp3"]).
Proof. repeat split; vm_compute; reflexivity. Qed.

(** The thread posts the result once to the callback endpoint. *)
Example thread_posts_result :
  map fst (w_posts rerun_thread)
  = ["http://localhost:6005/plugin-callback/ASMRTools/job"] /\
  map (fun p => r_status p.2) (w_posts rerun_thread) = ["Succeed"].
Proof. split; vm_compute; reflexivity. Qed.

(** ** Strings *)

Module PyStrFacts.
Import PyStr.

Lemma append_nil_r (s : string) : s ++ EmptyString = s.
Proof. induction s as [|a s IH]; simpl; [reflexivity | now rewrite IH]. Qed.

Lemma append_assoc (a b c : string) : (a ++ b) ++ c = a ++ (b ++ c).
Proof. induction a as [|x a IH]; simpl; [reflexivity | now rewrite IH]. Qed.

Lemma startswith_app (p r : string) : startswith p (p ++ r) = true.
Proof.
  induction p as [|a p IH]; simpl; [reflexivity |].
  now rewrite Ascii.eqb_refl.
Qed.

Lemma startswith_inv (p s : string) :
  startswith p s = true -> exists r, s = p ++ r.
Proof.
  revert s; induction p as [|a p IH]; intros s H.
  - exists s; reflexivity.
  - destruct s as [|b s]; simpl in H; [discriminate |].
    destruct (Ascii.eqb_spec a b) as [->|]; [| discriminate].
    destruct (IH s H) as [r ->]. exists r; reflexivity.
Qed.

Lemma lstrip_head_clear P s : head_clear P (lstrip P s).
Proof.
  induction s as [|a s IH]; simpl; [exact I |].
  destruct (P a) eqn:E; [exact IH | exact E].
Qed.

Lemma lstrip_fixed P s : head_clear P s -> lstrip P s = s.
Proof. destruct s as [|a s]; simpl; [reflexivity | now intros ->]. Qed.

Lemma rstrip_head_clear P s : head_clear P s -> head_clear P (rstrip P s).
Proof.
  destruct s as [|a s]; simpl; [exact id |].
  intros H. destruct (rstrip P s); [rewrite H |]; exact H.
Qed.

Lemma rstrip_idem P s : rstrip P (rstrip P s) = rstrip P s.
Proof.
  induction s as [|a s IH]; simpl; [reflexivity |].
  destruct (rstrip P s) as [|b t] eqn:E.
  - destruct (P a) eqn:Ea; simpl; [reflexivity | now rewrite Ea].
  - change (rstrip P (String a (String b t))) with
      (match rstrip P (String b t) with
       | EmptyString => if P a then EmptyString else String a EmptyString
       | String b' t' => String a (String b' t')
       end).
    now rewrite IH.
Qed.

Lemma strip_idem P s : strip P (strip P s) = strip P s.
Proof.
  unfold strip.
  rewrite (lstrip_fixed P (rstrip P (lstrip P s))).
  - apply rstrip_idem.
  - apply rstrip_head_clear, lstrip_head_clear.
Qed.

Lemma every_app Q a b : every Q (a ++ b) = every Q a && every Q b.
Proof.
  induction a as [|x a IH]; simpl; [reflexivity |].
  now rewrite IH, andb_assoc.
Qed.

Lemma every_lstrip P Q s : every Q s = true -> every Q (lstrip P s) = true.
Proof.
  induction s as [|a s IH]; simpl; [trivial |].
  intros [Ha Hs]%andb_true_iff. destruct (P a); [auto |].
  simpl. now rewrite Ha, Hs.
Qed.

Lemma every_rstrip P Q s : every Q s = true -> every Q (rstrip P s) = true.
Proof.
  induction s as [|a s IH]; simpl; [trivial |].
  intros [Ha Hs]%andb_true_iff. specialize (IH Hs).
  destruct (rstrip P s) as [|b t].
  - destruct (P a); simpl; [reflexivity | now rewrite Ha].
  - simpl in *. now rewrite Ha, IH.
Qed.

Lemma every_strip P Q s : every Q s = true -> every Q (strip P s) = true.
Proof. intros H. now apply every_rstrip, every_lstrip. Qed.

Lemma every_no_char c s :
  every (fun a => negb (Ascii.eqb a c)) s = true <-> has_char c s = false.
Proof.
  induction s as [|a s IH]; simpl; [tauto |].
  destruct (Ascii.eqb a c); simpl; [split; discriminate | exact IH].
Qed.

Lemma every_impl (Q R : ascii -> bool) s :
  (forall a, Q a = true -> R a = true) -> every Q s = true -> every R s = true.
Proof.
  intros HQR. induction s as [|a s IH]; simpl; [trivial |].
  intros [Ha Hs]%andb_true_iff. now rewrite (HQR a Ha), IH.
Qed.

(** Splitting. *)
Lemma split_not_nil c s : split c s <> [].
Proof.
  destruct s as [|a s]; simpl; [discriminate |].
  destruct (Ascii.eqb a c); [discriminate |].
  destruct (split c s); discriminate.
Qed.

Lemma split_whole c s : has_char c s = false -> split c s = [s].
Proof.
  induction s as [|a s IH]; simpl; [reflexivity |].
  destruct (Ascii.eqb a c); [discriminate |].
  intros H. now rewrite (IH H).
Qed.

Lemma split_app c a b :
  split c (a ++ String c b) = (split c a ++ split c b)%list.
Proof.
  induction a as [|x a IH]; simpl.
  - now rewrite Ascii.eqb_refl.
  - destruct (Ascii.eqb x c); [now rewrite IH |].
    rewrite IH. destruct (split c a) eqn:E; [| reflexivity].
    now destruct (split_not_nil c a).
Qed.

Lemma split_pieces c s : Forall (fun p => has_char c p = false) (split c s).
Proof.
  induction s as [|a s IH]; simpl.
  - repeat constructor.
  - destruct (Ascii.eqb a c) eqn:E; [constructor; [reflexivity | exact IH] |].
    destruct (split c s) as [|h t]; [repeat constructor; simpl; now rewrite E |].
    inversion IH; subst. constructor; [simpl; now rewrite E | assumption].
Qed.

Lemma join_split c s : join (String c EmptyString) (split c s) = s.
Proof.
  induction s as [|a s IH]; simpl; [reflexivity |].
  destruct (Ascii.eqb_spec a c) as [->|].
  - destruct (split c s) as [|h t] eqn:E; [now destruct (split_not_nil c s) |].
    change (join (String c EmptyString) (EmptyString :: h :: t))
      with (String c (join (String c EmptyString) (h :: t))).
    now rewrite IH.
  - destruct (split c s) as [|h t] eqn:E; [now destruct (split_not_nil c s) |].
    destruct t as [|h' t]; simpl in *; now rewrite <- IH.
Qed.

Lemma join_snoc sep (l : list string) x :
  l <> [] -> join sep (l ++ [x]) = join sep l ++ sep ++ x.
Proof.
  induction l as [|a l IH]; [congruence |]. intros _.
  destruct l as [|b l]; [reflexivity |].
  change (join sep ((a :: b :: l) ++ [x]))
    with (a ++ sep ++ join sep ((b :: l) ++ [x])).
  rewrite IH by discriminate.
  change (join sep (a :: b :: l)) with (a ++ sep ++ join sep (b :: l)).
  now rewrite !append_assoc.
Qed.

Lemma has_char_split_long c s :
  has_char c s = true -> exists a b l, split c s = a :: b :: l.
Proof.
  induction s as [|x s IH]; simpl; [discriminate |].
  destruct (Ascii.eqb x c).
  - intros _. destruct (split c s) as [|h t] eqn:E;
      [now destruct (split_not_nil c s) | eauto].
  - intros H. destruct (IH H) as (a & b & l & ->). eauto.
Qed.

(** A string with a separator is its directory part, the separator and a
    last piece free of separators. *)
Lemma dirname_basename c s :
  has_char c s = true ->
  exists name,
    has_char c name = false /\
    s = join (String c EmptyString) (drop_last (split c s))
          ++ String c EmptyString ++ name.
Proof.
  intros H. destruct (has_char_split_long c s H) as (a & b & l & E).
  pose proof (split_pieces c s) as Hp.
  pose proof (join_split c s) as Hj.
  assert (Hne : split c s <> []) by apply split_not_nil.
  destruct (exists_last Hne) as (front & name & Hfl).
  exists name. split.
  - rewrite Hfl in Hp. apply Forall_app in Hp as [_ Hp]. now inversion Hp.
  - unfold drop_last. rewrite Hfl, removelast_last.
    rewrite Hfl in Hj. rewrite <- Hj at 1.
    apply join_snoc. intros ->. rewrite E in Hfl. discriminate.
Qed.

Lemma rstrip_fixed_every P s :
  every (fun a => negb (P a)) s = true -> rstrip P s = s.
Proof.
  induction s as [|a s IH]; simpl; [reflexivity |].
  intros [Ha Hs]%andb_true_iff. rewrite (IH Hs).
  destruct s; [| reflexivity]. now apply negb_true_iff in Ha as ->.
Qed.

(** A string whose first piece is not empty has no leading separator. *)
Lemma lstrip_fixed_first c s :
  head (split c s) <> Some EmptyString -> lstrip (is_ch c) s = s.
Proof.
  destruct s as [|a s]; simpl; [reflexivity |]. unfold is_ch.
  destruct (Ascii.eqb a c); [intros H; now destruct H | reflexivity].
Qed.

(** A string whose last piece is not empty has no trailing separator. *)
Lemma rstrip_fixed_last c s :
  last (split c s) <> Some EmptyString -> rstrip (is_ch c) s = s.
Proof.
  induction s as [|a s IH]; [intros H; now destruct H |].
  simpl split. destruct (Ascii.eqb a c) eqn:Ea.
  - destruct (split c s) as [|h t] eqn:Es; [now destruct (split_not_nil c s) |].
    change (last (EmptyString :: h :: t)) with (last (h :: t)).
    intros H. simpl. rewrite (IH H).
    destruct s; [simpl in Es; injection Es as <- <-; now destruct H | reflexivity].
  - destruct (split c s) as [|h [|h2 t]] eqn:Es; [now destruct (split_not_nil c s) | |].
    + intros _. pose proof (split_pieces c s) as Hp. rewrite Es in Hp.
      pose proof (join_split c s) as Hj. rewrite Es in Hj. simpl in Hj. subst h.
      inversion Hp as [|? ? Hno _]; subst. simpl.
      rewrite rstrip_fixed_every by (apply every_no_char; exact Hno).
      destruct s; [| reflexivity]. unfold is_ch. now rewrite Ea.
    + change (last (String a h :: h2 :: t)) with (last (h :: h2 :: t)).
      intros H. simpl. rewrite (IH H).
      destruct s; [discriminate | reflexivity].
Qed.

Lemma strip_fixed_pieces c s :
  Forall (fun piece => piece <> EmptyString) (split c s) ->
  strip (is_ch c) s = s.
Proof.
  intros H. unfold strip.
  rewrite lstrip_fixed_first.
  - apply rstrip_fixed_last. intros Hl.
    apply last_Some in Hl as [front Hl]. rewrite Hl in H.
    apply Forall_app in H as [_ H]. inversion H; subst. congruence.
  - destruct (split c s); [discriminate |].
    inversion H; subst. simpl. congruence.
Qed.

End PyStrFacts.

(** ** Sanitising and flattening *)

Section Sanitize.
Import PyStr PyStrFacts.

Lemma underscore_legal : is_illegal "_"%char = false.
Proof. reflexivity. Qed.

Lemma re_sub_illegal_legal s :
  every (fun a => negb (is_illegal a)) (re_sub_illegal s) = true.
Proof.
  induction s as [|a s IH]; simpl; [reflexivity |].
  rewrite IH, andb_true_r.
  destruct (is_illegal a) eqn:E; [reflexivity | now rewrite E].
Qed.

Lemma sanitize_clean s : clean_segment (_sanitize_filename s).
Proof.
  unfold _sanitize_filename.
  destruct (strip dot_or_space (re_sub_illegal s)) as [|a r] eqn:E.
  - split; [discriminate | split; reflexivity].
  - rewrite <- E. split; [rewrite E; discriminate | split].
    + apply every_strip, re_sub_illegal_legal.
    + apply strip_idem.
Qed.

Lemma legal_not_slash a : negb (is_illegal a) = true -> negb (Ascii.eqb a slash) = true.
Proof.
  destruct (Ascii.eqb_spec a slash) as [->|]; [discriminate | reflexivity].
Qed.

Lemma clean_segment_no_slash seg : clean_segment seg -> has_char slash seg = false.
Proof.
  intros (_ & H & _). apply every_no_char.
  revert H. apply every_impl, legal_not_slash.
Qed.

Lemma slash_app a b : a ++ "/" ++ b = a ++ String slash b.
Proof. reflexivity. Qed.

Lemma path_join_clean base name :
  clean_path base -> clean_segment name ->
  Forall clean_segment (split slash (path_join base name)).
Proof.
  intros Hb Hn. unfold path_join.
  pose proof (split_whole slash name (clean_segment_no_slash _ Hn)) as Hs.
  destruct base as [|c base]; simpl str_nonempty; cbv iota.
  - rewrite Hs. now constructor.
  - destruct Hb as [Hb|Hb]; [discriminate |].
    rewrite slash_app, split_app, Hs.
    apply Forall_app. split; [assumption | now constructor].
Qed.

Lemma clean_path_join base name :
  clean_path base -> clean_segment name -> clean_path (path_join base name).
Proof. intros. right. now apply path_join_clean. Qed.

Lemma clean_segments_nonempty p :
  Forall clean_segment (split slash p) -> p <> EmptyString.
Proof.
  intros H ->. simpl in H. inversion H as [|? ? (Hne & _) _]; subst.
  now apply Hne.
Qed.

(** Induction on a manifest node with the hypothesis on all children. *)
Lemma track_ind_children (P : track -> Prop) :
  (forall ty ti ch u sz, Forall P ch -> P (Track ty ti ch u sz)) ->
  forall t, P t.
Proof.
  intros step. fix IH 1. intros [ty ti ch u sz]. apply step.
  induction ch as [|c ch IHch]; constructor; [apply IH | exact IHch].
Qed.

Lemma flat_map_length_sum {A B} (f : A -> list B) (g : A -> nat) (l : list A) :
  Forall (fun a => length (f a) = g a) l ->
  length (flat_map f l) = list_sum (map g l).
Proof.
  induction 1 as [|a l Ha _ IH]; simpl; [reflexivity |].
  now rewrite length_app, Ha, IH.
Qed.

Lemma extract_track_count t :
  forall base, length (extract_track base t) = leaf_files_of t.
Proof.
  induction t as [ty ti ch u sz IH] using track_ind_children.
  intros base. simpl. destruct (is_folder ty); [| reflexivity].
  apply flat_map_length_sum.
  eapply Forall_impl; [exact IH |]. intros c Hc. apply Hc.
Qed.

Lemma extract_track_clean t :
  forall base, clean_path base ->
    Forall (fun fi => Forall clean_segment (segments fi)) (extract_track base t).
Proof.
  induction t as [ty ti ch u sz IH] using track_ind_children.
  intros base Hb. simpl. destruct (is_folder ty).
  - set (folder := path_join base _).
    assert (Hf : clean_path folder)
      by (apply clean_path_join; [assumption | apply sanitize_clean]).
    clearbody folder. induction IH as [|c ch Hc _ IHch]; simpl; [constructor |].
    apply Forall_app. split; [now apply Hc | exact IHch].
  - constructor; [| constructor]. unfold segments, full_path. simpl.
    apply (path_join_clean base _ Hb), sanitize_clean.
Qed.

Lemma re_sub_illegal_replaces s : replaces_illegal s (re_sub_illegal s).
Proof.
  split.
  - induction s as [|a s IH]; simpl; [reflexivity | now rewrite IH].
  - induction s as [|a s IH]; intros n b; simpl; [discriminate |].
    destruct n as [|n]; [intros [= <-]; reflexivity | apply IH].
Qed.

Lemma replaces_illegal_unique s r : replaces_illegal s r -> r = re_sub_illegal s.
Proof.
  revert r. induction s as [|a s IH]; intros r [Hlen Hget].
  - destruct r; [reflexivity | discriminate].
  - destruct r as [|b r]; [discriminate |]. simpl.
    pose proof (Hget 0%nat a eq_refl) as H0. simpl in H0. injection H0 as ->.
    f_equal. apply IH. split; [simpl in Hlen; congruence |].
    intros n c Hc. apply (Hget (S n) c Hc).
Qed.

Lemma lstrip_cut P s : exists pre, s = pre ++ lstrip P s /\ every P pre = true.
Proof.
  induction s as [|a s (pre & IH & Hpre)]; simpl.
  - exists EmptyString. split; reflexivity.
  - destruct (P a) eqn:E.
    + exists (String a pre). split; [simpl; now rewrite <- IH | simpl; now rewrite E].
    + exists EmptyString. split; reflexivity.
Qed.

Lemma rstrip_cut P s : exists post, s = rstrip P s ++ post /\ every P post = true.
Proof.
  induction s as [|a s (post & IH & Hpost)]; simpl.
  - exists EmptyString. split; reflexivity.
  - destruct (rstrip P s) as [|b t] eqn:E.
    + destruct (P a) eqn:Ea.
      * exists (String a post). simpl in IH. subst s. split; [reflexivity |].
        simpl. now rewrite Ea.
      * exists post. simpl in *. now subst s.
    + exists post. split; [| exact Hpost]. simpl in *. now rewrite <- IH.
Qed.

Lemma rstrip_last_clear P s : last_clear P (rstrip P s).
Proof.
  induction s as [|a s IH]; simpl; [exact I |].
  destruct (rstrip P s) as [|b t] eqn:E.
  - destruct (P a) eqn:Ea; simpl; [exact I | exact Ea].
  - exact IH.
Qed.

Lemma strip_trims s : trims s (strip dot_or_space s).
Proof.
  unfold strip.
  destruct (lstrip_cut dot_or_space s) as (pre & Hs & Hpre).
  destruct (rstrip_cut dot_or_space (lstrip dot_or_space s)) as (post & Hl & Hpost).
  exists pre, post. split; [now rewrite <- Hl |].
  split; [exact Hpre | split; [exact Hpost |]].
  split; [apply rstrip_head_clear, lstrip_head_clear | apply rstrip_last_clear].
Qed.

Lemma lstrip_every P s : every P s = true -> lstrip P s = EmptyString.
Proof.
  induction s as [|a s IH]; simpl; [reflexivity |].
  intros [-> Hs]%andb_true_iff. now apply IH.
Qed.

Lemma lstrip_app_every P pre s :
  every P pre = true -> lstrip P (pre ++ s) = lstrip P s.
Proof.
  induction pre as [|a pre IH]; simpl; [reflexivity |].
  intros [-> Hs]%andb_true_iff. now apply IH.
Qed.

Lemma rstrip_every P s : every P s = true -> rstrip P s = EmptyString.
Proof.
  induction s as [|a s IH]; simpl; [reflexivity |].
  intros [-> Hs]%andb_true_iff. now rewrite IH.
Qed.

Lemma rstrip_app_every P t post :
  every P post = true -> t <> EmptyString -> last_clear P t ->
  rstrip P (t ++ post) = t.
Proof.
  intros Hpost. induction t as [|a t IH]; [congruence |]. intros _ Hlast.
  destruct t as [|b t].
  - simpl in *. rewrite (rstrip_every P post Hpost). now rewrite Hlast.
  - change (rstrip P (String a (String b t) ++ post))
      with (match rstrip P (String b t ++ post) with
            | EmptyString => if P a then EmptyString else String a EmptyString
            | String b' t' => String a (String b' t')
            end).
    rewrite IH; [reflexivity | discriminate | exact Hlast].
Qed.

Lemma trims_unique r t : trims r t -> t = strip dot_or_space r.
Proof.
  intros (pre & post & -> & Hpre & Hpost & Hhead & Hlast). unfold strip.
  rewrite lstrip_app_every by exact Hpre.
  destruct t as [|a t].
  - simpl. rewrite lstrip_every by exact Hpost. reflexivity.
  - rewrite lstrip_fixed by exact Hhead.
    symmetry. apply rstrip_app_every; [exact Hpost | discriminate | exact Hlast].
Qed.

(** [_sanitize_filename] computes the name of the specification, which is
    unique. *)
Lemma sanitize_as_specified title name :
  sanitised_as title name <-> name = _sanitize_filename title.
Proof.
  unfold sanitised_as, _sanitize_filename. split.
  - intros (r & t & Hr & Ht & ->).
    apply replaces_illegal_unique in Hr as ->.
    apply trims_unique in Ht as ->.
    now destruct (strip _ _).
  - intros ->.
    exists (re_sub_illegal title), (strip dot_or_space (re_sub_illegal title)).
    split; [apply re_sub_illegal_replaces | split; [apply strip_trims |]].
    now destruct (strip _ _).
Qed.

Lemma path_join_segments base name :
  has_char slash name = false ->
  split slash (path_join base name) = (path_segments base ++ [name])%list.
Proof.
  intros Hname. unfold path_join, path_segments.
  destruct (str_nonempty base); [| apply split_whole, Hname].
  rewrite slash_app, split_app, (split_whole _ _ Hname). reflexivity.
Qed.

Lemma path_join_nonempty base name :
  name <> EmptyString -> str_nonempty (path_join base name) = true.
Proof.
  intros Hname. unfold path_join. destruct base as [|a base]; cbn.
  - destruct name; [congruence | reflexivity].
  - reflexivity.
Qed.

Lemma sanitize_no_slash s : has_char slash (_sanitize_filename s) = false.
Proof. apply clean_segment_no_slash, sanitize_clean. Qed.

Lemma sanitize_nonempty s : _sanitize_filename s <> EmptyString.
Proof. destruct (sanitize_clean s) as [H _]. exact H. Qed.

Lemma extract_track_chains t :
  forall base,
    map segments (extract_track base t)
    = map (fun chain => (path_segments base ++ map _sanitize_filename chain)%list)
        (leaf_chains t).
Proof.
  induction t as [ty ti ch u sz IH] using track_ind_children.
  intros base. cbn [extract_track leaf_chains]. destruct (is_folder ty).
  - set (name := _sanitize_filename (default "Unknown Folder" ti)).
    assert (Hsegs : path_segments (path_join base name)
                    = (path_segments base ++ [name])%list).
    { unfold path_segments at 1.
      rewrite (path_join_nonempty base name (sanitize_nonempty _)).
      apply path_join_segments, sanitize_no_slash. }
    rewrite map_map. cbn [map]. fold name.
    induction IH as [|t rest Ht _ IHrest]; cbn [flat_map map]; [reflexivity |].
    rewrite !map_app, IHrest, Ht, Hsegs. f_equal.
    apply map_ext. intros chain. rewrite <- app_assoc. reflexivity.
  - cbn [map]. unfold segments, full_path. cbn [fi_path fi_filename].
    fold (path_join base (_sanitize_filename (default "Unknown File" ti))).
    rewrite path_join_segments by apply sanitize_no_slash. reflexivity.
Qed.

Lemma extract_files_chains tracks :
  map segments (_extract_files_from_tracks tracks EmptyString)
  = map (map _sanitize_filename) (flat_map leaf_chains tracks).
Proof.
  unfold _extract_files_from_tracks.
  induction tracks as [|t rest IH]; cbn [flat_map map]; [reflexivity |].
  rewrite !map_app, IH, extract_track_chains. reflexivity.
Qed.

Lemma Forall2_map_of {A B} (R : A -> B -> Prop) (f : A -> B) (l : list A) :
  (forall a, R a (f a)) -> Forall2 R l (map f l).
Proof. intros H. induction l; constructor; auto. Qed.

(** The relative path of a manifest item has no slash to strip. *)
Lemma manifest_paths_stripped tracks fi :
  In fi (_extract_files_from_tracks tracks EmptyString) ->
  relative_path fi = full_path fi.
Proof.
  intros Hin. unfold relative_path, strip_slashes.
  apply strip_fixed_pieces.
  assert (H : Forall (fun fi => Forall clean_segment (segments fi))
                (_extract_files_from_tracks tracks EmptyString)).
  { clear Hin. unfold _extract_files_from_tracks.
    induction tracks as [|t tracks IH]; simpl; [constructor |].
    apply Forall_app. split; [apply extract_track_clean; now left | exact IH]. }
  rewrite Forall_forall in H. specialize (H fi (proj2 (list_elem_of_In _ _) Hin)).
  eapply Forall_impl; [exact H |]. now intros piece (Hne & _).
Qed.

End Sanitize.

(** C6.  For every manifest, the flattening returns exactly as many items as
    the manifest has leaf files, at whatever depth they are nested.  The
    segments of the relative path of an item are, one for one, the names made
    from the titles of the folders that lead to the file, from the outermost
    one, and from the title of the file (a missing title reads as
    [Unknown Folder] or [Unknown File]).  The name made from a title is the
    title with every illegal character replaced by an underscore, then
    without its leading and trailing dots and blanks, and the fallback name
    [unnamed_file] when nothing is left: [_sanitize_filename] returns that
    name and no other.  So the relative path of each item is not empty, and
    each of its segments is not empty, holds none of the illegal characters
    and has no leading or trailing dot or blank. *)
Theorem resolve_manifest_leaves (tracks : list track) :
  let items := _extract_files_from_tracks tracks EmptyString in
  length items = leaf_files tracks /\
  Forall2 (Forall2 sanitised_as) (flat_map leaf_chains tracks) (map segments items) /\
  (forall title name, sanitised_as title name <-> name = _sanitize_filename title) /\
  Forall (fun fi => full_path fi <> EmptyString /\
                    Forall clean_segment (segments fi)) items.
Proof.
  cbv zeta. split; [| split; [| split]].
  - unfold _extract_files_from_tracks, leaf_files.
    apply flat_map_length_sum, Forall_forall. intros t _. apply extract_track_count.
  - rewrite extract_files_chains. apply Forall2_map_of. intros chain.
    apply Forall2_map_of. intros title. now apply sanitize_as_specified.
  - apply sanitize_as_specified.
  - unfold _extract_files_from_tracks.
    induction tracks as [|t tracks IH]; simpl; [constructor |].
    apply Forall_app. split; [| exact IH].
    eapply Forall_impl; [apply extract_track_clean; now left |].
    intros fi H. split; [| exact H].
    now apply clean_segments_nonempty.
Qed.

(** ** The path filter *)

Section PathFilter.
Import PyStr PyStrFacts.

Lemma str_nonempty_false s : str_nonempty s = false <-> s = EmptyString.
Proof. destruct s; simpl; split; congruence. Qed.

Lemma strip_slashes_idem s : strip_slashes (strip_slashes s) = strip_slashes s.
Proof. apply strip_idem. Qed.

Lemma parent_is_nested scope rel : parent_is scope rel -> nested_under scope rel.
Proof. intros (name & _ & ->). now exists name. Qed.

Lemma nested_under_startswith scope rel :
  nested_under scope rel <-> startswith (scope ++ "/") rel = true.
Proof.
  split.
  - intros (rest & ->). rewrite <- append_assoc. apply startswith_app.
  - intros (rest & ->)%startswith_inv. exists rest. apply append_assoc.
Qed.

(** [_path_matches] decides [scope_keeps]. *)
Lemma path_matches_spec fp scope :
  _path_matches fp (strip_slashes scope) = true <->
  scope_keeps scope (strip_slashes fp).
Proof.
  unfold _path_matches, scope_keeps. rewrite strip_slashes_idem.
  set (rel := strip_slashes fp). set (sc := strip_slashes scope).
  destruct (str_nonempty sc) eqn:Ene; simpl.
  2:{ apply str_nonempty_false in Ene. tauto. }
  assert (Hsc : sc <> EmptyString) by (intros E; now rewrite E in Ene).
  destruct (String.eqb_spec rel sc) as [Heq|Hne]; [tauto |].
  destruct (startswith (sc ++ "/") rel) eqn:Esw.
  { apply nested_under_startswith in Esw. tauto. }
  assert (Hnn : ~ nested_under sc rel).
  { intros H%nested_under_startswith. congruence. }
  split.
  - intros H. exfalso. apply Hnn.
    destruct (has_char slash rel) eqn:Ehc.
    + destruct (dirname_basename slash rel Ehc) as (name & _ & Hrel).
      destruct (String.eqb_spec
                  (join "/" (drop_last (split slash rel))) sc) as [Hd|];
        [| discriminate].
      exists name. rewrite <- Hd. exact Hrel.
    + destruct (String.eqb_spec EmptyString sc) as [Hd|]; [| discriminate].
      now destruct Hsc.
  - intros [H|[H|[H|H%parent_is_nested]]]; congruence || contradiction.
Qed.

#[local] Instance scope_keeps_dec scope rel : Decision (scope_keeps scope rel).
Proof.
  unfold scope_keeps.
  destruct (decide (strip_slashes scope = EmptyString)) as [|H1]; [left; tauto |].
  destruct (decide (rel = strip_slashes scope)) as [|H2]; [left; tauto |].
  destruct (startswith (strip_slashes scope ++ "/") rel) eqn:E.
  - left. now right; right; left; apply nested_under_startswith.
  - right. intros [?|[?|[H|H%parent_is_nested]]]; try contradiction;
      apply nested_under_startswith in H; congruence.
Defined.

Lemma filter_loop scope (items acc : list file_info) :
  fold_left
    (fun filtered_files fi =>
       if _path_matches (full_path fi) (strip_slashes scope)
       then (filtered_files ++ [fi])%list else filtered_files)
    items acc
  = (acc ++ filter (fun fi => scope_keeps scope (relative_path fi)) items)%list.
Proof.
  revert acc. induction items as [|fi items IH]; intros acc; simpl.
  - now rewrite app_nil_r.
  - rewrite IH. destruct (_path_matches (full_path fi) _) eqn:E.
    + rewrite filter_cons_True by now apply path_matches_spec.
      now rewrite <- app_assoc.
    + rewrite filter_cons_False; [reflexivity |].
      intros H%path_matches_spec. unfold relative_path in *. congruence.
Qed.

Lemma filter_all {A} (P : A -> Prop) `{!forall x, Decision (P x)} (l : list A) :
  (forall x, P x) -> filter P l = l.
Proof.
  intros HP. induction l as [|a l IH]; [reflexivity |].
  now rewrite filter_cons_True, IH.
Qed.

(** C5.  For every list of items and every scope, the filter keeps, in
    their order, exactly the items whose full relative path equals the
    normalised scope, or lies under the scope followed by a slash, or has
    the scope as immediate parent directory; a scope that is empty once
    normalised (the empty scope in particular) returns the list as it is.
    The full relative path is taken free of surrounding slashes, which for the
    items of a manifest is the path itself. *)
Theorem filter_by_path_exact (items : list file_info) (scope : string) :
  _filter_files_by_path items scope
  = filter (fun fi => scope_keeps scope (relative_path fi)) items
  /\ (strip_slashes scope = EmptyString ->
      _filter_files_by_path items scope = items)
  /\ _filter_files_by_path items EmptyString = items
  /\ (forall tracks fi,
        In fi (_extract_files_from_tracks tracks EmptyString) ->
        relative_path fi = full_path fi).
Proof.
  assert (E : forall sc, _filter_files_by_path items sc
              = filter (fun fi => scope_keeps sc (relative_path fi)) items)
    by (intros sc; unfold _filter_files_by_path; now rewrite filter_loop).
  split; [apply E | split; [| split]].
  - intros H. rewrite E. apply filter_all. intros fi. now left.
  - rewrite E. apply filter_all. intros fi. now left.
  - apply manifest_paths_stripped.
Qed.

End PathFilter.

(** ** Sizes by bare file name *)

Section SizeLookup.

Lemma search_children_folder filename children fc :
  search_children filename (NFolder children fc)
  = search_structure filename children.
Proof.
  simpl. induction children as [|[key value] rest IH]; [reflexivity |].
  simpl. destruct value; now rewrite IH.
Qed.

(** Induction on a file-structure tree, entry by entry. *)
Lemma structure_ind (P : list (string * node) -> Prop) :
  P [] ->
  (forall key size url rest, P rest -> P ((key, NFile size url) :: rest)) ->
  (forall key children fc rest,
      P children -> P rest -> P ((key, NFolder children fc) :: rest)) ->
  forall structure, P structure.
Proof.
  intros Hnil Hfile Hfolder.
  assert (H : forall value : node,
             match value with NFolder children _ => P children | _ => True end).
  { fix IH 1. intros [size url | children fc]; [exact I |].
    induction children as [|[key value] rest IHrest]; [exact Hnil |].
    pose proof (IH value) as Hv. destruct value as [size url | sub fc'].
    - now apply Hfile.
    - now apply Hfolder. }
  intros structure. exact (H (NFolder structure 0)).
Qed.

Lemma search_file filename key size url rest :
  search_structure filename ((key, NFile size url) :: rest)
  = if String.eqb key filename then size else search_structure filename rest.
Proof. reflexivity. Qed.

Lemma search_folder filename key children fc rest :
  search_structure filename ((key, NFolder children fc) :: rest)
  = let size := search_structure filename children in
    if (0 <? size)%Z then size else search_structure filename rest.
Proof.
  change (search_structure filename ((key, NFolder children fc) :: rest))
    with (let size := search_children filename (NFolder children fc) in
          if (0 <? size)%Z then size else search_structure filename rest).
  now rewrite search_children_folder.
Qed.

Lemma matches_file filename key size url rest :
  dfs_matches filename ((key, NFile size url) :: rest)
  = ((if String.eqb key filename then [size] else [])
     ++ dfs_matches filename rest)%list.
Proof. reflexivity. Qed.

Lemma matches_folder filename key children fc rest :
  dfs_matches filename ((key, NFolder children fc) :: rest)
  = (dfs_matches filename children ++ dfs_matches filename rest)%list.
Proof. reflexivity. Qed.

(** No file of that name: the search returns 0. *)
Lemma search_absent filename structure :
  dfs_matches filename structure = [] ->
  search_structure filename structure = 0.
Proof.
  induction structure as [|key size url rest IH|key children fc rest IHc IHr]
    using structure_ind.
  - reflexivity.
  - rewrite search_file, matches_file.
    destruct (String.eqb key filename); [discriminate | exact IH].
  - rewrite search_folder, matches_folder.
    intros [Hc Hr]%app_eq_nil. cbv zeta. rewrite (IHc Hc). simpl. exact (IHr Hr).
Qed.

(** The first file of that name in depth-first order has a positive size:
    the search returns it. *)
Lemma search_first_positive filename structure s others :
  dfs_matches filename structure = s :: others -> 0 < s ->
  search_structure filename structure = s.
Proof.
  revert s others.
  induction structure as [|key size url rest IH|key children fc rest IHc IHr]
    using structure_ind; intros s others.
  - discriminate.
  - rewrite search_file, matches_file.
    destruct (String.eqb key filename); simpl.
    + now intros [= -> _] _.
    + apply IH.
  - rewrite search_folder, matches_folder. cbv zeta.
    destruct (dfs_matches filename children) as [|s' others'] eqn:Ec.
    + rewrite (search_absent _ _ Ec). simpl. apply IHr.
    + simpl. intros [= -> _] Hs. rewrite (IHc s others' eq_refl Hs).
      now apply Z.ltb_lt in Hs as ->.
Qed.

(** Whatever the tree, the search returns 0 or the size of some file of
    that name. *)
Lemma search_among_matches filename structure :
  In (search_structure filename structure) (0 :: dfs_matches filename structure).
Proof.
  induction structure as [|key size url rest IH|key children fc rest IHc IHr]
    using structure_ind.
  - now left.
  - rewrite search_file, matches_file.
    destruct (String.eqb key filename); simpl; [right; now left | exact IH].
  - rewrite search_folder, matches_folder. cbv zeta.
    destruct (0 <? search_structure filename children)%Z eqn:E.
    + destruct IHc as [H0|Hin]; [rewrite <- H0 in E; discriminate |].
      right. apply in_or_app. now left.
    + destruct IHr as [H0|Hin]; [now left |].
      right. apply in_or_app. now right.
Qed.

(** The loop that fills [file_sizes] and [total_bytes]. *)
Lemma size_table_loop file_structure all_files (m : gmap string Z) (t : Z) :
  let r :=
    fold_left
      (fun '(file_sizes, total_bytes) fi =>
         let file_size :=
           get_file_size_from_structure file_structure (fi_filename fi) in
         (<[fi_filename fi := file_size]> file_sizes, total_bytes + file_size))
      all_files (m, t) in
  (forall name,
      r.1 !! name
      = if existsb (fun fi => String.eqb (fi_filename fi) name) all_files
        then Some (get_file_size_from_structure file_structure name)
        else m !! name)
  /\ r.2 = fold_left Z.add
             (map (fun fi => get_file_size_from_structure file_structure
                               (fi_filename fi)) all_files) t.
Proof.
  revert m t. induction all_files as [|fi files IH]; intros m t; simpl.
  - split; [reflexivity | reflexivity].
  - specialize (IH (<[fi_filename fi :=
                        get_file_size_from_structure file_structure
                          (fi_filename fi)]> m)
                   (t + get_file_size_from_structure file_structure
                          (fi_filename fi))).
    simpl in IH. destruct IH as [IH1 IH2]. split; [| exact IH2].
    intros name. rewrite IH1.
    destruct (existsb _ files); [now rewrite orb_true_r |].
    rewrite orb_false_r.
    destruct (String.eqb_spec (fi_filename fi) name) as [->|Hne].
    + apply lookup_insert_eq.
    + now apply lookup_insert_ne.
Qed.

Lemma size_table_lookup file_structure all_files fi :
  In fi all_files ->
  size_of (size_table file_structure all_files).1 (fi_filename fi)
  = get_file_size_from_structure file_structure (fi_filename fi).
Proof.
  intros Hin. unfold size_of, size_table.
  destruct (size_table_loop file_structure all_files ∅ 0) as [H _].
  cbv zeta in H. rewrite H.
  replace (existsb _ all_files) with true; [reflexivity |].
  symmetry. apply existsb_exists. exists fi. split; [exact Hin |].
  apply String.eqb_refl.
Qed.

Lemma size_table_total file_structure all_files :
  (size_table file_structure all_files).2
  = looked_up_total file_structure all_files.
Proof.
  unfold size_table, looked_up_total.
  destruct (size_table_loop file_structure all_files ∅ 0) as [_ H].
  exact H.
Qed.

End SizeLookup.

(** ** The progress manager *)

Section Manager.

Lemma Qltb_lt a b : Qltb a b = true <-> (a < b)%Q.
Proof.
  unfold Qltb. rewrite negb_true_iff, <- not_true_iff_false, Qle_bool_iff.
  split; [apply Qnot_le_lt | apply Qlt_not_le].
Qed.

(** What [_calculate_eta] leaves alone. *)
Lemma calculate_eta_frame pm p t :
  let pm' := (_calculate_eta pm p t).2 in
  update_interval pm' = update_interval pm /\
  last_update_time pm' = last_update_time pm /\
  _progress_history pm' = _progress_history pm /\
  _completed_files_list pm' = _completed_files_list pm /\
  _file_structure pm' = _file_structure pm /\
  _last_progress pm' = _last_progress pm.
Proof.
  unfold _calculate_eta.
  repeat match goal with
         | |- context [if ?b then _ else _] => destruct b
         | |- context [match ?x with _ => _ end] => destruct x
         end; simpl; tauto.
Qed.

Lemma should_update_file_spec pm t p :
  ((should_update_file pm t p).1 = true <-> interval_elapsed pm t \/ forced pm p)
  /\ (forced pm p -> (should_update_file pm t p).2 = set_last_progress p pm)
  /\ (~ forced pm p -> (should_update_file pm t p).2 = pm).
Proof.
  unfold should_update_file, forced, interval_elapsed.
  destruct (_last_progress pm) as [reference|];
    cbn [default from_option id negb orb fst snd].
  - rewrite orb_false_r.
    destruct (1 <? abs (p - reference))%float eqn:E; cbn [fst snd].
    + tauto.
    + split; [| split; [discriminate | reflexivity]].
      split; [tauto | intros [H|H]; [exact H | discriminate]].
  - rewrite orb_true_r. cbn [fst snd]. tauto.
Qed.

(** [update_download_progress], step by step. *)
Lemma update_download_progress_steps pm w task_id wi p speed cf tf cur cfl db tb :
  let t := w_now w (w_tick w) in
  let pm0 := match cfl with [] => pm | _ => set_completed_files_list cfl pm end in
  let pm1 := record_sample (Sample (exact t) (exact p) cf db tb) pm0 in
  let d := should_update_file pm1 t p in
  let e := _calculate_eta d.2 (exact p) (exact t) in
  update_download_progress pm w task_id wi p speed cf tf cur cfl db tb
  = if d.1
    then (set_last_update_time t e.2,
          update_progress task_id "Downloading"
            {| requestId := EmptyString; status := EmptyString; timestamp := 0%float;
               workId := Some (default EmptyString (wi_source_id wi));
               workTitle := Some (default "Unknown Work" (wi_title wi));
               progress := Some p; eta := Some e.1;
               completedFiles := Some cf; totalFiles := Some tf;
               currentFile := Some cur;
               completedFilesList := Some (_completed_files_list e.2);
               failedFilesList := None;
               fileStructure := Some (_file_structure e.2);
               downloadedBytes := Some db; totalBytes := Some tb;
               downloadDir := None; reason := None |} (time_time w).2)
    else (e.2, (time_time w).2).
Proof.
  unfold update_download_progress. simpl.
  destruct (should_update_file _ _ _) as [should pm2]. simpl.
  destruct (_calculate_eta pm2 _ _) as [eta_str pm3]. simpl.
  destruct should; reflexivity.
Qed.

Lemma pm0_fields pm (cfl : list string) :
  let pm0 := match cfl with [] => pm | _ => set_completed_files_list cfl pm end in
  update_interval pm0 = update_interval pm /\
  last_update_time pm0 = last_update_time pm /\
  _progress_history pm0 = _progress_history pm /\
  _last_progress pm0 = _last_progress pm /\
  _last_eta_seconds pm0 = _last_eta_seconds pm.
Proof. destruct cfl; simpl; tauto. Qed.

Lemma update_progress_writes task_id st kwargs w :
  w_writes (update_progress task_id st kwargs w)
  = (w_writes w ++ [stamp task_id st (w_now w (w_tick w)) kwargs])%list.
Proof. reflexivity. Qed.

Lemma writes_longer (l : list snapshot) (s : snapshot) : l <> (l ++ [s])%list.
Proof.
  intros H. apply (f_equal (@length _)) in H.
  rewrite length_app in H. simpl in H. lia.
Qed.

End Manager.

(** C3, as the code has it.  A [Downloading] update is persisted if and only
    if the configured interval has elapsed since [last_update_time], or the
    update is forced: it is the first one of the manager, or its progress is
    more than one point away from the reference [_last_progress].  Both
    differences are the ones the interpreter computes on floats.  The two
    references are those of the code: [last_update_time] is 0 at first and
    then the time of the last persisted [Downloading] update, and
    [_last_progress] moves only on a forced update, not on one persisted
    because the interval elapsed.  Persisted or not, the sample joins the
    history.  Without an override the interval is 30 seconds. *)
Theorem download_throttle pm w task_id wi p speed cf tf cur cfl db tb :
  let t := w_now w (w_tick w) in
  let r := update_download_progress pm w task_id wi p speed cf tf cur cfl db tb in
  (interval_elapsed pm t \/ forced pm p <-> persisted w r.2 task_id p) /\
  (~ (interval_elapsed pm t \/ forced pm p) <-> writes_since w r.2 []) /\
  _progress_history r.1
  = history_with (_progress_history pm) (Sample (exact t) (exact p) cf db tb) /\
  (interval_elapsed pm t \/ forced pm p -> last_update_time r.1 = t) /\
  (~ (interval_elapsed pm t \/ forced pm p) ->
   last_update_time r.1 = last_update_time pm) /\
  (forced pm p -> _last_progress r.1 = Some p) /\
  (~ forced pm p -> _last_progress r.1 = _last_progress pm) /\
  (forall e config,
      ASMR_PROGRESS_UPDATE_INTERVAL e = None -> from_env e = inr config ->
      let fresh := ProgressManager_init config in
      update_interval fresh = 30 /\ last_update_time fresh = 0%float /\
      _last_progress fresh = None).
Proof.
  intros t r.
  pose proof (update_download_progress_steps pm w task_id wi p speed cf tf cur cfl db tb)
    as Hsteps.
  cbv zeta in Hsteps. fold t in Hsteps. fold r in Hsteps.
  set (pm0 := match cfl with [] => pm | _ => set_completed_files_list cfl pm end) in *.
  set (pm1 := record_sample (Sample t p cf db tb) pm0) in *.
  destruct (pm0_fields pm cfl) as (Hi0 & Hl0 & Hh0 & Hp0 & _).
  fold pm0 in Hi0, Hl0, Hh0, Hp0.
  assert (Hdue : interval_elapsed pm1 t <-> interval_elapsed pm t)
    by (unfold interval_elapsed; simpl; now rewrite Hi0, Hl0).
  assert (Hforced : forced pm1 p <-> forced pm p)
    by (unfold forced; simpl; now rewrite Hp0).
  destruct (should_update_file_spec pm1 t p) as (Hd & Hyes & Hno).
  destruct (calculate_eta_frame (should_update_file pm1 t p).2 p t)
    as (_ & Hl & Hh & _ & _ & Hp).
  cbv zeta in Hl, Hh, Hp.
  assert (Hhist : _progress_history (should_update_file pm1 t p).2
                  = history_with (_progress_history pm) (Sample t p cf db tb)).
  { unfold should_update_file.
    destruct (_ || _); simpl; unfold history_with; now rewrite Hh0. }
  assert (Hlu : last_update_time (should_update_file pm1 t p).2 = last_update_time pm).
  { unfold should_update_file. destruct (_ || _); simpl; exact Hl0. }
  assert (Hprog : (forced pm p -> _last_progress (should_update_file pm1 t p).2 = Some p)
                  /\ (~ forced pm p ->
                      _last_progress (should_update_file pm1 t p).2 = _last_progress pm)).
  { split; intros H.
    - rewrite Hyes by tauto. reflexivity.
    - rewrite Hno by tauto. simpl. exact Hp0. }
  assert (Hfresh : forall e config,
             ASMR_PROGRESS_UPDATE_INTERVAL e = None -> from_env e = inr config ->
             let fresh := ProgressManager_init config in
             update_interval fresh = 30 /\ last_update_time fresh = 0%float /\
             _last_progress fresh = None).
  { intros e config He Hc. unfold from_env in Hc. rewrite He in Hc.
    destruct (default _ (ARIA2_PORT e)); [| discriminate].
    simpl in Hc. injection Hc as <-. simpl. tauto. }
  set (e := _calculate_eta (should_update_file pm1 t p).2 p t) in *.
  destruct (should_update_file pm1 t p) as [b pm2].
  cbn [fst snd] in *.
  destruct b; rewrite Hsteps; cbn [fst snd].
  - assert (Hdec : interval_elapsed pm t \/ forced pm p) by tauto.
    assert (Hper : persisted w
              (update_progress task_id "Downloading"
                 {| requestId := EmptyString; status := EmptyString; timestamp := 0%float;
                    workId := Some (default EmptyString (wi_source_id wi));
                    workTitle := Some (default "Unknown Work" (wi_title wi));
                    progress := Some p; eta := Some e.1;
                    completedFiles := Some cf; totalFiles := Some tf;
                    currentFile := Some cur;
                    completedFilesList := Some (_completed_files_list e.2);
                    failedFilesList := None;
                    fileStructure := Some (_file_structure e.2);
                    downloadedBytes := Some db; totalBytes := Some tb;
                    downloadDir := None; reason := None |} (time_time w).2)
              task_id p).
    { eexists. split;
        [unfold writes_since; rewrite update_progress_writes; reflexivity |].
      simpl. tauto. }
    split; [tauto |]. split.
    { split; [tauto |]. intros H. exfalso.
      destruct Hper as (snap & Hw & _). unfold writes_since in *.
      rewrite H, app_nil_r in Hw. now apply writes_longer in Hw. }
    split; [simpl; now rewrite Hh |].
    split; [reflexivity |]. split; [tauto |].
    split; [simpl; rewrite Hp; tauto |].
    split; [simpl; rewrite Hp; tauto | exact Hfresh].
  - assert (Hdec : ~ (interval_elapsed pm t \/ forced pm p))
      by (intros H; assert (false = true) by (apply Hd; tauto); discriminate).
    assert (Hsame : writes_since w (time_time w).2 [])
      by (unfold writes_since; simpl; now rewrite app_nil_r).
    split.
    { split; [tauto |]. intros (snap & Hw & _). exfalso.
      unfold writes_since in *. rewrite Hsame, app_nil_r in Hw.
      now apply writes_longer in Hw. }
    split; [tauto |].
    split; [now rewrite Hh |].
    split; [tauto |]. split; [intros _; now rewrite Hl |].
    split; [rewrite Hp; tauto |].
    split; [rewrite Hp; tauto | exact Hfresh].
Qed.

(** ** The estimator *)

Section Estimator.

Lemma calculate_eta_short pm p t :
  (length (_progress_history pm) < 2)%nat ->
  _calculate_eta pm p t = (unknown_eta, pm).
Proof.
  intros H. unfold _calculate_eta.
  destruct (_ || _); [reflexivity |].
  now apply Nat.ltb_lt in H as ->.
Qed.

Lemma history_with_length history s :
  (length (history_with history s) < 2)%nat -> history = [].
Proof.
  unfold history_with. rewrite length_app. simpl.
  destruct (15 <? _)%nat eqn:E.
  - apply Nat.ltb_lt in E. unfold last_n.
    rewrite length_skipn, length_app. simpl. lia.
  - rewrite length_app. simpl. destruct history; [reflexivity | simpl; lia].
Qed.

Lemma history_with_two history s a b :
  history_with history s = [a; b] -> history = [a].
Proof.
  unfold history_with. destruct (15 <? _)%nat eqn:E.
  - apply Nat.ltb_lt in E. intros H. apply (f_equal (@length _)) in H.
    unfold last_n in H. rewrite length_skipn in H. simpl in H. lia.
  - destruct history as [|x [|y l]]; simpl; intros H; try discriminate.
    + now injection H as -> _.
    + injection H as _ _ H. now destruct l.
Qed.

Lemma entering_eta_fields pm t p cfl cf db tb :
  let pm' := entering_eta pm t p cfl cf db tb in
  _progress_history pm' = history_with (_progress_history pm) (Sample t p cf db tb)
  /\ _last_eta_seconds pm' = _last_eta_seconds pm.
Proof.
  cbv zeta. unfold entering_eta.
  destruct (pm0_fields pm cfl) as (_ & _ & Hh & _ & He). cbv zeta in Hh, He.
  unfold should_update_file. destruct (_ || _); simpl;
    unfold history_with; now rewrite Hh, He.
Qed.

Lemma update_download_progress_eta pm w task_id wi p speed cf tf cur cfl db tb :
  let t := w_now w (w_tick w) in
  let r := update_download_progress pm w task_id wi p speed cf tf cur cfl db tb in
  _last_eta_seconds r.1
  = _last_eta_seconds (_calculate_eta (entering_eta pm t p cfl cf db tb) p t).2.
Proof.
  cbv zeta.
  rewrite (update_download_progress_steps pm w task_id wi p speed cf tf cur cfl db tb).
  cbv zeta. unfold entering_eta. now destruct (should_update_file _ _ _).1.
Qed.

(** A reachable manager with fewer than two samples has made no estimate. *)
Lemma reachable_no_estimate pm :
  pm_reachable pm ->
  (length (_progress_history pm) < 2)%nat -> no_estimate_yet pm.
Proof.
  unfold no_estimate_yet.
  induction 1 as [config | pm task_id work_id w _ _ | pm task_id wi total fs w H IH
                 | pm w task_id wi p speed cf tf cur cfl db tb H IH]; intros Hlen.
  - now left.
  - now right.
  - unfold update_preparing in *. destruct fs; simpl in *; now apply IH.
  - pose proof (update_download_progress_steps pm w task_id wi p speed cf tf
                  cur cfl db tb) as Hs. cbv zeta in Hs.
    pose proof (update_download_progress_eta pm w task_id wi p speed cf tf
                  cur cfl db tb) as He. cbv zeta in He.
    destruct (entering_eta_fields pm (w_now w (w_tick w)) p cfl cf db tb)
      as [Hh Hl]. cbv zeta in Hh, Hl.
    assert (Hhist : _progress_history
              (update_download_progress pm w task_id wi p speed cf tf cur cfl db tb).1
            = history_with (_progress_history pm)
                (Sample (w_now w (w_tick w)) p cf db tb)).
    { rewrite Hs.
      destruct (calculate_eta_frame
                  (entering_eta pm (w_now w (w_tick w)) p cfl cf db tb) p
                  (w_now w (w_tick w))) as (_ & _ & Hf & _).
      cbv zeta in Hf. unfold entering_eta in Hf, Hh.
      destruct (should_update_file _ _ _).1; simpl; now rewrite Hf, Hh. }
    rewrite Hhist in Hlen. rewrite He.
    rewrite calculate_eta_short by now rewrite Hh.
    simpl. rewrite Hl. apply IH.
    apply history_with_length in Hlen. rewrite Hlen. simpl. lia.
Qed.

Lemma calculate_eta_two_samples pm p t p0 p1 c0 c1 :
  _progress_history pm = [Sample 0 p0 c0 0 1000; Sample 10 p1 c1 500 1000] ->
  no_estimate_yet pm -> (0 < p)%Q -> (p < 100)%Q ->
  _calculate_eta pm p t = ("00:10", set_last_eta_seconds 10 pm).
Proof.
  intros Hh Hfresh H0 H100. unfold _calculate_eta. rewrite Hh.
  assert (E0 : Qle_bool p 0 = false)
    by (apply not_true_iff_false; rewrite Qle_bool_iff; now apply Qlt_not_le).
  assert (E1 : Qle_bool 100 p = false)
    by (apply not_true_iff_false; rewrite Qle_bool_iff; now apply Qlt_not_le).
  rewrite E0, E1. simpl.
  destruct Hfresh as [-> | ->]; reflexivity.
Qed.

End Estimator.

(** C8.  With the sample history [(t=0, 0 of 1000 bytes), (t=10, 500 of 1000
    bytes)] and a current progress strictly between 0 and 100, the estimator
    computes a rate of 50 bytes per second and 10 seconds remaining, and
    returns ["00:10"].  The manager is any one the program can be in when
    [update_download_progress] calls the estimator: with two samples no
    earlier estimate exists, so the smoothing step leaves the value alone. *)
Theorem eta_two_samples pm t p cfl cf db tb p0 p1 c0 c1 :
  pm_reachable pm ->
  let oldest := Sample 0 p0 c0 0 1000 in
  let newest := Sample 10 p1 c1 500 1000 in
  let pm' := entering_eta pm t p cfl cf db tb in
  _progress_history pm' = [oldest; newest] ->
  (0 < p)%Q -> (p < 100)%Q ->
  (bytes_per_second oldest newest == 50)%Q /\
  raw_eta_seconds oldest newest = 10 /\
  _calculate_eta pm' p t = ("00:10", set_last_eta_seconds 10 pm').
Proof.
  intros Hreach oldest newest pm' Hh H0 H100.
  split; [reflexivity | split; [reflexivity |]].
  destruct (entering_eta_fields pm t p cfl cf db tb) as [Hh' Hl'].
  cbv zeta in Hh', Hl'. fold pm' in Hh', Hl'.
  apply (calculate_eta_two_samples pm' p t p0 p1 c0 c1 Hh); [| assumption ..].
  unfold no_estimate_yet. rewrite Hl'. apply reachable_no_estimate; [assumption |].
  rewrite Hh in Hh'. symmetry in Hh'. apply history_with_two in Hh'.
  rewrite Hh'. simpl. lia.
Qed.

Lemma eta_two_samples_witness :
  (bytes_per_second (Sample 0 0 0 0 1000) (Sample 10 50 0 500 1000) == 50)%Q /\
  raw_eta_seconds (Sample 0 0 0 0 1000) (Sample 10 50 0 500 1000) = 10 /\
  _calculate_eta (entering_eta one_sample_pm 10 50 [] 0 500 1000) 50 10
  = ("00:10", set_last_eta_seconds 10 (entering_eta one_sample_pm 10 50 [] 0 500 1000)).
Proof.
  apply (eta_two_samples one_sample_pm 10 50 [] 0 500 1000 0 50 0 0).
  - unfold one_sample_pm. apply reach_download, reach_starting, reach_init.
  - reflexivity.
  - reflexivity.
  - reflexivity.
Defined.

(** C3, as the specification words it, fails.  After a forced write at
    progress 10 and a write at 10.75 made because 31 seconds had passed, an
    update three seconds later at progress 11.5 is 0.75 points away from the
    last persisted value, inside the interval and not the first: by the
    specification it is not persisted.  The code persists it, because it
    measures progress from 10, the value of the last forced write. *)
Lemma throttle_reference_counterexample :
  map progress (w_writes after_update_2.2) = [Some 10%float; Some 10.75%float] /\
  claimed_persist 30 (w_writes after_update_2.2) 1034 11.5 = false /\
  persisted after_update_2.2 after_update_3.2 "job" 11.5.
Proof.
  split; [vm_compute; reflexivity | split; [vm_compute; reflexivity |]].
  eexists. split; [unfold writes_since; vm_compute; reflexivity |].
  split; [reflexivity | split; vm_compute; reflexivity].
Qed.

(** ** The dispatchers *)

Section Dispatch.
Import PyStr PyStrFacts.

Lemma contains_spec tok s : contains tok s = true <-> is_substring tok s.
Proof.
  split.
  - induction s as [|a s IH]; simpl.
    + destruct (startswith tok EmptyString) eqn:E; [| discriminate].
      intros _. apply startswith_inv in E as [r E].
      exists EmptyString, r. exact E.
    + destruct (startswith tok (String a s)) eqn:E.
      * intros _. apply startswith_inv in E as [r E].
        exists EmptyString, r. exact E.
      * intros (pre & post & ->)%IH. now exists (String a pre), post.
  - intros (pre & post & ->). induction pre as [|a pre IH]; simpl.
    + destruct tok as [|c tok]; simpl.
      * now destruct post.
      * now rewrite Ascii.eqb_refl, startswith_app.
    + rewrite IH. now destruct (startswith tok _).
Qed.

Lemma is_substring_here tok pre : is_substring tok (pre ++ tok).
Proof. exists pre, EmptyString. now rewrite append_nil_r. Qed.

Lemma is_substring_skip tok a s : is_substring tok s -> is_substring tok (a ++ s).
Proof.
  intros (pre & post & ->). exists (a ++ pre), post. now rewrite append_assoc.
Qed.

Lemma is_substring_prefix tok post : is_substring tok (tok ++ post).
Proof. now exists EmptyString, post. Qed.

End Dispatch.

(** C4, as the code has it.  For every request a dispatcher accepts (it
    starts a background job), the immediate acknowledgement has status
    ["success"] and carries the token
    [{{VCP_ASYNC_RESULT::<plugin>::<task_id>}}] with the fresh task id of the
    job started: for ASMRTools inside the [result] string, for MissAVCrawl as
    the [placeholder] field of a [result] object, and inside its [message]. *)
Theorem ack_carries_placeholder :
  (forall request_data task_id resp job,
      ASMRTools.handle_async_download request_data task_id = (resp, Some job) ->
      resp_status resp = "success" /\ l_task_id job = task_id /\
      exists text,
        resp_result resp = Some (ResultText text) /\
        is_substring ("{{VCP_ASYNC_RESULT::ASMRTools::" ++ task_id ++ "}}") text)
  /\
  (forall request_data task_id fetched_title resp job,
      MissAVCrawl.handle_async_download request_data task_id fetched_title
      = (resp, Some job) ->
      resp_status resp = "success" /\ l_task_id job = task_id /\
      exists message,
        resp_result resp
        = Some (ResultObject message task_id
                  ("{{VCP_ASYNC_RESULT::MissAVCrawl::" ++ task_id ++ "}}")) /\
        is_substring ("{{VCP_ASYNC_RESULT::MissAVCrawl::" ++ task_id ++ "}}") message).
Proof.
  split.
  - intros request_data task_id resp job.
    unfold ASMRTools.handle_async_download.
    destruct (negb _); [discriminate |].
    intros H. pose proof (f_equal fst H) as Hr. pose proof (f_equal snd H) as Hj.
    cbn [fst snd] in Hr, Hj. subst resp. injection Hj as <-.
    split; [reflexivity | split; [reflexivity |]].
    eexists. split; [reflexivity |].
    do 14 apply is_substring_skip. apply is_substring_here.
  - intros request_data task_id fetched_title resp job.
    unfold MissAVCrawl.handle_async_download.
    destruct (MissAVCrawl.url request_data) as [u|]; [| discriminate].
    destruct (negb _); [discriminate |].
    intros H. pose proof (f_equal fst H) as Hr. pose proof (f_equal snd H) as Hj.
    cbn [fst snd] in Hr, Hj. subst resp. injection Hj as <-.
    split; [reflexivity | split; [reflexivity |]].
    eexists. split; [reflexivity |].
    do 5 apply is_substring_skip. apply is_substring_prefix.
Qed.

(** C4, as the specification words it, fails.  The acknowledgement of
    ASMRTools does not contain the token [{{ASYNC_RESULT::ASMRTools::job-1}}]
    (its token starts with [{{VCP_ASYNC_RESULT::]), and the [result] of
    MissAVCrawl is an object, not a string. *)
Lemma ack_token_counterexample :
  (exists text,
      resp_result (ASMRTools.handle_async_download asmr_request "job-1").1
      = Some (ResultText text) /\
      ~ is_substring (claimed_token "ASMRTools" "job-1") text)
  /\
  (forall text,
      resp_result
        (MissAVCrawl.handle_async_download missav_request "job-1" (Some "Title")).1
      <> Some (ResultText text)).
Proof.
  split.
  - eexists. split; [reflexivity |].
    intros H%contains_spec. vm_compute in H. discriminate.
  - intros text. discriminate.
Qed.

(** ** Re-runs *)

Section Rerun.
Context {State : Type}.
Variable cb : option (progress_info -> world * State -> world * State).

Lemma skip_existing fi download_dir w s :
  fi_mediaDownloadUrl fi <> EmptyString ->
  exists_nonempty (w_fs w) (full_file_path download_dir fi) = true ->
  download_single_file cb fi download_dir (w, s)
  = (true, call_back cb (skipped_event (w_fs w) download_dir fi) (w, s)).
Proof.
  intros Hurl Hex. unfold download_single_file.
  destruct (fi_mediaDownloadUrl fi); [congruence |].
  cbn [str_nonempty negb]. now rewrite Hex.
Qed.

Lemma skip_all download_dir fs0 files :
  keeps_files cb ->
  all_have_url files -> fully_populated fs0 download_dir files ->
  forall acc,
    w_fs (tl_state acc).1 = fs0 ->
    let ws' :=
      fold_left (fun ws fi => call_back cb (skipped_event fs0 download_dir fi) ws)
        files (tl_state acc) in
    fold_left (download_one cb download_dir) files acc
    = {| tl_completed := (tl_completed acc ++ map fi_filename files)%list;
         tl_failed := tl_failed acc; tl_state := ws' |}
    /\ w_fs ws'.1 = fs0
    /\ w_requests ws'.1 = w_requests (tl_state acc).1
    /\ w_received ws'.1 = w_received (tl_state acc).1.
Proof.
  intros Hcb. induction files as [|fi files IH]; intros Hurl Hpop acc Hfs.
  - simpl. rewrite app_nil_r. now destruct acc.
  - assert (Hurl' : all_have_url files) by (intros x Hx; apply Hurl; now right).
    assert (Hpop' : fully_populated fs0 download_dir files)
      by (intros x Hx; apply Hpop; now right).
    destruct acc as [completed failed [w s]]. simpl in Hfs. subst fs0.
    cbn [fold_left]. unfold download_one at 2. cbn [tl_state].
    rewrite skip_existing by (apply Hurl || apply Hpop; now left).
    cbn [tl_completed tl_failed].
    destruct (Hcb (skipped_event (w_fs w) download_dir fi) (w, s))
      as (Hf & Hr & Hv). cbv zeta in Hf, Hr, Hv. cbn [fst] in Hf, Hr, Hv.
    specialize (IH Hurl' Hpop'
                  {| tl_completed := (completed ++ [fi_filename fi])%list;
                     tl_failed := failed;
                     tl_state := call_back cb
                                   (skipped_event (w_fs w) download_dir fi) (w, s) |}
                  Hf).
    cbv zeta in IH. cbn [tl_completed tl_failed tl_state] in IH.
    destruct IH as (IH1 & IH2 & IH3 & IH4).
    rewrite IH1, <- app_assoc. cbn [tl_state fst].
    rewrite IH3, IH4, Hr, Hv. tauto.
Qed.

End Rerun.

(** C7, as the code has it.  When every selected item carries a download URL
    and has its file in the destination directory with a size above zero,
    [download_tracks] does nothing but report one [skipped] event per item, in
    order: every item is counted as a success, [success_count] is the total,
    no request goes to the file server and no byte is received.  (The callback
    is any one that leaves the files and the network alone, as the one of
    [perform_download_sync] does.) *)
Theorem rerun_skips_everything {State : Type}
  (cb : option (progress_info -> world * State -> world * State))
  (config : ASMRConfig) (tracks : list track) (wi : work_info)
  (target_path : string) (w : world) (s : State) :
  let files := selected_files tracks target_path in
  let dir := download_dir_of config wi in
  keeps_files cb ->
  all_have_url files ->
  fully_populated (w_fs w) dir files ->
  let r := download_tracks cb config tracks wi target_path (w, s) in
  r.2 = fold_left (fun ws fi => call_back cb (skipped_event (w_fs w) dir fi) ws)
          files (w, s) /\
  completed_downloads r.1 = map fi_filename files /\
  failed_downloads r.1 = [] /\
  success_count r.1 = total_tracks r.1 /\
  failed_count r.1 = 0 /\
  w_requests r.2.1 = w_requests w /\
  w_received r.2.1 = w_received w /\
  w_fs r.2.1 = w_fs w.
Proof.
  intros files dir Hcb Hurl Hpop r.
  destruct (skip_all cb dir (w_fs w) files Hcb Hurl Hpop
              {| tl_completed := []; tl_failed := []; tl_state := (w, s) |} eq_refl)
    as (Hfold & Hfs & Hreq & Hrecv).
  cbv zeta in Hfold. cbn [tl_completed tl_failed tl_state app] in *.
  subst r. unfold download_tracks. cbv zeta. fold files. fold dir.
  rewrite Hfold. cbn [fst snd tl_completed tl_failed tl_state completed_downloads
                      failed_downloads success_count total_tracks failed_count].
  rewrite length_map. simpl length. tauto.
Qed.

Lemma rerun_skips_everything_witness :
  let files := selected_files one_file_manifest EmptyString in
  let dir := download_dir_of plain_config plain_work in
  all_have_url files /\ fully_populated (w_fs populated_world) dir files /\
  let r := download_tracks (State := unit) None plain_config one_file_manifest
             plain_work EmptyString (populated_world, tt) in
  success_count r.1 = total_tracks r.1 /\ failed_count r.1 = 0 /\
  w_requests r.2.1 = [] /\ w_received r.2.1 = 0.
Proof.
  intros files dir.
  assert (Hk : keeps_files (State := unit) None) by (intros info ws; simpl; tauto).
  assert (Hu : all_have_url files) by (intros fi [<-|[]]; discriminate).
  assert (Hp : fully_populated (w_fs populated_world) dir files)
    by (intros fi [<-|[]]; vm_compute; reflexivity).
  split; [exact Hu | split; [exact Hp |]].
  destruct (rerun_skips_everything None plain_config one_file_manifest plain_work
              EmptyString populated_world tt Hk Hu Hp)
    as (_ & _ & _ & Hs & Hf & Hr & Hv & _).
  cbv zeta. tauto.
Defined.

(** C7, as the specification words it, fails.  A manifest whose only file has
    no download URL, run against a directory that holds that file with 100
    bytes: the item is not skipped but counted as failed, and
    [success_count] is 0 of 1. *)
Lemma rerun_without_url_counterexample :
  let files := selected_files no_url_manifest EmptyString in
  let dir := download_dir_of plain_config plain_work in
  fully_populated (w_fs populated_world) dir files /\
  let r := download_tracks (State := unit) None plain_config no_url_manifest
             plain_work EmptyString (populated_world, tt) in
  success_count r.1 = 0 /\ total_tracks r.1 = 1 /\
  completed_downloads r.1 = [] /\ failed_downloads r.1 = ["a.mp3"].
Proof.
  intros files dir. split.
  - intros fi [<-|[]]. vm_compute. reflexivity.
  - cbv zeta. repeat split; reflexivity.
Qed.

(** ** What a job writes *)

Section Writes.
Context {State : Type}.
Implicit Types (cb : option (progress_info -> world * State -> world * State))
  (P : snapshot -> Prop).

Lemma extends_refl P w w' : w_writes w' = w_writes w -> extends P w w'.
Proof.
  intros H. exists []. split; [| constructor].
  unfold writes_since. now rewrite app_nil_r.
Qed.

Lemma extends_trans P w1 w2 w3 :
  extends P w1 w2 -> extends P w2 w3 -> extends P w1 w3.
Proof.
  intros (l1 & H1 & F1) (l2 & H2 & F2). exists (l1 ++ l2)%list.
  split; [| now apply Forall_app].
  unfold writes_since in *. now rewrite H2, H1, app_assoc.
Qed.

Lemma write_chunk_extends P cb filename path total_size start_time tr chunk :
  callback_extends P cb ->
  extends P (tr_state tr).1
    (tr_state (write_chunk cb filename path total_size start_time tr chunk)).1.
Proof.
  intros Hcb. unfold write_chunk.
  destruct (0 <? chunk)%Z; [| now apply extends_refl].
  destruct (tr_state tr) as [w s] eqn:E. cbn [fst].
  destruct (time_time _) as [t w1] eqn:Et.
  assert (H1 : extends P w w1)
    by (apply extends_refl; injection Et as _ <-; reflexivity).
  destruct cb as [f|]; cbn [tr_state fst]; [| exact H1].
  destruct (_ <=? _)%float; cbn [tr_state]; [| exact H1].
  eapply extends_trans; [exact H1 |]. apply (Hcb _ (w1, s)).
Qed.

Lemma chunks_extend P cb filename path total_size start_time chunks :
  callback_extends P cb ->
  forall tr,
    extends P (tr_state tr).1
      (tr_state (fold_left (write_chunk cb filename path total_size start_time)
                   chunks tr)).1.
Proof.
  intros Hcb. induction chunks as [|c chunks IH]; intros tr; simpl.
  - now apply extends_refl.
  - eapply extends_trans; [| apply IH]. now apply write_chunk_extends.
Qed.

Lemma download_single_file_extends P cb fi download_dir ws :
  callback_extends P cb ->
  extends P ws.1 (download_single_file cb fi download_dir ws).2.1.
Proof.
  intros Hcb. unfold download_single_file.
  destruct (negb _); [now apply extends_refl |].
  destruct ws as [w s].
  destruct (exists_nonempty _ _); [apply (Hcb _ (w, s)) |].
  cbn [fst snd].
  destruct (w_fetch _ _) as [|code len chunks breaks];
    [now apply extends_refl |].
  destruct (negb _); [now apply extends_refl |].
  destruct (time_time _) as [t w1] eqn:Et.
  assert (H1 : extends P w w1)
    by (apply extends_refl; injection Et as _ <-; reflexivity).
  set (tr0 := {| downloaded_size := 0; last_progress_time := 0%float;
                 tr_state := (set_fs (<[_ := 0]> (w_fs w1)) w1, s) |}).
  assert (H2 : extends P w (tr_state tr0).1)
    by (eapply extends_trans; [exact H1 | now apply extends_refl]).
  pose proof (chunks_extend P cb (fi_filename fi)
                (full_file_path download_dir fi) len t chunks Hcb tr0) as H3.
  destruct breaks; cbn [fst snd].
  - eapply extends_trans; [exact H2 | exact H3].
  - eapply extends_trans; [exact H2 |].
    eapply extends_trans; [exact H3 |]. apply (Hcb _ (tr_state _)).
Qed.

(** The loop of [download_tracks]: every item is attempted once, its name
    goes to one of the two lists, and the writes are those of the callback. *)
Lemma download_loop P cb download_dir files :
  callback_extends P cb ->
  forall acc,
    let acc' := fold_left (download_one cb download_dir) files acc in
    extends P (tl_state acc).1 (tl_state acc').1 /\
    exists completed failed,
      tl_completed acc' = (tl_completed acc ++ completed)%list /\
      tl_failed acc' = (tl_failed acc ++ failed)%list /\
      Permutation (completed ++ failed) (map fi_filename files).
Proof.
  intros Hcb. induction files as [|fi files IH]; intros acc; cbn [fold_left].
  - split; [now apply extends_refl |]. exists [], [].
    now rewrite !app_nil_r.
  - destruct (IH (download_one cb download_dir acc fi))
      as (He & completed & failed & Hc & Hf & Hp).
    pose proof (download_single_file_extends P cb fi download_dir (tl_state acc) Hcb)
      as H1.
    unfold download_one in *.
    destruct (download_single_file cb fi download_dir (tl_state acc))
      as [success ws]. cbn [fst snd] in H1.
    destruct success; cbn [tl_state tl_completed tl_failed] in *.
    + split; [eapply extends_trans; eassumption |].
      exists (fi_filename fi :: completed), failed.
      rewrite Hc, Hf, <- app_assoc. repeat split. simpl. now constructor.
    + split; [eapply extends_trans; eassumption |].
      exists completed, (fi_filename fi :: failed).
      rewrite Hc, Hf, <- app_assoc. repeat split.
      simpl. rewrite <- Hp. symmetry. apply Permutation_middle.
Qed.

End Writes.

Section JobWrites.

Lemma update_download_progress_writes pm w task_id wi p speed cf tf cur cfl db tb :
  let r := update_download_progress pm w task_id wi p speed cf tf cur cfl db tb in
  writes_since w r.2 [] \/
  exists snap,
    writes_since w r.2 [snap] /\ requestId snap = task_id /\
    status snap = "Downloading" /\ progress snap = Some p /\
    downloadedBytes snap = Some db /\ totalBytes snap = Some tb /\
    completedFiles snap = Some cf /\ totalFiles snap = Some tf.
Proof.
  cbv zeta.
  rewrite (update_download_progress_steps pm w task_id wi p speed cf tf cur cfl db tb).
  cbv zeta. destruct (should_update_file _ _ _).1; cbn [snd].
  - right. eexists. split;
      [unfold writes_since; rewrite update_progress_writes; reflexivity |].
    simpl. tauto.
  - left. unfold writes_since. simpl. now rewrite app_nil_r.
Qed.

Lemma progress_callback_extends task_id wi file_sizes total_bytes total_files :
  callback_extends (downloading_snapshot task_id total_bytes total_files)
    (Some (progress_callback task_id wi file_sizes total_bytes total_files)).
Proof.
  intros info [w tk]. cbn [call_back fst]. unfold progress_callback.
  repeat match goal with
         | |- context [if ?b then _ else _] => destruct b
         end; cbv beta iota zeta.
  all: match goal with
  | |- context [update_download_progress ?pm ?w ?t ?i ?p ?sp ?cf ?tf ?cur ?cfl ?db ?tb] =>
      pose proof (update_download_progress_writes pm w t i p sp cf tf cur cfl db tb)
        as H;
      destruct (update_download_progress pm w t i p sp cf tf cur cfl db tb)
        as [pm' w'];
      cbv zeta in H; cbn [fst snd] in *;
      destruct H as [H | (snap & H & Hid & Hst & Hp & Hdb & Htb & Hcf & Htf)];
      [ exists []; split; [exact H | constructor]
      | exists [snap]; split; [exact H |]; constructor; [| constructor];
        split; [exact Hid | split; [exact Hst |]];
        exists db, cf; tauto ]
  end.
Qed.

(** The callback of the job leaves the files and the network alone. *)
Lemma progress_callback_keeps_files task_id wi file_sizes total_bytes total_files :
  keeps_files (Some (progress_callback task_id wi file_sizes total_bytes total_files)).
Proof.
  intros info [w tk]. cbn [call_back fst]. unfold progress_callback.
  repeat match goal with
         | |- context [if ?b then _ else _] => destruct b
         end; cbv beta iota zeta.
  all: match goal with
       | |- context [update_download_progress ?pm ?w ?t ?i ?p ?sp ?cf ?tf ?cur ?cfl ?db ?tb] =>
           rewrite (update_download_progress_steps pm w t i p sp cf tf cur cfl db tb)
       end; cbv zeta.
  all: destruct (should_update_file _ _ _).1; cbn [fst snd]; simpl; tauto.
Qed.

Lemma download_phase_writes config pm task_id work_id target_path wi tracks w :
  let r := download_phase config pm task_id work_id target_path wi tracks w in
  exists prep ds term total_bytes total_files completed failed,
    writes_since w r.2 ([prep] ++ ds ++ [term]) /\
    (requestId prep = task_id /\ status prep = "Preparing" /\
     progress prep = Some 5%float) /\
    Forall (downloading_snapshot task_id total_bytes total_files) ds /\
    requestId term = task_id /\ status term = r_status r.1 /\
    Permutation (completed ++ failed)
      (map fi_filename (selected_files tracks target_path)) /\
    (completed <> [] ->
     r_status r.1 = "Succeed" /\ progress term = Some 100%float /\
     completedFilesList term = Some completed /\
     failedFilesList term = Some failed /\
     r_completedFiles r.1 = Some completed /\ r_failedFiles r.1 = Some failed) /\
    (completed = [] ->
     r_status r.1 = "Failed" /\ progress term = None /\
     r_failedFiles r.1 = Some failed).
Proof.
  cbv zeta. unfold download_phase.
  destruct (update_preparing _ _ _ _ _ _) as [pm1 w1] eqn:Eprep.
  destruct (size_table _ _) as [file_sizes total_bytes].
  set (total_files := Z.of_nat (length (selected_files tracks target_path))).
  set (cb := Some (progress_callback task_id wi file_sizes total_bytes total_files)).
  set (tk := {| tk_pm := pm1 |}).
  unfold download_tracks. cbv zeta.
  destruct (download_loop (downloading_snapshot task_id total_bytes total_files)
              cb (download_dir_of config wi) (selected_files tracks target_path)
              (progress_callback_extends _ _ _ _ _)
              {| tl_completed := []; tl_failed := []; tl_state := (w1, tk) |})
    as ((ds & Hds & Fds) & completed & failed & Hc & Hf & Hperm).
  cbn [tl_completed tl_failed tl_state fst app] in *.
  set (acc := fold_left _ _ _) in *.
  destruct (tl_state acc) as [w2 tk2] eqn:Eacc. cbn [fst] in Hds.
  assert (Hw1 : exists prep,
             writes_since w w1 [prep] /\ requestId prep = task_id /\
             status prep = "Preparing" /\ progress prep = Some 5%float).
  { unfold update_preparing in Eprep. injection Eprep as _ <-.
    eexists. split; [unfold writes_since; rewrite update_progress_writes;
                     reflexivity |]. simpl. tauto. }
  destruct Hw1 as (prep & Hw1 & Hprep).
  cbn [success_count failed_count completed_downloads failed_downloads
       total_tracks work_title download_dir].
  rewrite Hc, Hf.
  destruct completed as [|c completed].
  - simpl length. change (0 <? Z.of_nat 0)%Z with false. cbv iota. cbn [fst snd].
    eexists prep, ds, _, total_bytes, total_files, [], failed.
    split.
    { unfold writes_since in *. unfold update_failed.
      rewrite update_progress_writes, Hds, Hw1, <- !app_assoc. reflexivity. }
    split; [exact Hprep |]. split; [exact Fds |].
    simpl. repeat split; try tauto; try congruence.
  - replace (0 <? Z.of_nat (length (c :: completed)))%Z with true
      by (symmetry; apply Z.ltb_lt; simpl length; lia).
    cbv iota. cbn [fst snd].
    eexists prep, ds, _, total_bytes, total_files, (c :: completed), failed.
    split.
    { unfold writes_since in *. unfold update_success.
      rewrite update_progress_writes, Hds, Hw1, <- !app_assoc. reflexivity. }
    split; [exact Hprep |]. split; [exact Fds |].
    simpl. repeat split; try tauto; try congruence.
Qed.

End JobWrites.

Section JobCases.

(** A failure written by [update_failed]. *)
Lemma update_failed_writes task_id why wi w :
  exists term,
    writes_since w (update_failed task_id why wi w) [term] /\
    requestId term = task_id /\ status term = "Failed" /\ progress term = None.
Proof.
  eexists. split;
    [unfold writes_since, update_failed; rewrite update_progress_writes;
     reflexivity |].
  simpl. tauto.
Qed.

Lemma update_failed_requests task_id why wi w :
  w_requests (update_failed task_id why wi w) = w_requests w.
Proof. reflexivity. Qed.

Lemma update_success_writes task_id wi dr w :
  exists term,
    writes_since w (update_success task_id wi dr w) [term] /\
    requestId term = task_id /\ status term = "Succeed" /\
    progress term = Some 100%float.
Proof.
  eexists. split;
    [unfold writes_since, update_success; rewrite update_progress_writes;
     reflexivity |].
  simpl. tauto.
Qed.

Lemma update_starting_writes pm task_id work_id w :
  exists start,
    writes_since w (update_starting pm task_id work_id w).2 [start] /\
    requestId start = task_id /\ status start = "Starting" /\
    progress start = Some 0%float.
Proof.
  eexists. split; [unfold writes_since; reflexivity |].
  simpl. tauto.
Qed.

Lemma update_starting_requests pm task_id work_id w :
  w_requests (update_starting pm task_id work_id w).2 = w_requests w.
Proof. reflexivity. Qed.

(** After [Starting]: an early failure with one [Failed] write, an exception
    with no write yet, or the download phase. *)
Lemma after_starting_cases up config pm task_id work_id target_path w :
  let r := after_starting up config pm task_id work_id target_path w in
  (exists res term,
      r.1 = inr res /\ writes_since w r.2 [term] /\ requestId term = task_id /\
      status term = "Failed" /\ progress term = None /\ r_status res = "Failed" /\
      w_requests r.2 = w_requests w)
  \/ (exists e, r = (inl e, w))
  \/ (exists wi tracks,
        manifest up = tracks /\
        r = (inr (download_phase config pm task_id work_id target_path wi tracks w).1,
             (download_phase config pm task_id work_id target_path wi tracks w).2)).
Proof.
  cbv zeta. unfold after_starting.
  assert (Hfail : forall why wi0,
             (exists res term,
                 (inr (failed_result task_id why None) : string + job_result,
                  update_failed task_id why wi0 w).1 = inr res /\
                 writes_since w
                   (inr (failed_result task_id why None) : string + job_result,
                    update_failed task_id why wi0 w).2 [term] /\
                 requestId term = task_id /\ status term = "Failed" /\
                 progress term = None /\ r_status res = "Failed" /\
                 w_requests
                   (inr (failed_result task_id why None) : string + job_result,
                    update_failed task_id why wi0 w).2 = w_requests w)).
  { intros why wi0.
    destruct (update_failed_writes task_id why wi0 w) as (term & H1 & H2).
    eexists _, term. cbn [fst snd]. split; [reflexivity |].
    split; [exact H1 |]. simpl. tauto. }
  destruct (negb (validate config)); [left; apply Hfail |].
  destruct (login up) as [e|code body]; [right; left; now exists e |].
  destruct (negb _); [left; apply Hfail |].
  destruct body as [e|[token|]];
    [right; left; now exists e | | right; left; now eexists].
  destruct (work up) as [e|code' body']; [right; left; now exists e |].
  destruct (negb _); [left; apply Hfail |].
  destruct body' as [e|wi]; [right; left; now exists e |].
  destruct (tracks_of_work up) as [e|code'' body''] eqn:Et;
    [right; left; now exists e |].
  destruct (negb _); [left; apply Hfail |].
  destruct body'' as [e|tracks]; [right; left; now exists e |].
  right; right. exists wi, tracks.
  split; [unfold manifest; now rewrite Et |].
  now destruct (download_phase _ _ _ _ _ _ _ _).
Qed.

(** The three courses of a job: no manager and no write; [Starting] and an
    early [Failed] before any file is requested; [Starting] and the download
    phase. *)
Lemma perform_cases up task_id work_id quality target_path w :
  let r := perform_download_sync up task_id work_id quality target_path w in
  if manager_built up then
    exists start w1,
      writes_since w w1 [start] /\ requestId start = task_id /\
      status start = "Starting" /\ progress start = Some 0%float /\
      ((exists term,
           writes_since w1 r.2 [term] /\ requestId term = task_id /\
           status term = "Failed" /\ progress term = None /\
           r_status r.1 = "Failed" /\ w_requests r.2 = w_requests w)
       \/ (exists config pm wi tracks,
             manifest up = tracks /\
             r = download_phase config pm task_id work_id target_path wi tracks w1))
  else r.2 = w /\ r_status r.1 = "Failed".
Proof.
  cbv zeta. unfold perform_download_sync, manager_built.
  destruct (results_dir_mkdir up); [split; reflexivity |].
  destruct (from_env (os_environ up)) as [e|config]; [split; reflexivity |].
  destruct (update_starting_writes (ProgressManager_init config) task_id work_id w)
    as (start & Hs & Hstart).
  pose proof (update_starting_requests (ProgressManager_init config) task_id work_id w)
    as Hq.
  destruct (update_starting _ _ _ _) as [pm w1]. cbn [snd] in Hs, Hq.
  exists start, w1. split; [exact Hs |].
  split; [tauto | split; [tauto | split; [tauto |]]].
  pose proof (after_starting_cases up config pm task_id work_id target_path w1)
    as Hc. cbv zeta in Hc.
  destruct (after_starting _ _ _ _ _ _ _) as [[e|res] w2]; cbn [fst snd] in *.
  - destruct Hc as [(res & term & Hr & _) | [(e' & He) | (wi & tracks & _ & He)]];
      try discriminate.
    injection He as <- <-. left.
    destruct (update_failed_writes task_id e None w2) as (term & H1 & H2).
    exists term. split; [exact H1 |].
    rewrite update_failed_requests, Hq. simpl. tauto.
  - destruct Hc as [(res' & term & Hr & Hw & H)
                   | [(e' & He) | (wi & tracks & Hm & He)]];
      try discriminate.
    + injection Hr as ->. left. exists term.
      destruct H as (? & ? & ? & ? & Hq'). rewrite Hq', Hq. tauto.
    + right. exists config, pm, wi, tracks. split; [exact Hm |].
      injection He as -> ->.
      now destruct (download_phase _ _ _ _ _ _ _ _).
Qed.

End JobCases.

(** ** Progress values that are not negative *)

(** The quotient of an integer that is not negative by a positive one, and
    its product with 100, are floats that are not negative: rounding keeps
    the sign. *)
Section FloatSigns.

Lemma shr_1_nonneg mrs : 0 <= shr_m mrs -> 0 <= shr_m (shr_1 mrs).
Proof.
  destruct mrs as [m r s]. cbn [shr_m]. intros H.
  destruct m as [|p|p]; [cbn; lia | destruct p; cbn; lia | lia].
Qed.

Lemma iter_shr_1_nonneg p :
  forall mrs, 0 <= shr_m mrs -> 0 <= shr_m (SpecFloat.iter_pos shr_1 p mrs).
Proof.
  induction p as [p IH|p IH|]; intros mrs H; cbn [SpecFloat.iter_pos].
  - apply IH, IH, shr_1_nonneg, H.
  - apply IH, IH, H.
  - apply shr_1_nonneg, H.
Qed.

Lemma shr_nonneg mrs e n : 0 <= shr_m mrs -> 0 <= shr_m (shr mrs e n).1.
Proof.
  intros H. unfold shr. destruct n; cbn [fst]; [exact H | | exact H].
  apply iter_shr_1_nonneg, H.
Qed.

Lemma shr_fexp_nonneg m e l : 0 <= m -> 0 <= shr_m (shr_fexp prec emax m e l).1.
Proof.
  intros H. unfold shr_fexp. apply shr_nonneg.
  destruct l as [|[]]; exact H.
Qed.

Lemma round_nearest_even_nonneg m l : 0 <= m -> 0 <= round_nearest_even m l.
Proof.
  intros H. unfold round_nearest_even.
  destruct l as [|[]]; [lia | destruct (Z.even m); lia | lia | lia].
Qed.

Lemma binary_round_aux_nonneg mx ex lx :
  0 <= mx -> sf_nonneg (binary_round_aux prec emax false mx ex lx).
Proof.
  intros H. unfold binary_round_aux.
  pose proof (shr_fexp_nonneg mx ex lx H) as H1.
  destruct (shr_fexp prec emax mx ex lx) as [mrs' e']. cbn [fst] in H1.
  pose proof (shr_fexp_nonneg _ e' loc_Exact
                (round_nearest_even_nonneg _ (loc_of_shr_record mrs') H1)) as H2.
  destruct (shr_fexp prec emax _ e' loc_Exact) as [mrs'' e'']. cbn [fst] in H2.
  destruct (shr_m mrs''); [exact I | | lia].
  destruct (_ <=? _); reflexivity.
Qed.

Lemma binary_round_nonneg mx ex : sf_nonneg (binary_round prec emax false mx ex).
Proof.
  unfold binary_round. destruct (shl_align _ _ _) as [mz ez].
  apply binary_round_aux_nonneg. lia.
Qed.

Lemma binary_normalize_nonneg m e :
  0 <= m -> sf_nonneg (binary_normalize prec emax m e false).
Proof.
  intros H. unfold binary_normalize.
  destruct m; [exact I | apply binary_round_nonneg | lia].
Qed.

Lemma SFldexp_nonneg f e : sf_nonneg f -> sf_nonneg (SFldexp prec emax f e).
Proof.
  destruct f as [| | |s m ex]; cbn [SFldexp sf_nonneg]; try tauto.
  intros ->. apply binary_round_nonneg.
Qed.

Lemma SF2Prim_nonneg x : sf_nonneg x -> sf_nonneg (Prim2SF (SF2Prim x)).
Proof.
  destruct x as [s|s| |s m e]; cbn [sf_nonneg].
  - intros _. destruct s; vm_compute; exact I.
  - intros ->. vm_compute. reflexivity.
  - tauto.
  - intros ->. cbn [SF2Prim]. cbv zeta.
    rewrite Z_ldexp_spec, of_uint63_spec.
    apply SFldexp_nonneg, binary_normalize_nonneg.
    apply Uint63.to_Z_bounded.
Qed.

Lemma SFdiv_nonneg a b :
  0 <= a -> 0 < b -> sf_nonneg (SFdiv prec emax (sf_of_Z a) (sf_of_Z b)).
Proof.
  intros Ha Hb. destruct b as [|pb|pb]; [lia | | lia].
  destruct a as [|pa|pa]; [exact I | | lia].
  cbn [sf_of_Z SFdiv xorb].
  destruct (SFdiv_core_binary prec emax (Z.pos pa) 0 (Z.pos pb) 0) as [[mz ez] lz] eqn:E.
  apply binary_round_aux_nonneg.
  unfold SFdiv_core_binary in E. cbv zeta in E.
  match type of E with
  | (let '(q, r) := Z.div_eucl ?m ?d in _) = _ =>
      assert (Hm : 0 <= m) by (destruct (_ - _ - _); [lia | apply Z.shiftl_nonneg; lia | lia]);
      pose proof (Z.div_pos m d Hm ltac:(lia)) as Hq;
      unfold Z.div in Hq; destruct (Z.div_eucl m d) as [q r]
  end.
  injection E as <- _ _. exact Hq.
Qed.

Lemma int_truediv_nonneg a b :
  0 <= a -> 0 < b -> sf_nonneg (Prim2SF (int_truediv a b)).
Proof. intros Ha Hb. apply SF2Prim_nonneg, SFdiv_nonneg; assumption. Qed.

Lemma times_100_nonneg x :
  sf_nonneg (Prim2SF x) -> sf_nonneg (Prim2SF (x * 100)%float).
Proof.
  rewrite mul_spec. unfold SF64mul.
  replace (Prim2SF 100) with (S754_finite false 7036874417766400 (-46))
    by (vm_compute; reflexivity).
  destruct (Prim2SF x) as [s|s| |s m e]; cbn [sf_nonneg SFmul]; try tauto.
  - intros ->. reflexivity.
  - intros ->. cbn [xorb]. apply binary_round_aux_nonneg. lia.
Qed.

Lemma leb_zero y : sf_nonneg (Prim2SF y) -> (0 <=? y)%float = true.
Proof.
  rewrite leb_spec.
  replace (Prim2SF 0) with (S754_zero false) by (vm_compute; reflexivity).
  destruct (Prim2SF y) as [s|s| |s m e]; cbn [sf_nonneg]; try tauto.
  - intros ->. reflexivity.
  - intros ->. reflexivity.
Qed.

Lemma overall_progress_nonneg tb tf db cf :
  0 <= db -> 0 <= cf -> (0 <=? overall_progress tb tf db cf)%float = true.
Proof.
  intros Hdb Hcf. unfold overall_progress.
  destruct (0 <? tb) eqn:Etb.
  - apply leb_zero, times_100_nonneg, int_truediv_nonneg; [exact Hdb | now apply Z.ltb_lt].
  - destruct (0 <? tf) eqn:Etf; [| reflexivity].
    apply leb_zero, times_100_nonneg, int_truediv_nonneg; [exact Hcf | now apply Z.ltb_lt].
Qed.

End FloatSigns.

(** The downloader hands on what the callback keeps. *)
Section Bounds.
Context {State : Type}.
Implicit Types (cb : option (progress_info -> world * State -> world * State))
  (P : snapshot -> Prop) (I : State -> Prop).

Lemma write_chunk_invariant I P cb filename path total_size start_time tr chunk :
  callback_keeps I P cb ->
  0 <= downloaded_size tr -> I (tr_state tr).2 ->
  let tr' := write_chunk cb filename path total_size start_time tr chunk in
  extends P (tr_state tr).1 (tr_state tr').1 /\ I (tr_state tr').2 /\
  0 <= downloaded_size tr'.
Proof.
  intros Hcb Hd Hi. cbv zeta. unfold write_chunk.
  destruct (0 <? chunk)%Z eqn:Ec; [| split; [now apply extends_refl | tauto]].
  apply Z.ltb_lt in Ec.
  destruct (tr_state tr) as [w s] eqn:E. cbn [fst snd] in *.
  destruct (time_time _) as [t w1] eqn:Et.
  assert (H1 : extends P w w1)
    by (apply extends_refl; injection Et as _ <-; reflexivity).
  destruct cb as [f|]; cbn [tr_state downloaded_size fst snd];
    [| split; [exact H1 | split; [exact Hi | lia]]].
  destruct (_ <=? _)%float; cbn [tr_state downloaded_size fst snd];
    [| split; [exact H1 | split; [exact Hi | lia]]].
  match goal with
  | |- context [f ?info (w1, s)] =>
      destruct (Hcb info (w1, s)) as [He Hi']; [cbn; lia | exact Hi |]
  end.
  split; [eapply extends_trans; [exact H1 | exact He] |].
  split; [exact Hi' | lia].
Qed.

Lemma chunks_invariant I P cb filename path total_size start_time chunks :
  callback_keeps I P cb ->
  forall tr,
    0 <= downloaded_size tr -> I (tr_state tr).2 ->
    let tr' := fold_left (write_chunk cb filename path total_size start_time)
                 chunks tr in
    extends P (tr_state tr).1 (tr_state tr').1 /\ I (tr_state tr').2 /\
    0 <= downloaded_size tr'.
Proof.
  intros Hcb. induction chunks as [|c chunks IH]; intros tr Hd Hi; simpl.
  - split; [now apply extends_refl | tauto].
  - destruct (write_chunk_invariant I P cb filename path total_size start_time tr c
                Hcb Hd Hi) as (H1 & H2 & H3).
    destruct (IH _ H3 H2) as (H4 & H5 & H6).
    split; [eapply extends_trans; eassumption | tauto].
Qed.

Lemma download_single_file_invariant I P cb fi download_dir ws :
  callback_keeps I P cb -> I ws.2 ->
  let r := download_single_file cb fi download_dir ws in
  extends P ws.1 r.2.1 /\ I r.2.2.
Proof.
  intros Hcb Hi. cbv zeta. unfold download_single_file.
  destruct (negb _); [split; [now apply extends_refl | exact Hi] |].
  destruct ws as [w s]. cbn [fst snd] in Hi.
  destruct (exists_nonempty _ _) eqn:Ex.
  { cbn [fst snd]. apply (Hcb _ (w, s)); [| exact Hi].
    cbn. unfold exists_nonempty in Ex.
    destruct (w_fs w !! _) as [sz|]; [| discriminate].
    apply Z.ltb_lt in Ex. simpl. lia. }
  cbn [fst snd].
  destruct (w_fetch _ _) as [|code len chunks breaks];
    [split; [now apply extends_refl | exact Hi] |].
  destruct (negb _); [split; [now apply extends_refl | exact Hi] |].
  destruct (time_time _) as [t w1] eqn:Et.
  assert (H1 : extends P w w1)
    by (apply extends_refl; injection Et as _ <-; reflexivity).
  set (tr0 := {| downloaded_size := 0; last_progress_time := 0%float;
                 tr_state := (set_fs (<[_ := 0]> (w_fs w1)) w1, s) |}).
  assert (H2 : extends P w (tr_state tr0).1)
    by (eapply extends_trans; [exact H1 | now apply extends_refl]).
  destruct (chunks_invariant I P cb (fi_filename fi)
              (full_file_path download_dir fi) len t chunks Hcb tr0)
    as (H3 & H4 & H5); [cbn; lia | exact Hi |].
  destruct breaks; cbn [fst snd].
  - split; [eapply extends_trans; [exact H2 | exact H3] | exact H4].
  - match goal with
    | |- context [call_back cb ?info ?ws'] =>
        destruct (Hcb info ws') as [H6 H7]; [exact H5 | exact H4 |]
    end.
    split; [| exact H7].
    eapply extends_trans; [exact H2 |].
    eapply extends_trans; [exact H3 | exact H6].
Qed.

Lemma download_loop_invariant I P cb download_dir files :
  callback_keeps I P cb ->
  forall acc,
    I (tl_state acc).2 ->
    extends P (tl_state acc).1
      (tl_state (fold_left (download_one cb download_dir) files acc)).1.
Proof.
  intros Hcb. induction files as [|fi files IH]; intros acc Hi; cbn [fold_left].
  - now apply extends_refl.
  - destruct (download_single_file_invariant I P cb fi download_dir (tl_state acc)
                Hcb Hi) as [H1 H2].
    eapply extends_trans; [| apply IH].
    + unfold download_one.
      destruct (download_single_file cb fi download_dir (tl_state acc))
        as [[|] ws]; exact H1.
    + unfold download_one.
      destruct (download_single_file cb fi download_dir (tl_state acc))
        as [[|] ws]; exact H2.
Qed.

End Bounds.

Section SizesDeclared.

Lemma search_structure_nonneg filename structure :
  forallb (fun kv => sized (snd kv)) structure = true ->
  0 <= search_structure filename structure.
Proof.
  induction structure as [|key size url rest IH|key children fc rest IHc IHr]
    using structure_ind.
  - intros _. simpl. lia.
  - rewrite search_file. cbn [forallb snd sized].
    intros [Hs Hr]%andb_prop. apply Z.leb_le in Hs.
    destruct (String.eqb key filename); [exact Hs | exact (IH Hr)].
  - rewrite search_folder. cbn [forallb snd sized].
    intros [Hc Hr]%andb_prop. cbv zeta.
    destruct (0 <? _)%Z; [exact (IHc Hc) | exact (IHr Hr)].
Qed.

Lemma dict_set_sized d key value :
  forallb (fun kv => sized (snd kv)) d = true -> sized value = true ->
  forallb (fun kv => sized (snd kv)) (dict_set d key value) = true.
Proof.
  intros H Hv. induction d as [|[k v] rest IH]; simpl in *.
  - rewrite Hv. reflexivity.
  - apply andb_prop in H as [Hk Hr].
    destruct (String.eqb k key); simpl.
    + rewrite Hv, Hr. reflexivity.
    + rewrite Hk, (IH Hr). reflexivity.
Qed.

Lemma build_tracks_sized (children : list track) :
  Forall (fun t => declares_sizes t = true ->
                   forall base s,
                     forallb (fun kv => sized (snd kv)) s = true ->
                     forallb (fun kv => sized (snd kv)) (build_track base s t) = true)
    children ->
  forallb declares_sizes children = true ->
  forall base s,
    forallb (fun kv => sized (snd kv)) s = true ->
    forallb (fun kv => sized (snd kv)) (fold_left (build_track base) children s) = true.
Proof.
  induction 1 as [|t rest Ht _ IH]; intros Hd base s Hs; simpl; [exact Hs |].
  simpl in Hd. apply andb_prop in Hd as [Hd1 Hd2].
  apply (IH Hd2). apply (Ht Hd1), Hs.
Qed.

Lemma build_track_sized t :
  declares_sizes t = true ->
  forall base s,
    forallb (fun kv => sized (snd kv)) s = true ->
    forallb (fun kv => sized (snd kv)) (build_track base s t) = true.
Proof.
  induction t as [ty ti ch u sz IH] using track_ind_children.
  intros Hd base s Hs. simpl in *. destruct (is_folder ty).
  - apply dict_set_sized; [exact Hs |]. simpl.
    apply (build_tracks_sized ch IH Hd). reflexivity.
  - apply dict_set_sized; [exact Hs | exact Hd].
Qed.

Lemma build_file_structure_sized tracks base :
  forallb declares_sizes tracks = true ->
  forallb (fun kv => sized (snd kv)) (_build_file_structure tracks base) = true.
Proof.
  intros Hd. unfold _build_file_structure.
  apply build_tracks_sized; [| exact Hd | reflexivity].
  apply Forall_forall. intros t _. apply build_track_sized.
Qed.

Lemma size_table_nonneg tracks base all_files name :
  forallb declares_sizes tracks = true ->
  0 <= size_of (size_table (_build_file_structure tracks base) all_files).1 name.
Proof.
  intros Hd. unfold size_of, size_table.
  destruct (size_table_loop (_build_file_structure tracks base) all_files ∅ 0)
    as [H _].
  cbv zeta in H. rewrite H.
  destruct (existsb _ all_files); simpl.
  - apply search_structure_nonneg, build_file_structure_sized, Hd.
  - rewrite lookup_empty. simpl. lia.
Qed.

Lemma sum_sizes_nonneg (file_sizes : gmap string Z) names :
  (forall name, 0 <= size_of file_sizes name) ->
  forall acc, 0 <= acc ->
              0 <= fold_left Z.add (map (size_of file_sizes) names) acc.
Proof.
  intros Hs. induction names as [|n names IH]; intros acc Ha; simpl; [exact Ha |].
  apply IH. specialize (Hs n). lia.
Qed.

Lemma progress_callback_from_zero task_id wi file_sizes total_bytes total_files :
  (forall name, 0 <= size_of file_sizes name) ->
  callback_keeps counters_sound from_zero
    (Some (progress_callback task_id wi file_sizes total_bytes total_files)).
Proof.
  intros Hs info [w tk] Hlen [Hcf Hdb]. cbn [call_back fst snd] in *.
  pose proof (sum_sizes_nonneg file_sizes (completed_files_list tk) Hs 0
                ltac:(lia)) as Hsum.
  pose proof (Hs (pi_filename info)) as Hname.
  unfold progress_callback.
  repeat match goal with
         | |- context [if ?b then _ else _] => destruct b
         end; cbv beta iota zeta.
  all: match goal with
  | |- context [update_download_progress ?pm ?w ?t ?i ?p ?sp ?cf ?tf ?cur ?cfl ?db ?tb] =>
      pose proof (update_download_progress_writes pm w t i p sp cf tf cur cfl db tb)
        as H;
      assert (Hp : (0 <=? p)%float = true)
        by (apply overall_progress_nonneg; lia);
      destruct (update_download_progress pm w t i p sp cf tf cur cfl db tb)
        as [pm' w'];
      cbv zeta in H; cbn [fst snd] in *;
      (split; [| split; cbn; lia]);
      destruct H as [H | (snap & H & _ & _ & Hps & _)];
      [ exists []; split; [exact H | constructor]
      | exists [snap]; split; [exact H |]; constructor; [| constructor];
        eexists; split; [exact Hps | exact Hp] ]
  end.
Qed.

Lemma download_phase_from_zero config pm task_id work_id target_path wi tracks w
    prep ds term :
  forallb declares_sizes tracks = true ->
  writes_since w (download_phase config pm task_id work_id target_path wi tracks w).2
    ([prep] ++ ds ++ [term]) ->
  Forall from_zero ds.
Proof.
  intros Hd. unfold download_phase.
  destruct (update_preparing _ _ _ _ _ _) as [pm1 w1] eqn:Eprep.
  pose proof (fun all_files name =>
                size_table_nonneg tracks EmptyString all_files name Hd) as Hs.
  specialize (Hs (selected_files tracks target_path)).
  destruct (size_table _ _) as [file_sizes total_bytes]. cbn [fst] in Hs.
  set (total_files := Z.of_nat (length (selected_files tracks target_path))).
  set (cb := Some (progress_callback task_id wi file_sizes total_bytes total_files)).
  set (tk := {| tk_pm := pm1 |}).
  unfold download_tracks. cbv zeta.
  destruct (download_loop_invariant counters_sound from_zero cb
              (download_dir_of config wi) (selected_files tracks target_path)
              (progress_callback_from_zero _ _ _ _ _ Hs)
              {| tl_completed := []; tl_failed := []; tl_state := (w1, tk) |})
    as (l & Hl & Fl); [split; cbn; lia |].
  cbn [tl_state fst] in Hl.
  set (acc := fold_left _ _ _) in *.
  destruct (tl_state acc) as [w2 tk2] eqn:Eacc. cbn [fst] in Hl.
  assert (Hw1 : exists p, w_writes w1 = (w_writes w ++ [p])%list).
  { unfold update_preparing in Eprep. injection Eprep as _ <-.
    eexists. rewrite update_progress_writes. reflexivity. }
  destruct Hw1 as (p & Hw1).
  unfold writes_since in *.
  assert (Hend : forall r : job_result * world,
             (exists t, w_writes r.2 = (w_writes w2 ++ [t])%list) ->
             w_writes r.2 = (w_writes w ++ [prep] ++ ds ++ [term])%list ->
             Forall from_zero ds).
  { intros r (t & Ht) Hr. rewrite Ht, Hl, Hw1, <- !app_assoc in Hr.
    apply app_inv_head in Hr. simpl in Hr. injection Hr as _ Hr.
    apply app_inj_tail in Hr as [<- _]. exact Fl. }
  destruct (0 <? _)%Z; apply Hend; cbn [snd].
  - unfold update_success. eexists. rewrite update_progress_writes. reflexivity.
  - unfold update_failed. eexists. rewrite update_progress_writes. reflexivity.
Qed.

End SizesDeclared.

Lemma downloading_is_interim task_id total_bytes total_files s :
  downloading_snapshot task_id total_bytes total_files s ->
  interim_snapshot task_id s.
Proof. intros (H1 & H2 & _). split; [exact H1 | tauto]. Qed.

Lemma background_writes up task_id work_id quality target_path w :
  w_writes (background_download_task up task_id work_id quality target_path w)
  = w_writes (perform_download_sync up task_id work_id quality target_path w).2.
Proof.
  unfold background_download_task.
  destruct (perform_download_sync _ _ _ _ _ _) as [result w1]. cbn [snd].
  destruct (callback_base_url up), (plugin_name_for_callback up); try reflexivity.
  destruct (_ && _); [| reflexivity].
  destruct (post_raises up) as [[[|] e]|]; reflexivity.
Qed.

(** C1, as the code has it.  The thread of a job whose progress manager could
    be built writes a sequence of snapshots that ends in exactly one terminal
    snapshot: every earlier one has status [Starting], [Preparing] or
    [Downloading], the last one has status ["Succeed"] or ["Failed"] (the
    status the job returns), and nothing follows it, whatever becomes of the
    callback post.  A job whose manager could not be built writes nothing.
    The terminal writes are unconditional: [update_success] and
    [update_failed] write one snapshot in every world, without consulting the
    throttle. *)
Theorem one_terminal_snapshot up task_id work_id quality target_path w :
  let r := perform_download_sync up task_id work_id quality target_path w in
  let w' := background_download_task up task_id work_id quality target_path w in
  (if manager_built up then
     exists interim terminal,
       writes_since w w' (interim ++ [terminal]) /\
       Forall (interim_snapshot task_id) interim /\
       terminal_snapshot task_id terminal /\
       status terminal = r_status r.1
   else writes_since w w' []) /\
  (forall wi dr w0, exists s,
        writes_since w0 (update_success task_id wi dr w0) [s] /\
        status s = "Succeed") /\
  (forall why wi w0, exists s,
        writes_since w0 (update_failed task_id why wi w0) [s] /\
        status s = "Failed").
Proof.
  intros r w'. split; [| split].
  - pose proof (perform_cases up task_id work_id quality target_path w) as H.
    cbv zeta in H. fold r in H.
    unfold writes_since. subst w'. rewrite background_writes. fold r.
    destruct (manager_built up).
    + destruct H as (start & w1 & Hs & Hid & Hst & _ & [Hfail | Hdl]).
      * destruct Hfail as (term & Hw & Htid & Hts & _ & Hr & _).
        exists [start], term. split.
        { unfold writes_since in *. now rewrite Hw, Hs, <- app_assoc. }
        split; [constructor; [split; tauto | constructor] |].
        split; [split; tauto | congruence].
      * destruct Hdl as (config & pm & wi & tracks & _ & Hr).
        pose proof (download_phase_writes config pm task_id work_id target_path
                      wi tracks w1) as Hp.
        cbv zeta in Hp. rewrite <- Hr in Hp.
        destruct Hp as (prep & ds & term & tb & tf & completed & failed & Hw
                        & (Hpid & Hpst & _) & Fds & Htid & Hts & _ & Hyes & Hno).
        exists (start :: prep :: ds), term. split.
        { unfold writes_since in *. rewrite Hw, Hs, <- !app_assoc. reflexivity. }
        split.
        { constructor; [split; tauto |]. constructor; [split; tauto |].
          eapply Forall_impl; [exact Fds |]. apply downloading_is_interim. }
        split; [| exact Hts]. split; [exact Htid |]. rewrite Hts.
        destruct completed; [right; now apply Hno | left; now apply Hyes].
    + destruct H as [-> _]. now rewrite app_nil_r.
  - intros wi dr w0.
    destruct (update_success_writes task_id wi dr w0) as (s & H1 & _ & H2 & _).
    now exists s.
  - intros why wi w0.
    destruct (update_failed_writes task_id why wi w0) as (s & H1 & _ & H2 & _).
    now exists s.
Qed.

(** C1, as the specification words it, fails.  A job that succeeds writes a
    last snapshot whose status is ["Succeed"]: neither ["Succeeded"] nor
    ["Failed"]. *)
Lemma terminal_status_counterexample :
  exists s,
    last (w_writes rerun_thread) = Some s /\ status s = "Succeed" /\
    ~ claimed_terminal s.
Proof.
  eexists. split; [vm_compute; reflexivity |].
  split; [reflexivity |]. intros [H|H]; vm_compute in H; discriminate.
Qed.

(** C2, as the code has it.  A job that succeeds has written, in order, a
    [Starting] snapshot with progress 0.0, a [Preparing] snapshot with
    progress 5.0, any number of [Downloading] snapshots and a terminal
    snapshot with progress 100.0; the three fixed values are in order.  Each
    [Downloading] snapshot carries the float the code computes from its own
    byte counters (or file counters): their quotient, rounded, times 100,
    rounded again.  When no file of the manifest declares a negative size,
    none of these values lies below the 0.0 of [Starting].  That is the one
    order the code keeps for them; the runs of [progress_counterexample] show
    one below the 5.0 before it, one below the [Downloading] value before it,
    one above the closing 100.0 and, under a manifest with a negative size,
    one below 0.0. *)
Theorem progress_of_snapshots up task_id work_id quality target_path w :
  let r := perform_download_sync up task_id work_id quality target_path w in
  r_status r.1 = "Succeed" ->
  exists start prep ds term total_bytes total_files,
    writes_since w r.2 ([start; prep] ++ ds ++ [term]) /\
    (status start = "Starting" /\ progress start = Some 0%float) /\
    (status prep = "Preparing" /\ progress prep = Some 5%float) /\
    Forall (downloading_snapshot task_id total_bytes total_files) ds /\
    (status term = "Succeed" /\ progress term = Some 100%float) /\
    nondecreasing (progress_values [start; prep; term]) = true /\
    (forallb declares_sizes (manifest up) = true -> Forall from_zero ds).
Proof.
  intros r Hok.
  pose proof (perform_cases up task_id work_id quality target_path w) as H.
  cbv zeta in H. fold r in H.
  destruct (manager_built up); [| destruct H as [_ H]; congruence].
  destruct H as (start & w1 & Hs & _ & Hst & Hsp & [Hfail | Hdl]).
  - destruct Hfail as (term & _ & _ & _ & _ & Hr & _). congruence.
  - destruct Hdl as (config & pm & wi & tracks & Hm & Hr).
    pose proof (download_phase_writes config pm task_id work_id target_path
                  wi tracks w1) as Hp.
    cbv zeta in Hp. rewrite <- Hr in Hp.
    destruct Hp as (prep & ds & term & tb & tf & completed & failed & Hw
                    & (_ & Hpst & Hpp) & Fds & _ & Hts & _ & Hyes & Hno).
    destruct completed as [|c completed];
      [destruct (Hno eq_refl) as [Hf _]; congruence |].
    destruct Hyes as (_ & Htp & _); [discriminate |].
    exists start, prep, ds, term, tb, tf. split.
    { unfold writes_since in *. rewrite Hw, Hs, <- !app_assoc. reflexivity. }
    split; [tauto | split; [tauto | split; [exact Fds |]]].
    split; [split; [congruence | exact Htp] |].
    split; [unfold progress_values; simpl; rewrite Hsp, Hpp, Htp; reflexivity |].
    rewrite Hm. intros Hd.
    apply (download_phase_from_zero config pm task_id work_id target_path wi
             tracks w1 prep ds term Hd).
    rewrite <- Hr. exact Hw.
Qed.

Lemma progress_of_snapshots_witness :
  let r := perform_download_sync answering_upstream "job" "RJ123456" "best"
             EmptyString rerun_world in
  r_status r.1 = "Succeed" /\
  exists start prep ds term total_bytes total_files,
    writes_since rerun_world r.2 ([start; prep] ++ ds ++ [term]) /\
    (status start = "Starting" /\ progress start = Some 0%float) /\
    (status prep = "Preparing" /\ progress prep = Some 5%float) /\
    Forall (downloading_snapshot "job" total_bytes total_files) ds /\
    (status term = "Succeed" /\ progress term = Some 100%float) /\
    nondecreasing (progress_values [start; prep; term]) = true /\
    (forallb declares_sizes (manifest answering_upstream) = true ->
     Forall from_zero ds).
Proof.
  cbv zeta.
  assert (H : r_status (perform_download_sync answering_upstream "job" "RJ123456"
                          "best" EmptyString rerun_world).1 = "Succeed")
    by (vm_compute; reflexivity).
  split; [exact H |].
  exact (progress_of_snapshots answering_upstream "job" "RJ123456" "best"
           EmptyString rerun_world H).
Defined.

(** C2, as the specification words it, fails wherever a [Downloading] value
    stands next to a value other than the 0.0 of [Starting], and there as
    well when a size of the manifest is negative.  Three jobs that succeed:
    - the job that finds its two files on disk persists 0, 5, 1, 100, 100:
      the first [Downloading] snapshot (10 of 1000 bytes) carries 1.0, below
      the 5.0 of [Preparing];
    - the job that fetches two files of 1000 bytes persists 0, 5, 25, 50,
      100, 75, 100, 150, 100: the first chunk of the second file brings the
      byte counter from 2000 down to 1500 and the progress from 100 to 75,
      and the last [Downloading] snapshot carries 150, above the 100.0 of the
      terminal snapshot;
    - the job whose manifest declares [-10] bytes for a file persists 0, 5,
      -1, 100, 100: its first [Downloading] snapshot lies below the 0.0 of
      [Starting].
    The manifests of the first two jobs declare no negative size. *)
Lemma progress_counterexample :
  (r_status rerun_job.1 = "Succeed" /\
   forallb declares_sizes (manifest answering_upstream) = true /\
   progress_values (w_writes rerun_job.2)
   = [0%float; 5%float; 1%float; 100%float; 100%float] /\
   nondecreasing (progress_values (w_writes rerun_job.2)) = false) /\
  (r_status two_fetch_job.1 = "Succeed" /\
   forallb declares_sizes (manifest two_fetch_upstream) = true /\
   map status (w_writes two_fetch_job.2)
   = ["Starting"; "Preparing"; "Downloading"; "Downloading"; "Downloading";
      "Downloading"; "Downloading"; "Downloading"; "Succeed"] /\
   progress_values (w_writes two_fetch_job.2)
   = [0%float; 5%float; 25%float; 50%float; 100%float; 75%float; 100%float;
      150%float; 100%float] /\
   nondecreasing [100%float; 75%float] = false /\
   nondecreasing [150%float; 100%float] = false) /\
  (r_status negative_size_job.1 = "Succeed" /\
   forallb declares_sizes (manifest negative_size_upstream) = false /\
   progress_values (w_writes negative_size_job.2)
   = [0%float; 5%float; (-1)%float; 100%float; 100%float] /\
   nondecreasing [0%float; (-1)%float] = false).
Proof. repeat split; vm_compute; reflexivity. Qed.

Section Outcomes.
Context {State : Type}.
Variable cb : option (progress_info -> world * State -> world * State).






End Outcomes.




(** ** Sizes reported by the job *)

Lemma progress_callback_lists task_id wi file_sizes total_bytes total_files info w tk :
  let tk' := (progress_callback task_id wi file_sizes total_bytes total_files
                info (w, tk)).2 in
  let filename := pi_filename info in
  let is_new := str_nonempty filename
                && negb (name_in filename (completed_files_list tk)) in
  completed_files_list tk'
  = (if is_completion info && is_new
     then (completed_files_list tk ++ [filename])%list
     else completed_files_list tk) /\
  (is_completion info = true ->
   downloaded_bytes tk'
   = if is_new then downloaded_bytes tk + size_of file_sizes filename
     else downloaded_bytes tk).
Proof.
  cbv zeta. unfold progress_callback, is_completion.
  destruct (_ || _); cbn [andb].
  - destruct (_ && _); cbv beta iota zeta;
      destruct (update_download_progress _ _ _ _ _ _ _ _ _ _ _ _); cbn [snd];
      split; reflexivity.
  - destruct (String.eqb _ _); cbv beta iota zeta;
      destruct (update_download_progress _ _ _ _ _ _ _ _ _ _ _ _); cbn [snd];
      split; reflexivity || discriminate.
Qed.

(** C10, as the code has it.  The byte totals of the progress snapshots come
    from one look-up per selected item, by its bare file name, in the
    file-structure tree.  The look-up returns 0 when the tree holds no file of
    that name, the declared size of the first such file in depth-first order
    when that size is positive, and in every case 0 or the declared size of
    some file of that name.  Two items with the same sanitised file name are
    therefore attributed the same size, whatever their folders.  A completion
    event appends the file name to the completed list only if the name is not
    empty and not yet in the list, and only then adds the looked-up size. *)
Theorem sizes_by_bare_name tracks target_path :
  let file_structure := _build_file_structure tracks EmptyString in
  let all_files := selected_files tracks target_path in
  let table := size_table file_structure all_files in
  let lookup := get_file_size_from_structure file_structure in
  (forall fi, In fi all_files -> size_of table.1 (fi_filename fi) = lookup (fi_filename fi))
  /\ table.2 = looked_up_total file_structure all_files
  /\ (forall name, dfs_matches name file_structure = [] -> lookup name = 0)
  /\ (forall name s others,
         dfs_matches name file_structure = s :: others -> 0 < s -> lookup name = s)
  /\ (forall name, In (lookup name) (0 :: dfs_matches name file_structure))
  /\ (forall fi1 fi2,
         In fi1 all_files -> In fi2 all_files ->
         fi_filename fi1 = fi_filename fi2 ->
         size_of table.1 (fi_filename fi1) = size_of table.1 (fi_filename fi2))
  /\ (forall task_id wi file_sizes total_bytes total_files info w tk,
         let tk' := (progress_callback task_id wi file_sizes total_bytes total_files
                       info (w, tk)).2 in
         let filename := pi_filename info in
         let is_new := str_nonempty filename
                       && negb (name_in filename (completed_files_list tk)) in
         completed_files_list tk'
         = (if is_completion info && is_new
            then (completed_files_list tk ++ [filename])%list
            else completed_files_list tk) /\
         (is_completion info = true ->
          downloaded_bytes tk'
          = if is_new then downloaded_bytes tk + size_of file_sizes filename
            else downloaded_bytes tk)).
Proof.
  intros file_structure all_files table lookup.
  split; [intros fi Hin; now apply size_table_lookup |].
  split; [apply size_table_total |].
  split; [intros name; apply search_absent |].
  split; [intros name s others; apply search_first_positive |].
  split; [intros name; apply search_among_matches |].
  split; [intros fi1 fi2 _ _ ->; reflexivity |].
  intros. apply progress_callback_lists.
Qed.

(** C10, as the specification words it, fails.  With a file [x.mp3] of
    undeclared size in folder [A] and a file [x.mp3] of 5 bytes in folder [B],
    the first match in depth-first order has size 0, yet the look-up returns
    5, and both items are attributed 5 bytes. *)
Lemma first_match_counterexample :
  let file_structure := _build_file_structure shadow_manifest EmptyString in
  let all_files := selected_files shadow_manifest EmptyString in
  let table := size_table file_structure all_files in
  map full_path all_files = ["A/x.mp3"; "B/x.mp3"] /\
  dfs_matches "x.mp3" file_structure = [0; 5] /\
  get_file_size_from_structure file_structure "x.mp3" = 5 /\
  map (fun fi => size_of table.1 (fi_filename fi)) all_files = [5; 5].
Proof. repeat split; vm_compute; reflexivity. Qed.

(** * Further properties of the code *)

(** ** The sanitiser and the path scope *)

Section SanitizeAgain.

Import PyStr PyStrFacts.

Lemma re_sub_illegal_fixed s :
  every (fun a => negb (is_illegal a)) s = true -> re_sub_illegal s = s.
Proof.
  induction s as [|a s IH]; simpl; [reflexivity |].
  intros H. apply andb_prop in H as [Ha Hs].
  apply negb_true_iff in Ha. rewrite Ha, (IH Hs). reflexivity.
Qed.

Lemma sanitize_fixed seg : clean_segment seg -> _sanitize_filename seg = seg.
Proof.
  intros (Hne & Hlegal & Hstrip). unfold _sanitize_filename.
  rewrite (re_sub_illegal_fixed _ Hlegal), Hstrip.
  destruct seg; [congruence | reflexivity].
Qed.

Lemma clean_segment_not_dots seg :
  clean_segment seg -> seg <> "." /\ seg <> "..".
Proof.
  intros (_ & _ & Hstrip).
  split; intros ->; vm_compute in Hstrip; discriminate.
Qed.

End SanitizeAgain.

(** X1. [_sanitize_filename] is idempotent: a name that went through it
    once is left as it is by a second pass (the work title is sanitised by
    [download_tracks], the titles of tracks by the flattening and by the
    tree builder, and the results are joined into paths and dictionary keys),
    and so is every name that is non-empty, free of the nine replaced
    characters and has no dot or blank at either end. *)
Theorem sanitize_idempotent (filename : string) :
  _sanitize_filename (_sanitize_filename filename) = _sanitize_filename filename
  /\ (forall seg, clean_segment seg -> _sanitize_filename seg = seg).
Proof.
  split; [| exact sanitize_fixed].
  apply sanitize_fixed, sanitize_clean.
Qed.

Section ScopeAgain.

Import PyStr PyStrFacts.

#[local] Existing Instance scope_keeps_dec.

Lemma path_matches_strips fp scope :
  _path_matches fp scope = _path_matches fp (strip_slashes scope).
Proof. unfold _path_matches. rewrite strip_slashes_idem. reflexivity. Qed.

Lemma scope_keeps_anchored scope rel :
  strip_slashes scope <> EmptyString -> scope_keeps scope rel ->
  rel = strip_slashes scope \/ nested_under (strip_slashes scope) rel.
Proof.
  intros Hne [H | [H | [H | H]]]; [congruence | tauto | tauto |].
  right. apply parent_is_nested, H.
Qed.

Lemma scope_keeps_narrow outer inner rel :
  nested_under (strip_slashes outer) (strip_slashes inner) ->
  scope_keeps inner rel -> scope_keeps outer rel.
Proof.
  intros [rest Hin] H. unfold scope_keeps in *. cbv zeta in *.
  right. right. left.
  assert (Hnest : rel = strip_slashes inner \/ nested_under (strip_slashes inner) rel).
  { destruct H as [H | [H | [H | H]]]; [| tauto | tauto |].
    - rewrite Hin in H. destruct (strip_slashes outer); discriminate.
    - right. apply parent_is_nested, H. }
  destruct Hnest as [-> | [r ->]].
  - exists rest. exact Hin.
  - exists (rest ++ "/" ++ r). rewrite Hin, !append_assoc. reflexivity.
Qed.

Lemma filter_by_path_filter items scope :
  _filter_files_by_path items scope
  = filter (fun fi => scope_keeps scope (relative_path fi)) items.
Proof. unfold _filter_files_by_path. rewrite filter_loop. reflexivity. Qed.

End ScopeAgain.

(** X2. A non-empty scope is anchored at the root of the work: a path that
    [_path_matches] accepts is the scope itself or begins with the scope and
    a slash, so a folder or file name further down the path never selects
    anything; and a scope that lies below another one accepts only paths the
    outer scope accepts. *)
Theorem path_scope_anchored (file_path : string) :
  (forall scope,
      strip_slashes scope <> EmptyString ->
      _path_matches file_path scope = true ->
      strip_slashes file_path = strip_slashes scope \/
      PyStr.startswith (strip_slashes scope ++ "/") (strip_slashes file_path) = true)
  /\
  (forall outer inner,
      nested_under (strip_slashes outer) (strip_slashes inner) ->
      _path_matches file_path inner = true ->
      _path_matches file_path outer = true).
Proof.
  split.
  - intros scope Hne H. rewrite path_matches_strips in H.
    apply path_matches_spec in H.
    destruct (scope_keeps_anchored _ _ Hne H) as [-> | Hn]; [tauto | right].
    apply nested_under_startswith, Hn.
  - intros outer inner Hin H.
    rewrite path_matches_strips in H. rewrite path_matches_strips.
    apply path_matches_spec. apply path_matches_spec in H.
    eapply scope_keeps_narrow; eauto.
Qed.

(** X3. Filtering composes: filtering a list twice by the same scope gives what
    one pass gives, filtering by a folder and then by a scope below that
    folder gives what the inner scope alone gives, and nothing is added or
    reordered: the result is a sublist of the input. *)
Theorem filter_by_path_composes (items : list file_info) (scope : string) :
  _filter_files_by_path (_filter_files_by_path items scope) scope
  = _filter_files_by_path items scope
  /\ sublist (_filter_files_by_path items scope) items
  /\ (forall inner,
        nested_under (strip_slashes scope) (strip_slashes inner) ->
        _filter_files_by_path (_filter_files_by_path items scope) inner
        = _filter_files_by_path items inner).
Proof.
  rewrite !filter_by_path_filter. split; [| split].
  - apply list_filter_filter_l. tauto.
  - apply sublist_filter.
  - intros inner Hin. rewrite !filter_by_path_filter.
    apply list_filter_filter_l. intros fi. apply scope_keeps_narrow, Hin.
Qed.

(** ** The progress manager over its life *)

Section ManagerAgain.

Lemma last_n_length {A} (n : nat) (l : list A) :
  (length (last_n n l) <= n)%nat.
Proof. unfold last_n. rewrite length_skipn. lia. Qed.

Lemma history_with_bound history s :
  (length history <= 15)%nat -> (length (history_with history s) <= 15)%nat.
Proof.
  intros H. unfold history_with. cbv zeta.
  destruct (15 <? _)%nat eqn:E.
  - apply last_n_length.
  - apply Nat.ltb_ge in E. exact E.
Qed.

Lemma update_download_progress_history pm w task_id wi p speed cf tf cur cfl db tb :
  _progress_history
    (update_download_progress pm w task_id wi p speed cf tf cur cfl db tb).1
  = history_with (_progress_history pm) (Sample (w_now w (w_tick w)) p cf db tb).
Proof.
  rewrite update_download_progress_steps. cbv zeta.
  set (pm0 := match cfl with [] => pm | _ => _ end).
  set (t := w_now w (w_tick w)).
  set (pm1 := record_sample _ pm0).
  assert (H1 : _progress_history pm1 = history_with (_progress_history pm) (Sample t p cf db tb)).
  { unfold pm1, record_sample, history_with. cbn.
    replace (_progress_history pm0) with (_progress_history pm)
      by (unfold pm0; destruct cfl; reflexivity).
    reflexivity. }
  assert (H2 : _progress_history (should_update_file pm1 t p).2 = _progress_history pm1).
  { unfold should_update_file. cbv zeta. destruct (_ || _); reflexivity. }
  destruct (calculate_eta_frame (should_update_file pm1 t p).2 p t) as (_ & _ & H3 & _).
  cbv zeta in H3.
  destruct (should_update_file pm1 t p).1; cbn [fst]; [cbn [set_last_update_time _progress_history] |];
    rewrite H3, H2, H1; reflexivity.
Qed.

End ManagerAgain.

(** X4. [_progress_history] never holds more than 15 samples, in any
    manager the program can reach: [update_download_progress] cuts the list
    after it has appended, and [update_starting] empties it. *)
Theorem history_bounded (pm : ProgressManager) :
  pm_reachable pm -> (length (_progress_history pm) <= 15)%nat.
Proof.
  induction 1 as [config | pm task_id work_id w _ IH | pm task_id wi total fs w _ IH
                 | pm w task_id wi p speed cf tf cur cfl db tb _ IH].
  - cbn. lia.
  - cbn. lia.
  - unfold update_preparing. cbn [fst]. destruct fs; cbn; exact IH.
  - rewrite update_download_progress_history. apply history_with_bound, IH.
Qed.

Lemma history_bounded_witness :
  (length (_progress_history one_sample_pm) <= 15)%nat.
Proof.
  apply history_bounded. unfold one_sample_pm.
  apply reach_download, reach_starting, reach_init.
Defined.

Section SmoothAgain.

Lemma quot_between (n d a b : Z) :
  0 < d -> a * d <= n -> n <= b * d -> a <= Z.quot n d <= b.
Proof.
  intros Hd Ha Hb.
  destruct (Z_le_gt_dec 0 n) as [Hn | Hn].
  - rewrite Z.quot_div_nonneg by lia. split.
    + apply Z.div_le_lower_bound; lia.
    + apply Z.div_le_upper_bound; lia.
  - replace n with (- (- n)) by lia. rewrite Z.quot_opp_l by lia.
    rewrite Z.quot_div_nonneg by lia.
    assert (- b <= (- n) / d) by (apply Z.div_le_lower_bound; lia).
    assert ((- n) / d <= - a) by (apply Z.div_le_upper_bound; lia).
    lia.
Qed.

Lemma blend_between (last eta_seconds : Z) :
  Z.min last eta_seconds
  <= py_int ((7 # 10) * inject_Z last + (3 # 10) * inject_Z eta_seconds)%Q
  <= Z.max last eta_seconds.
Proof.
  unfold py_int. cbn. apply quot_between; lia.
Qed.

End SmoothAgain.

(** X5. The smoothing step of [_calculate_eta] never leaves the range
    spanned by the previous estimate and the new one: the number of seconds
    it returns lies between the smaller and the larger of the two, it is the
    new estimate itself when there is no previous estimate or a previous
    estimate of 0 or less, and it differs from the new estimate only when the
    new one is more than 40 percent of the previous estimate away from it. *)
Theorem smooth_eta_between (eta_seconds : Z) :
  smooth_eta None eta_seconds = eta_seconds /\
  (forall last,
      Z.min last eta_seconds <= smooth_eta (Some last) eta_seconds
      <= Z.max last eta_seconds) /\
  (forall last, last <= 0 -> smooth_eta (Some last) eta_seconds = eta_seconds) /\
  (forall last,
      smooth_eta (Some last) eta_seconds <> eta_seconds ->
      4 * last < 10 * Z.abs (eta_seconds - last)).
Proof.
  split; [reflexivity |]. split; [| split].
  - intros last. unfold smooth_eta.
    destruct (0 <? last); [| lia].
    destruct (Qltb _ _); [apply blend_between | lia].
  - intros last Hl. unfold smooth_eta.
    destruct (0 <? last) eqn:E; [apply Z.ltb_lt in E; lia | reflexivity].
  - intros last. unfold smooth_eta.
    destruct (0 <? last); [| congruence].
    destruct (Qltb _ _) eqn:E; [| congruence].
    intros _. apply Qltb_lt in E. unfold Qlt in E. cbn in E. lia.
Qed.

(** ** The file-structure tree *)

Section StructureAgain.

Lemma count_files_entry_weights structure :
  _count_files_in_structure structure
  = fold_right Z.add 0 (map (fun kv => entry_weight (snd kv)) structure).
Proof.
  unfold _count_files_in_structure.
  assert (H : forall acc,
             fold_left
               (fun count item =>
                  match snd item with
                  | NFile _ _ => count + 1
                  | NFolder _ file_count => count + file_count
                  end) structure acc
             = acc + fold_right Z.add 0 (map (fun kv => entry_weight (snd kv)) structure)).
  { induction structure as [|[k v] rest IH]; intros acc; simpl; [lia |].
    rewrite IH. destruct v; simpl; lia. }
  rewrite H. lia.
Qed.

Lemma counted_entry_weight value : counted value = true -> entry_weight value = files_below value.
Proof.
  destruct value as [|children fc]; simpl; [reflexivity |].
  intros H. apply andb_prop in H as [H _]. apply andb_prop in H as [H _].
  apply Z.eqb_eq in H. exact H.
Qed.

Lemma count_files_counted structure :
  forallb (fun kv => counted (snd kv)) structure = true ->
  _count_files_in_structure structure = files_in structure.
Proof.
  rewrite count_files_entry_weights. unfold files_in.
  induction structure as [|[k v] rest IH]; simpl; [reflexivity |].
  intros H. apply andb_prop in H as [Hv Hr].
  rewrite (counted_entry_weight _ Hv), (IH Hr). reflexivity.
Qed.

Lemma files_in_nonneg structure : 0 <= files_in structure.
Proof.
  induction structure as [| key size url rest IH | key children fc rest IHc IH]
    using structure_ind; unfold files_in in *; simpl; lia.
Qed.

Lemma files_below_nonneg value : 0 <= files_below value.
Proof.
  destruct value as [|children fc]; simpl; [lia |]. apply (files_in_nonneg children).
Qed.

Lemma dict_set_names {V} (d : list (string * V)) key value :
  map fst (dict_set d key value)
  = if existsb (String.eqb key) (map fst d) then map fst d
    else (map fst d ++ [key])%list.
Proof.
  induction d as [|[k v] rest IH]; simpl; [reflexivity |].
  rewrite (String.eqb_sym key k).
  destruct (String.eqb k key) eqn:E; simpl; [reflexivity |].
  rewrite IH. destruct (existsb _ _); reflexivity.
Qed.

Lemma distinct_names_snoc names key :
  distinct_names names = true -> existsb (String.eqb key) names = false ->
  distinct_names (names ++ [key]) = true.
Proof.
  induction names as [|n rest IH]; simpl; [reflexivity |].
  intros H Hk. apply andb_prop in H as [Hn Hr].
  apply orb_false_elim in Hk as [Hkn Hkr].
  rewrite (IH Hr Hkr), andb_true_r.
  rewrite existsb_app. simpl. rewrite String.eqb_sym, Hkn.
  apply negb_true_iff in Hn. rewrite Hn. reflexivity.
Qed.

Lemma dict_set_distinct {V} (d : list (string * V)) key value :
  distinct_names (map fst d) = true ->
  distinct_names (map fst (dict_set d key value)) = true.
Proof.
  intros H. rewrite dict_set_names.
  destruct (existsb _ _) eqn:E; [exact H |].
  apply distinct_names_snoc; assumption.
Qed.

Lemma dict_set_counted d key value :
  forallb (fun kv => counted (snd kv)) d = true -> counted value = true ->
  forallb (fun kv => counted (snd kv)) (dict_set d key value) = true.
Proof.
  intros H Hv. induction d as [|[k v] rest IH]; simpl in *.
  - rewrite Hv. reflexivity.
  - apply andb_prop in H as [Hk Hr].
    destruct (String.eqb k key); simpl.
    + rewrite Hv, Hr. reflexivity.
    + rewrite Hk, (IH Hr). reflexivity.
Qed.

Lemma dict_set_files d key value :
  files_in (dict_set d key value) <= files_in d + files_below value.
Proof.
  unfold files_in. induction d as [|[k v] rest IH]; simpl; [lia |].
  destruct (String.eqb k key); simpl.
  - pose proof (files_below_nonneg v). lia.
  - lia.
Qed.

Lemma dict_set_well_counted d key value :
  well_counted d -> counted value = true -> well_counted (dict_set d key value).
Proof.
  intros [H1 H2] Hv. split; [apply dict_set_distinct, H1 | apply dict_set_counted; assumption].
Qed.

Lemma build_tracks_fold (children : list track) :
  Forall (fun t => forall base s,
              well_counted s ->
              well_counted (build_track base s t) /\
              files_in (build_track base s t)
              <= files_in s + Z.of_nat (leaf_files_of t)) children ->
  forall base s,
    well_counted s ->
    well_counted (fold_left (build_track base) children s) /\
    files_in (fold_left (build_track base) children s)
    <= files_in s + Z.of_nat (list_sum (map leaf_files_of children)).
Proof.
  induction 1 as [|t rest Ht _ IH]; intros base s Hs; simpl.
  - split; [exact Hs | lia].
  - destruct (Ht base s Hs) as [Hg Hle].
    destruct (IH base _ Hg) as [Hg' Hle'].
    split; [exact Hg' | lia].
Qed.

Lemma build_track_well_counted t :
  forall base s,
    well_counted s ->
    well_counted (build_track base s t) /\
    files_in (build_track base s t) <= files_in s + Z.of_nat (leaf_files_of t).
Proof.
  induction t as [ty ti ch u sz IH] using track_ind_children.
  intros base s Hs. simpl. destruct (is_folder ty).
  - set (name := _sanitize_filename _).
    destruct (build_tracks_fold ch IH (path_join base name) [])
      as [[Hd Hc] Hle]; [split; reflexivity |].
    set (child := fold_left _ ch []) in *.
    assert (Hv : counted (NFolder child (_count_files_in_structure child)) = true).
    { simpl. rewrite (count_files_counted _ Hc). fold (files_in child).
      rewrite Z.eqb_refl, Hd, Hc. reflexivity. }
    split; [apply dict_set_well_counted; assumption |].
    etransitivity; [apply dict_set_files |].
    simpl. fold (files_in child). change (files_in []) with 0 in Hle. lia.
  - split; [apply dict_set_well_counted; [assumption | reflexivity] |].
    etransitivity; [apply dict_set_files |]. simpl. lia.
Qed.

Lemma build_file_structure_well_counted tracks base :
  well_counted (_build_file_structure tracks base) /\
  files_in (_build_file_structure tracks base) <= Z.of_nat (leaf_files tracks).
Proof.
  unfold _build_file_structure, leaf_files.
  destruct (build_tracks_fold tracks) with (base := base) (s := @nil (string * node))
    as [Hg Hle].
  - apply Forall_forall. intros t _. apply build_track_well_counted.
  - split; reflexivity.
  - split; [exact Hg |]. change (files_in []) with 0 in Hle. lia.
Qed.

End StructureAgain.

(** Two tracks whose titles sanitise to the same name share one entry of the
    tree, while the download list keeps both. *)
Example same_name_collapses :
  let tracks := [Track None (Some "a?") [] None (Some 1);
                 Track None (Some "a*") [] None (Some 2)] in
  _count_files_in_structure (_build_file_structure tracks EmptyString) = 1 /\
  length (_extract_files_from_tracks tracks EmptyString) = 2%nat.
Proof. split; reflexivity. Qed.

(** X6. In the tree [_build_file_structure] returns, the names of every level
    are pairwise different (the tree is a dictionary keyed by the sanitised
    name, so a later track replaces an earlier one of the same name), every
    folder's [file_count] is the number of files below it, the count of
    [_count_files_in_structure] is the number of files of the whole tree, and
    that number never exceeds the number of leaf files of the manifest, which
    is the number of items the flattening returns. *)
Theorem file_structure_counts (tracks : list track) (base_path : string) :
  let structure := _build_file_structure tracks base_path in
  distinct_names (map fst structure) = true /\
  forallb (fun kv => counted (snd kv)) structure = true /\
  _count_files_in_structure structure = files_in structure /\
  files_in structure
  <= Z.of_nat (length (_extract_files_from_tracks tracks EmptyString)).
Proof.
  cbv zeta.
  destruct (build_file_structure_well_counted tracks base_path) as [[Hd Hc] Hle].
  split; [exact Hd |]. split; [exact Hc |].
  split; [apply count_files_counted, Hc |].
  unfold _extract_files_from_tracks.
  rewrite (flat_map_length_sum _ leaf_files_of);
    [exact Hle |].
  apply Forall_forall. intros t _. apply extract_track_count.
Qed.

(** ** Paths *)

Section PathsAgain.

Import PyStr PyStrFacts.

Lemma path_root_cases s :
  path_root s = EmptyString \/ path_root s = "/" \/ path_root s = "//".
Proof.
  unfold path_root. destruct (startswith "/" s); [| tauto].
  cbv zeta. destruct (_ =? _)%nat; tauto.
Qed.

Lemma filter_parts l :
  Forall (fun piece => has_char slash piece = false) l ->
  Forall path_part (List.filter is_part l).
Proof.
  induction 1 as [|piece l Hp _ IH]; cbn [List.filter]; [constructor |].
  destruct (is_part piece) eqn:E; [constructor; [split; assumption | exact IH] | exact IH].
Qed.

Lemma filter_parts_fixed l : Forall path_part l -> List.filter is_part l = l.
Proof.
  induction 1 as [|piece l [Hp _] _ IH]; cbn [List.filter]; [reflexivity |].
  now rewrite Hp, IH.
Qed.

Lemma Path_shaped s : path_shaped (Path s).
Proof. split; [apply path_root_cases | apply filter_parts, split_pieces]. Qed.

Lemma path_div_shaped p s : path_shaped p -> path_shaped (path_div p s).
Proof.
  intros [Hr Hp]. unfold path_div. cbv zeta.
  destruct (str_nonempty _); [apply Path_shaped |].
  split; [exact Hr |]. cbn [pp_parts]. apply Forall_app. split; [exact Hp |].
  apply Path_shaped.
Qed.

Lemma download_directory_shaped config wi : path_shaped (download_directory config wi).
Proof. unfold download_directory. cbv zeta. apply path_div_shaped, path_div_shaped, Path_shaped. Qed.

Lemma path_part_head piece :
  path_part piece -> exists c rest, piece = String c rest /\ Ascii.eqb c slash = false.
Proof.
  intros [Hp Hs]. destruct piece as [|c rest]; [discriminate |].
  exists c, rest. split; [reflexivity |]. cbn in Hs.
  destruct (Ascii.eqb c slash); [discriminate | reflexivity].
Qed.

Lemma join_head piece l :
  path_part piece ->
  exists c rest, join "/" (piece :: l) = String c rest /\ Ascii.eqb c slash = false.
Proof.
  intros (c & rest & -> & Hc)%path_part_head.
  destruct l as [|b l]; [exists c, rest; tauto |].
  exists c, (rest ++ "/" ++ join "/" (b :: l)). split; [reflexivity | exact Hc].
Qed.

Lemma split_join l :
  l <> [] -> Forall (fun piece => has_char slash piece = false) l ->
  split slash (join "/" l) = l.
Proof.
  induction l as [|a l IH]; [congruence |]. intros _ H.
  inversion H as [|? ? Ha Hl]; subst.
  destruct l as [|b l]; [apply split_whole, Ha |].
  change (join "/" (a :: b :: l)) with (a ++ String slash (join "/" (b :: l))).
  rewrite split_app, (split_whole _ _ Ha), IH by (discriminate || assumption).
  reflexivity.
Qed.

Lemma parts_no_slash l :
  Forall path_part l -> Forall (fun piece => has_char slash piece = false) l.
Proof. intros H. eapply Forall_impl; [exact H |]. now intros piece [_ Hs]. Qed.

(** A string free of leading slashes parses to a rootless path. *)
Lemma Path_relative c rest :
  Ascii.eqb c slash = false ->
  Path (String c rest)
  = {| pp_root := EmptyString;
       pp_parts := List.filter is_part (split slash (String c rest)) |}.
Proof.
  intros Hc. unfold Path, path_root.
  assert (Hs : startswith "/" (String c rest) = false).
  { change (startswith "/" (String c rest))
      with (if Ascii.eqb slash c then true else false).
    now rewrite Ascii.eqb_sym, Hc. }
  rewrite Hs. f_equal. f_equal. f_equal.
  cbn [lstrip]. unfold is_ch. now rewrite Hc.
Qed.

Lemma Path_of_parts l :
  l <> [] -> Forall path_part l ->
  Path (join "/" l) = {| pp_root := EmptyString; pp_parts := l |}.
Proof.
  intros Hne Hl. destruct l as [|a l]; [congruence |].
  inversion Hl as [|? ? Ha _]; subst.
  destruct (join_head a l Ha) as (c & rest & E & Hc).
  rewrite E, (Path_relative c rest Hc), <- E.
  rewrite split_join by (discriminate || now apply parts_no_slash).
  now rewrite filter_parts_fixed.
Qed.

(** Joining a rootless path of parts adds the parts. *)
Lemma path_div_parts p l :
  l <> [] -> Forall path_part l ->
  path_div p (join "/" l)
  = {| pp_root := pp_root p; pp_parts := (pp_parts p ++ l)%list |}.
Proof.
  intros Hne Hl. unfold path_div. cbv zeta.
  rewrite (Path_of_parts l Hne Hl). reflexivity.
Qed.

Lemma lstrip_slashes_join ls l :
  every (is_ch slash) ls = true -> Forall path_part l ->
  lstrip (is_ch slash) (ls ++ join "/" l) = join "/" l.
Proof.
  intros Hls Hl. rewrite lstrip_app_every by exact Hls.
  destruct l as [|a l]; [reflexivity |].
  inversion Hl as [|? ? Ha _]; subst.
  destruct (join_head a l Ha) as (c & rest & -> & Hc).
  cbn. unfold is_ch. now rewrite Hc.
Qed.

Lemma split_parts l :
  Forall path_part l -> List.filter is_part (split slash (join "/" l)) = l.
Proof.
  intros Hl. destruct l as [|a l]; [reflexivity |].
  rewrite split_join by (discriminate || now apply parts_no_slash).
  now apply filter_parts_fixed.
Qed.

Lemma length_lstrip_join ls l :
  every (is_ch slash) ls = true -> Forall path_part l ->
  (String.length (ls ++ join "/" l) - String.length (join "/" l))%nat
  = String.length ls.
Proof.
  intros _ _.
  assert (H : forall x, String.length (ls ++ x)
                        = (String.length ls + String.length x)%nat).
  { intros x. induction ls as [|a ls IH]; cbn [String.append String.length];
      [reflexivity | now rewrite IH]. }
  rewrite H. lia.
Qed.

(** [Path(str(p))] is [p]. *)
Lemma Path_path_str p : path_shaped p -> Path (path_str p) = p.
Proof.
  destruct p as [root parts]. intros [Hr Hp]. cbn [pp_root pp_parts] in *.
  assert (Hgen : forall ls, every (is_ch slash) ls = true ->
            Path (ls ++ join "/" parts)
            = {| pp_root := path_root (ls ++ join "/" parts); pp_parts := parts |}).
  { intros ls Hls. unfold Path. f_equal.
    rewrite (lstrip_slashes_join ls parts Hls Hp). now apply split_parts. }
  unfold path_str. cbn [pp_root pp_parts].
  destruct Hr as [-> | [-> | ->]].
  - destruct parts as [|a l]; [reflexivity |].
    change (EmptyString ++ join "/" (a :: l)) with (join "/" (a :: l)).
    apply Path_of_parts; [discriminate | exact Hp].
  - rewrite (Hgen "/" eq_refl). f_equal.
    unfold path_root. cbn [startswith String.append]. rewrite Ascii.eqb_refl. cbv zeta.
    change (String "/" (join "/" parts)) with ("/" ++ join "/" parts).
    rewrite (lstrip_slashes_join "/" parts eq_refl Hp).
    rewrite (length_lstrip_join "/" parts eq_refl Hp). reflexivity.
  - rewrite (Hgen "//" eq_refl). f_equal.
    unfold path_root. cbn [startswith String.append]. rewrite Ascii.eqb_refl. cbv zeta.
    change (String "/" (String "/" (join "/" parts))) with ("//" ++ join "/" parts).
    rewrite (lstrip_slashes_join "//" parts eq_refl Hp).
    rewrite (length_lstrip_join "//" parts eq_refl Hp). reflexivity.
Qed.

Lemma clean_segment_part seg : clean_segment seg -> path_part seg.
Proof.
  intros H. split; [| now apply clean_segment_no_slash].
  destruct (clean_segment_not_dots seg H) as [Hdot _].
  destruct H as (Hne & _). unfold is_part.
  destruct seg; [congruence |]. cbn [str_nonempty andb].
  apply negb_true_iff. apply String.eqb_neq. exact Hdot.
Qed.

(** The fields of the items of a manifest. *)
Lemma extract_track_fields t :
  forall base, clean_path base ->
    Forall (fun fi => clean_path (fi_path fi) /\ clean_segment (fi_filename fi))
      (extract_track base t).
Proof.
  induction t as [ty ti ch u sz IH] using track_ind_children.
  intros base Hb. simpl. destruct (is_folder ty).
  - set (folder := path_join base _).
    assert (Hf : clean_path folder)
      by (apply clean_path_join; [assumption | apply sanitize_clean]).
    clearbody folder. induction IH as [|c ch Hc _ IHch]; simpl; [constructor |].
    apply Forall_app. split; [now apply Hc | exact IHch].
  - constructor; [| constructor]. cbn [fi_path fi_filename].
    split; [exact Hb | apply sanitize_clean].
Qed.

Lemma segments_of_fields fi :
  clean_segment (fi_filename fi) ->
  segments fi = (path_segments (fi_path fi) ++ [fi_filename fi])%list.
Proof.
  intros Hn. unfold segments.
  change (full_path fi) with (path_join (fi_path fi) (fi_filename fi)).
  apply path_join_segments, clean_segment_no_slash, Hn.
Qed.

(** Under a directory named by its [str], the path of an item with clean
    fields is the directory extended by the segments of the item. *)
Lemma full_file_path_item dir fi :
  path_shaped dir ->
  clean_path (fi_path fi) -> clean_segment (fi_filename fi) ->
  full_file_path (path_str dir) fi = item_path dir fi.
Proof.
  intros Hd Hp Hn. unfold full_file_path, item_path.
  rewrite (Path_path_str dir Hd), (segments_of_fields fi Hn).
  assert (Hname :
            forall q, path_div q (fi_filename fi)
                      = {| pp_root := pp_root q;
                           pp_parts := (pp_parts q ++ [fi_filename fi])%list |}).
  { intros q. apply (path_div_parts q [fi_filename fi]); [discriminate |].
    constructor; [now apply clean_segment_part | constructor]. }
  unfold path_segments.
  destruct (str_nonempty (fi_path fi)) eqn:E.
  - destruct Hp as [Hp | Hp]; [rewrite Hp in E; discriminate |].
    rewrite <- (join_split slash (fi_path fi)) at 1.
    rewrite path_div_parts;
      [| apply split_not_nil
       | eapply Forall_impl; [exact Hp | apply clean_segment_part]].
    rewrite Hname. cbn [pp_root pp_parts]. now rewrite <- app_assoc.
  - rewrite Hname. reflexivity.
Qed.

End PathsAgain.

(** ** What a fetch changes *)

Section FetchAgain.

Context {State : Type}.
Implicit Types (cb : option (progress_info -> world * State -> world * State)).

Lemma keeps_files_none : keeps_files (State := State) None.
Proof. intros info ws. cbn. tauto. Qed.

Lemma write_chunk_effect cb filename path total_size start_time tr chunk :
  keeps_files cb ->
  let tr' := write_chunk cb filename path total_size start_time tr chunk in
  downloaded_size tr' = downloaded_size tr + Z.max 0 chunk /\
  w_requests (tr_state tr').1 = w_requests (tr_state tr).1 /\
  w_received (tr_state tr').1 = w_received (tr_state tr).1 + Z.max 0 chunk /\
  w_fs (tr_state tr').1
  = if (0 <? chunk)%Z then <[path := downloaded_size tr']> (w_fs (tr_state tr).1)
    else w_fs (tr_state tr).1.
Proof.
  intros Hcb. cbv zeta. unfold write_chunk.
  destruct (0 <? chunk)%Z eqn:Hc.
  2:{ apply Z.ltb_ge in Hc. rewrite Z.max_l by lia. repeat split; lia. }
  apply Z.ltb_lt in Hc. rewrite Z.max_r by lia.
  destruct (tr_state tr) as [w s]. cbn [fst snd time_time].
  destruct cb as [f|]; [destruct (_ <=? _)%float |]; cbn; try tauto.
  match goal with
  | |- context [f ?i ?ws] =>
      destruct (Hcb i ws) as (Hfs & Hrq & Hrc); cbn in Hfs, Hrq, Hrc
  end.
  rewrite Hfs, Hrq, Hrc. tauto.
Qed.

Lemma chunks_effect cb filename path total_size start_time chunks :
  keeps_files cb ->
  forall tr,
    let tr' := fold_left (write_chunk cb filename path total_size start_time)
                 chunks tr in
    downloaded_size tr' = downloaded_size tr + bytes_of chunks /\
    w_requests (tr_state tr').1 = w_requests (tr_state tr).1 /\
    w_received (tr_state tr').1 = w_received (tr_state tr).1 + bytes_of chunks /\
    (forall base,
        w_fs (tr_state tr).1 = <[path := downloaded_size tr]> base ->
        w_fs (tr_state tr').1 = <[path := downloaded_size tr']> base).
Proof.
  intros Hcb. induction chunks as [|c rest IH]; intros tr; cbn [fold_left].
  - unfold bytes_of. cbn. repeat split; try lia. tauto.
  - destruct (write_chunk_effect cb filename path total_size start_time tr c Hcb)
      as (Hd & Hrq & Hrc & Hfs).
    specialize (IH (write_chunk cb filename path total_size start_time tr c)).
    cbv zeta in IH. destruct IH as (Hd' & Hrq' & Hrc' & Hfs').
    unfold bytes_of in *. cbn [map fold_right].
    split; [lia |]. split; [congruence |]. split; [lia |].
    intros base Hbase. apply Hfs'. rewrite Hfs.
    destruct (0 <? c)%Z eqn:Hc.
    + rewrite Hbase. apply insert_insert_eq.
    + apply Z.ltb_ge in Hc. rewrite Hd, Z.max_l by lia.
      rewrite Z.add_0_r. exact Hbase.
Qed.

(** A fetch that the server answers with status 200. *)
Lemma fetch_effect cb fi download_dir w s content_length chunks breaks_off :
  keeps_files cb ->
  fi_mediaDownloadUrl fi <> EmptyString ->
  exists_nonempty (w_fs w) (full_file_path download_dir fi) = false ->
  w_fetch w (fi_mediaDownloadUrl fi)
  = GetAnswers 200 content_length chunks breaks_off ->
  let r := download_single_file cb fi download_dir (w, s) in
  r.1 = negb breaks_off /\
  w_fs r.2.1 = <[full_file_path download_dir fi := bytes_of chunks]> (w_fs w) /\
  w_received r.2.1 = w_received w + bytes_of chunks /\
  w_requests r.2.1 = (w_requests w ++ [fi_mediaDownloadUrl fi])%list.
Proof.
  intros Hcb Hurl Hex Hfetch. cbv zeta. unfold download_single_file.
  destruct (fi_mediaDownloadUrl fi) as [|a u] eqn:Eu; [congruence |].
  cbn [str_nonempty negb]. rewrite Hex.
  cbn [log_request w_fetch]. rewrite Hfetch.
  cbn [Z.eqb Pos.eqb negb time_time set_fs w_now w_tick w_fs w_fetch w_requests
       w_received w_writes w_posts].
  match goal with
  | |- context [fold_left (write_chunk cb ?a ?b ?c ?d) chunks ?tr0] =>
      destruct (chunks_effect cb a b c d chunks Hcb tr0) as (Hd & Hrq & Hrc & Hfs);
      specialize (Hfs (w_fs w) eq_refl);
      set (tr := fold_left (write_chunk cb a b c d) chunks tr0) in *
  end.
  cbn [downloaded_size tr_state fst snd w_requests w_received] in Hd, Hrq, Hrc.
  destruct breaks_off; cbn [fst snd negb].
  - rewrite Hfs, Hrc, Hrq, Hd. tauto.
  - unfold call_back. destruct cb as [f|]; cbn [fst snd].
    + match goal with
      | |- context [f ?i ?ws] =>
          destruct (Hcb i ws) as (Hfs' & Hrq' & Hrc'); cbn in Hfs', Hrq', Hrc'
      end.
      rewrite Hfs', Hrq', Hrc', Hfs, Hrc, Hrq, Hd. tauto.
    + rewrite Hfs, Hrc, Hrq, Hd. tauto.
Qed.

(** Whatever becomes of one item, the file system changes at the item's own
    path at most, and at most one request goes out, to the item's URL. *)
Lemma download_single_file_frame cb fi download_dir w s :
  keeps_files cb ->
  let r := download_single_file cb fi download_dir (w, s) in
  (forall p, p <> full_file_path download_dir fi ->
             w_fs r.2.1 !! p = w_fs w !! p) /\
  (w_requests r.2.1 = w_requests w \/
   fi_mediaDownloadUrl fi <> EmptyString /\
   exists_nonempty (w_fs w) (full_file_path download_dir fi) = false /\
   w_requests r.2.1 = (w_requests w ++ [fi_mediaDownloadUrl fi])%list) /\
  w_received w <= w_received r.2.1.
Proof.
  intros Hcb. cbv zeta.
  destruct (str_nonempty (fi_mediaDownloadUrl fi)) eqn:Eu.
  2:{ unfold download_single_file. rewrite Eu. cbn. split; [tauto |]. split; [tauto | lia]. }
  assert (Hurl : fi_mediaDownloadUrl fi <> EmptyString).
  { intros E. rewrite E in Eu. discriminate. }
  destruct (exists_nonempty (w_fs w) (full_file_path download_dir fi)) eqn:Eex.
  { rewrite (skip_existing cb fi download_dir w s Hurl Eex). cbn [fst snd].
    destruct (Hcb (skipped_event (w_fs w) download_dir fi) (w, s)) as (Hfs & Hrq & Hrc).
    cbn in Hfs, Hrq, Hrc. rewrite Hfs, Hrq, Hrc.
    split; [tauto |]. split; [tauto | lia]. }
  destruct (w_fetch w (fi_mediaDownloadUrl fi)) as [|code cl chunks b] eqn:Ef.
  { unfold download_single_file. rewrite Eu, Eex. cbn [negb log_request w_fetch].
    rewrite Ef. cbn. split; [tauto |]. split; [right; tauto | lia]. }
  destruct (code =? 200)%Z eqn:Ec.
  - apply Z.eqb_eq in Ec. subst code.
    destruct (fetch_effect cb fi download_dir w s cl chunks b Hcb Hurl Eex Ef)
      as (_ & Hfs & Hrc & Hrq).
    rewrite Hfs, Hrq, Hrc. split; [| split; [right; tauto |]].
    + intros p Hp. apply lookup_insert_ne. congruence.
    + assert (0 <= bytes_of chunks); [| lia].
      unfold bytes_of. clear.
      induction chunks as [|c rest IH]; cbn [map fold_right]; [lia |].
      pose proof (Z.le_max_l 0 c). apply Z.add_nonneg_nonneg; assumption.
  - unfold download_single_file. rewrite Eu, Eex. cbn [negb log_request w_fetch].
    rewrite Ef, Ec. cbn. split; [tauto |]. split; [right; tauto | lia].
Qed.

Lemma download_loop_frame cb download_dir files :
  keeps_files cb ->
  forall acc,
    let acc' := fold_left (download_one cb download_dir) files acc in
    (forall p, (forall fi, In fi files -> p <> full_file_path download_dir fi) ->
               w_fs (tl_state acc').1 !! p = w_fs (tl_state acc).1 !! p) /\
    (exists fetched,
        sublist fetched files /\
        Forall (fun fi => fi_mediaDownloadUrl fi <> EmptyString) fetched /\
        w_requests (tl_state acc').1
        = (w_requests (tl_state acc).1 ++ map fi_mediaDownloadUrl fetched)%list) /\
    w_received (tl_state acc).1 <= w_received (tl_state acc').1.
Proof.
  intros Hcb. induction files as [|fi rest IH]; intros acc; cbn [fold_left].
  - split; [tauto |]. split; [| lia].
    exists []. split; [constructor |]. split; [constructor |].
    cbn. rewrite app_nil_r. reflexivity.
  - specialize (IH (download_one cb download_dir acc fi)). cbv zeta in IH.
    destruct IH as (Hfs & (fetched & Hsub & Hurl & Hrq) & Hrc).
    assert (Hone :
              (forall p, p <> full_file_path download_dir fi ->
                         w_fs (tl_state (download_one cb download_dir acc fi)).1 !! p
                         = w_fs (tl_state acc).1 !! p) /\
              (w_requests (tl_state (download_one cb download_dir acc fi)).1
               = w_requests (tl_state acc).1 \/
               fi_mediaDownloadUrl fi <> EmptyString /\
               w_requests (tl_state (download_one cb download_dir acc fi)).1
               = (w_requests (tl_state acc).1 ++ [fi_mediaDownloadUrl fi])%list) /\
              w_received (tl_state acc).1
              <= w_received (tl_state (download_one cb download_dir acc fi)).1).
    { unfold download_one. destruct (tl_state acc) as [w s].
      pose proof (download_single_file_frame cb fi download_dir w s Hcb) as H.
      cbv zeta in H.
      destruct (download_single_file cb fi download_dir (w, s)) as [ok ws'].
      cbn [fst snd] in H. destruct H as (H1 & H2 & H3).
      destruct ok; cbn [tl_state fst snd]; (split; [exact H1 |]); (split; [| exact H3]);
        tauto. }
    destruct Hone as (Hfs1 & Hrq1 & Hrc1).
    split; [| split; [| lia]].
    + intros p Hp. rewrite Hfs by (intros fi' Hin; apply Hp; right; exact Hin).
      apply Hfs1, Hp. left. reflexivity.
    + destruct Hrq1 as [Hsame | [Hu Hsnoc]].
      * exists fetched. split; [apply sublist_cons, Hsub |]. split; [exact Hurl |].
        rewrite Hrq, Hsame. reflexivity.
      * exists (fi :: fetched). split; [apply sublist_skip, Hsub |].
        split; [constructor; assumption |].
        rewrite Hrq, Hsnoc, <- app_assoc. reflexivity.
Qed.

Lemma selected_files_extracted tracks target_path fi :
  In fi (selected_files tracks target_path) ->
  In fi (_extract_files_from_tracks tracks EmptyString).
Proof.
  unfold selected_files. destruct (str_nonempty target_path); [| tauto].
  rewrite filter_by_path_filter. intros H.
  apply list_elem_of_In in H. apply list_elem_of_filter in H as [_ H].
  apply list_elem_of_In, H.
Qed.

Lemma selected_files_clean tracks target_path fi :
  In fi (selected_files tracks target_path) ->
  Forall clean_segment (segments fi).
Proof.
  intros H. apply selected_files_extracted in H.
  unfold _extract_files_from_tracks in H. apply in_flat_map in H as (t & _ & H).
  pose proof (extract_track_clean t EmptyString (or_introl eq_refl)) as Hc.
  rewrite Forall_forall in Hc. apply Hc, list_elem_of_In, H.
Qed.

(** The path at which [download_single_file] stores a selected item. *)
Lemma selected_item_path config wi tracks target_path fi :
  In fi (selected_files tracks target_path) ->
  full_file_path (download_dir_of config wi) fi
  = item_path (download_directory config wi) fi.
Proof.
  intros H. apply selected_files_extracted in H.
  unfold _extract_files_from_tracks in H. apply in_flat_map in H as (t & _ & H).
  pose proof (extract_track_fields t EmptyString (or_introl eq_refl)) as Hc.
  rewrite Forall_forall in Hc. destruct (Hc fi (proj2 (list_elem_of_In _ _) H)).
  apply full_file_path_item; [apply download_directory_shaped | assumption ..].
Qed.

End FetchAgain.

(** X7. A run of [download_tracks] whose callback leaves the files alone
    touches no regular file outside its download directory.  A file can
    change only at the path that [pathlib] makes of the download directory
    and the relative path of a selected item: the root and the parts of the
    directory, followed by the segments of the relative path.  Every such
    segment is a sanitised name, so it holds no slash or backslash and is
    neither [.] nor [..]: no track title can steer a write out of the
    directory.  (Directories, which the run makes as it needs them, are not
    files.) *)
Theorem downloads_stay_in_directory {State : Type}
  (cb : option (progress_info -> world * State -> world * State))
  (config : ASMRConfig) (tracks : list track) (wi : work_info)
  (target_path : string) (w : world) (s : State) :
  keeps_files cb ->
  let files := selected_files tracks target_path in
  let dir := download_directory config wi in
  let r := download_tracks cb config tracks wi target_path (w, s) in
  (forall p,
      (forall fi, In fi files -> p <> item_path dir fi) ->
      w_fs r.2.1 !! p = w_fs w !! p) /\
  (forall fi,
      In fi files ->
      Path (item_path dir fi)
      = {| pp_root := pp_root dir; pp_parts := (pp_parts dir ++ segments fi)%list |} /\
      Forall (fun seg => clean_segment seg /\ seg <> "." /\ seg <> "..")
        (segments fi)).
Proof.
  intros Hcb. cbv zeta. split.
  - intros p Hp. unfold download_tracks. cbn [fst snd].
    destruct (download_loop_frame cb (download_dir_of config wi)
                (selected_files tracks target_path) Hcb
                {| tl_completed := []; tl_failed := []; tl_state := (w, s) |})
      as (Hfs & _).
    apply Hfs. intros fi Hin.
    rewrite (selected_item_path config wi tracks target_path fi Hin).
    apply Hp, Hin.
  - intros fi Hin.
    pose proof (selected_files_clean _ _ _ Hin) as Hclean. split.
    + unfold item_path. apply Path_path_str.
      destruct (download_directory_shaped config wi) as [Hr Hp].
      split; [exact Hr |]. cbn [pp_parts]. apply Forall_app. split; [exact Hp |].
      eapply Forall_impl; [exact Hclean | apply clean_segment_part].
    + eapply Forall_impl; [exact Hclean |].
      intros seg Hseg. split; [exact Hseg | apply clean_segment_not_dots, Hseg].
Qed.

Lemma downloads_stay_in_directory_witness :
  let r := download_tracks (State := unit) None plain_config fetch_manifest
             plain_work EmptyString (fetch_world, tt) in
  keeps_files (State := unit) None /\
  map (item_path (download_directory plain_config plain_work))
    (selected_files fetch_manifest EmptyString)
  = ["/data/asmr/RJ123456 - Title/a.mp3"] /\
  w_fs fetch_world !! "/data/asmr/RJ123456 - Title/a.mp3" = None /\
  w_fs r.2.1 !! "/data/asmr/RJ123456 - Title/a.mp3" = Some 1000 /\
  w_fs r.2.1 !! "/data/asmr/RJ123456 - Title" = w_fs fetch_world !! "/data/asmr/RJ123456 - Title".
Proof.
  cbv zeta.
  split; [apply keeps_files_none |].
  split; [vm_compute; reflexivity |].
  split; [reflexivity |].
  split; [vm_compute; reflexivity |].
  apply (downloads_stay_in_directory None plain_config fetch_manifest plain_work
           EmptyString fetch_world tt keeps_files_none).
  intros fi [<- | []]. vm_compute. discriminate.
Defined.

(** X8. A run of [download_tracks] sends at most one request per selected
    item, in the order of the list and to the item's own URL: the requests it
    adds are the URLs of a sublist of the selected items, each of them with a
    non-empty URL.  No item is requested twice, so an item whose fetch fails
    is not tried again within the run; and the bytes received never
    decrease. *)
Theorem one_request_per_item {State : Type}
  (cb : option (progress_info -> world * State -> world * State))
  (config : ASMRConfig) (tracks : list track) (wi : work_info)
  (target_path : string) (w : world) (s : State) :
  keeps_files cb ->
  let r := download_tracks cb config tracks wi target_path (w, s) in
  (exists fetched,
      sublist fetched (selected_files tracks target_path) /\
      Forall (fun fi => fi_mediaDownloadUrl fi <> EmptyString) fetched /\
      w_requests r.2.1 = (w_requests w ++ map fi_mediaDownloadUrl fetched)%list) /\
  w_received w <= w_received r.2.1.
Proof.
  intros Hcb. cbv zeta. unfold download_tracks. cbn [fst snd].
  destruct (download_loop_frame cb (download_dir_of config wi)
              (selected_files tracks target_path) Hcb
              {| tl_completed := []; tl_failed := []; tl_state := (w, s) |})
    as (_ & Hrq & Hrc).
  split; [exact Hrq | exact Hrc].
Qed.

Lemma one_request_per_item_witness :
  keeps_files (State := unit) None /\
  w_received populated_world
  <= w_received (download_tracks (State := unit) None plain_config
                   one_file_manifest plain_work EmptyString
                   (populated_world, tt)).2.1.
Proof.
  split; [apply keeps_files_none |].
  exact (proj2 (one_request_per_item None plain_config one_file_manifest
                  plain_work EmptyString populated_world tt keeps_files_none)).
Defined.





(** ** The counters of the callback *)

Section CallbackAgain.

Lemma name_in_spec filename (l : list string) :
  name_in filename l = true <-> In filename l.
Proof.
  unfold name_in. rewrite existsb_exists. split.
  - intros (x & Hin & Heq). apply String.eqb_eq in Heq. subst. exact Hin.
  - intros Hin. exists filename. split; [exact Hin | apply String.eqb_refl].
Qed.

Lemma progress_callback_count task_id wi file_sizes total_bytes total_files info w tk :
  completed_files
    (progress_callback task_id wi file_sizes total_bytes total_files info (w, tk)).2
  = if is_completion info then completed_files tk + 1 else completed_files tk.
Proof.
  unfold progress_callback, is_completion.
  destruct (String.eqb (pi_status info) "complete" || String.eqb (pi_status info) "skipped").
  - destruct (str_nonempty _ && negb _);
      destruct (update_download_progress _ _ _ _ _ _ _ _ _ _ _ _); reflexivity.
  - destruct (String.eqb (pi_status info) "active");
      destruct (update_download_progress _ _ _ _ _ _ _ _ _ _ _ _); reflexivity.
Qed.

Lemma progress_callback_active task_id wi file_sizes total_bytes total_files info w tk :
  pi_status info = "active" ->
  let tk' := (progress_callback task_id wi file_sizes total_bytes total_files
                info (w, tk)).2 in
  completed_files_list tk' = completed_files_list tk /\
  downloaded_bytes tk'
  = completed_bytes file_sizes (completed_files_list tk) + pi_completed_length info.
Proof.
  intros Hst. cbv zeta. unfold progress_callback. rewrite Hst.
  cbn [String.eqb Ascii.eqb Bool.eqb orb].
  destruct (update_download_progress _ _ _ _ _ _ _ _ _ _ _ _). cbn.
  split; reflexivity.
Qed.

End CallbackAgain.

(** X11. The callback of [perform_download_sync] keeps its completed list free
    of repetitions and of empty names, and never longer than its count of
    completed files: the count goes up by one on every [complete] or
    [skipped] event, the list only by a name that is new.  So
    [completedFiles] can run ahead of the length of [completedFilesList] (two
    items of the same bare name in different folders), never behind it. *)
Theorem tracker_stays_consistent (task_id : string) (wi : work_info)
  (file_sizes : gmap string Z) (total_bytes total_files : Z)
  (info : progress_info) (w : world) (tk : tracker) :
  tracker_consistent tk ->
  let tk' := (progress_callback task_id wi file_sizes total_bytes total_files
                info (w, tk)).2 in
  tracker_consistent tk' /\
  completed_files tk'
  = (if is_completion info then completed_files tk + 1 else completed_files tk).
Proof.
  intros (Hnd & Hne & Hlen). cbv zeta.
  split; [| apply progress_callback_count].
  destruct (progress_callback_lists task_id wi file_sizes total_bytes total_files
              info w tk) as [Hl _]. cbv zeta in Hl.
  pose proof (progress_callback_count task_id wi file_sizes total_bytes total_files
                info w tk) as Hc.
  unfold tracker_consistent. rewrite Hl, Hc.
  destruct (is_completion info); cbn [andb]; [| repeat split; assumption].
  destruct (str_nonempty (pi_filename info)) eqn:Ename; cbn [andb];
    [| repeat split; try assumption; lia].
  destruct (name_in (pi_filename info) (completed_files_list tk)) eqn:Ein; cbn [negb];
    [repeat split; try assumption; lia |].
  split; [| split].
  - apply NoDup_app. split; [exact Hnd |]. split; [| apply NoDup_singleton].
    intros x Hx Hx'. apply list_elem_of_singleton in Hx'. subst x.
    apply list_elem_of_In, name_in_spec in Hx. congruence.
  - apply Forall_app. split; [exact Hne |]. constructor; [| constructor].
    intros E. rewrite E in Ename. discriminate.
  - rewrite length_app. cbn. lia.
Qed.

Lemma tracker_stays_consistent_witness :
  let tk' := (progress_callback "job" plain_work ∅ 0 1 (event "a.mp3" "complete" 10)
                (quiet_world [], fresh_tracker)).2 in
  tracker_consistent tk' /\
  completed_files tk'
  = (if is_completion (event "a.mp3" "complete" 10)
     then completed_files fresh_tracker + 1 else completed_files fresh_tracker).
Proof.
  apply (tracker_stays_consistent "job" plain_work ∅ 0 1 (event "a.mp3" "complete" 10)
           (quiet_world []) fresh_tracker).
  split; [apply NoDup_nil_2 | split; [constructor | cbn; lia]].
Defined.

(** X12. The byte counter of the callback counts a fetched file twice.  An
    [active] event sets [downloaded_bytes] to the sizes of the completed
    files plus the bytes of the current file received so far; the [complete]
    event of that file then adds the file's declared size to this value
    instead of to the total of the completed files.  After the pair the
    counter stands at the completed total, plus the bytes the [active] event
    reported, plus the declared size of the file. *)
Theorem active_bytes_counted_twice (task_id : string) (wi : work_info)
  (file_sizes : gmap string Z) (total_bytes total_files : Z)
  (filename : string) (received : Z) (w : world) (tk : tracker) :
  filename <> EmptyString ->
  ~ In filename (completed_files_list tk) ->
  let cb := progress_callback task_id wi file_sizes total_bytes total_files in
  let after_active := cb (event filename "active" received) (w, tk) in
  let after_complete := cb (event filename "complete" received) after_active in
  downloaded_bytes after_active.2
  = completed_bytes file_sizes (completed_files_list tk) + received /\
  downloaded_bytes after_complete.2
  = completed_bytes file_sizes (completed_files_list tk) + received
    + size_of file_sizes filename /\
  completed_files_list after_complete.2
  = (completed_files_list tk ++ [filename])%list.
Proof.
  intros Hne Hnew. cbv zeta.
  destruct (progress_callback_active task_id wi file_sizes total_bytes total_files
              (event filename "active" received) w tk eq_refl) as [Hl Hb].
  cbv zeta in Hl, Hb. cbn [event pi_completed_length] in Hb.
  destruct (progress_callback task_id wi file_sizes total_bytes total_files
              (event filename "active" received) (w, tk)) as [w1 tk1].
  cbn [snd] in *.
  destruct (progress_callback_lists task_id wi file_sizes total_bytes total_files
              (event filename "complete" received) w1 tk1) as [Hl2 Hb2].
  cbv zeta in Hl2, Hb2. specialize (Hb2 eq_refl).
  cbn [event pi_filename] in Hl2, Hb2.
  assert (Hfresh : str_nonempty filename
                   && negb (name_in filename (completed_files_list tk1)) = true).
  { rewrite Hl. destruct (name_in filename (completed_files_list tk)) eqn:E.
    - apply name_in_spec in E. contradiction.
    - destruct filename; [congruence | reflexivity]. }
  rewrite Hfresh in Hl2, Hb2.
  change (is_completion (event filename "complete" received)) with true in Hl2.
  cbn [andb] in Hl2.
  split; [exact Hb |]. split; [rewrite Hb2, Hb; reflexivity | rewrite Hl2, Hl; reflexivity].
Qed.

Lemma active_bytes_counted_twice_witness :
  let cb := progress_callback "job" plain_work {[ "a.mp3" := 1000 ]} 1000 1 in
  let after_active := cb (event "a.mp3" "active" 1000) (quiet_world [], fresh_tracker) in
  let after_complete := cb (event "a.mp3" "complete" 1000) after_active in
  downloaded_bytes after_active.2
  = completed_bytes {[ "a.mp3" := 1000 ]} (completed_files_list fresh_tracker) + 1000 /\
  downloaded_bytes after_complete.2
  = completed_bytes {[ "a.mp3" := 1000 ]} (completed_files_list fresh_tracker) + 1000
    + size_of {[ "a.mp3" := 1000 ]} "a.mp3" /\
  completed_files_list after_complete.2
  = (completed_files_list fresh_tracker ++ ["a.mp3"])%list.
Proof.
  apply (active_bytes_counted_twice "job" plain_work {[ "a.mp3" := 1000 ]} 1000 1
           "a.mp3" 1000 (quiet_world []) fresh_tracker).
  - discriminate.
  - intros [].
Defined.

(** ** The result of a job and its last snapshot *)

Section ResultAgain.

Lemma update_failed_agrees task_id why wi failed w :
  exists term,
    last (w_writes (update_failed task_id why wi w)) = Some term /\
    agrees task_id (failed_result task_id why failed) term.
Proof.
  unfold update_failed. rewrite update_progress_writes, last_snoc.
  eexists. split; [reflexivity |]. repeat split.
Qed.

Lemma download_phase_agrees config pm task_id work_id target_path wi tracks w :
  let r := download_phase config pm task_id work_id target_path wi tracks w in
  (exists term, last (w_writes r.2) = Some term /\ agrees task_id r.1 term) /\
  (r_status r.1 = "Succeed" /\ r_reason r.1 = None \/
   r_status r.1 = "Failed" /\ r_reason r.1 = Some "All downloads failed").
Proof.
  cbv zeta. unfold download_phase.
  destruct (update_preparing _ _ _ _ _ _) as [pm1 w1].
  destruct (size_table _ _) as [file_sizes total_bytes].
  destruct (download_tracks _ _ _ _ _ _) as [dr [w2 tk2]].
  destruct (0 <? success_count dr)%Z; cbn [fst snd].
  - split; [| left; split; reflexivity].
    unfold update_success. rewrite update_progress_writes, last_snoc.
    eexists. split; [reflexivity |]. repeat split.
  - split; [apply update_failed_agrees | right; split; reflexivity].
Qed.

Lemma after_starting_agrees up config pm task_id work_id target_path w :
  let r := after_starting up config pm task_id work_id target_path w in
  match r.1 with
  | inr res =>
      (exists term, last (w_writes r.2) = Some term /\ agrees task_id res term) /\
      (r_status res = "Succeed" /\ r_reason res = None \/
       r_status res = "Failed" /\ exists why, r_reason res = Some why)
  | inl e => r.2 = w
  end.
Proof.
  cbv zeta. unfold after_starting.
  assert (Hfail : forall why wi0,
             (exists term,
                 last (w_writes (update_failed task_id why wi0 w)) = Some term /\
                 agrees task_id (failed_result task_id why None) term) /\
             (r_status (failed_result task_id why None) = "Succeed" /\
              r_reason (failed_result task_id why None) = None \/
              r_status (failed_result task_id why None) = "Failed" /\
              exists why', r_reason (failed_result task_id why None) = Some why')).
  { intros why wi0. split; [apply update_failed_agrees |].
    right. split; [reflexivity | eexists; reflexivity]. }
  destruct (negb (validate config)); [apply Hfail |].
  destruct (login up) as [e|code body]; [reflexivity |].
  destruct (negb _); [apply Hfail |].
  destruct body as [e|[token|]]; [reflexivity | | reflexivity].
  destruct (work up) as [e|code' body']; [reflexivity |].
  destruct (negb _); [apply Hfail |].
  destruct body' as [e|wi]; [reflexivity |].
  destruct (tracks_of_work up) as [e|code'' body'']; [reflexivity |].
  destruct (negb _); [apply Hfail |].
  destruct body'' as [e|tracks]; [reflexivity |].
  pose proof (download_phase_agrees config pm task_id work_id target_path wi tracks w)
    as H. cbv zeta in H.
  destruct (download_phase _ _ _ _ _ _ _ _) as [res w']. cbn [fst snd] in *.
  destruct H as [H1 [H2 | [H2 H3]]]; (split; [exact H1 |]); [left; exact H2 |].
  right. split; [exact H2 | eexists; exact H3].
Qed.

End ResultAgain.

(** X13. The result a job returns and the last snapshot it wrote agree.
    Every result carries the job's id and is either a ["Succeed"] without a
    reason or a ["Failed"] with one; when the progress manager could be
    built, the last snapshot of the progress file has the same id, the same
    status and the same reason as the result (the text one reads in the file
    is the text the callback delivers); when it could not, nothing is
    written. *)
Theorem result_matches_last_snapshot (up : upstream)
  (task_id work_id quality target_path : string) (w : world) :
  let r := perform_download_sync up task_id work_id quality target_path w in
  r_requestId r.1 = task_id /\
  (r_status r.1 = "Succeed" /\ r_reason r.1 = None \/
   r_status r.1 = "Failed" /\ exists why, r_reason r.1 = Some why) /\
  (if manager_built up
   then exists term,
       last (w_writes r.2) = Some term /\ requestId term = task_id /\
       status term = r_status r.1 /\ reason term = r_reason r.1
   else w_writes r.2 = w_writes w).
Proof.
  cbv zeta. unfold perform_download_sync, manager_built.
  destruct (results_dir_mkdir up) as [e|].
  { cbn. split; [reflexivity |]. split; [| reflexivity].
    right. split; [reflexivity | eexists; reflexivity]. }
  destruct (from_env (os_environ up)) as [e|config].
  { cbn. split; [reflexivity |]. split; [| reflexivity].
    right. split; [reflexivity | eexists; reflexivity]. }
  destruct (update_starting _ _ _ _) as [pm w1].
  pose proof (after_starting_agrees up config pm task_id work_id target_path w1) as H.
  cbv zeta in H.
  destruct (after_starting _ _ _ _ _ _ _) as [[e|res] w2]; cbn [fst snd] in *.
  - destruct (update_failed_agrees task_id e None None w2)
      as (term & Hl & H1 & H2 & H3 & H4).
    split; [reflexivity |].
    split; [right; split; [reflexivity | eexists; reflexivity] |].
    exists term. tauto.
  - destruct H as [(term & Hl & H1 & H2 & H3 & H4) Hs].
    split; [exact H2 |]. split; [exact Hs |]. exists term. tauto.
Qed.

(** ** The callback posts *)

Section PostsAgain.

Context {State : Type}.
Implicit Types (cb : option (progress_info -> world * State -> world * State)).

Lemma write_chunk_posts cb filename path total_size start_time tr chunk :
  keeps_posts cb ->
  w_posts (tr_state (write_chunk cb filename path total_size start_time tr chunk)).1
  = w_posts (tr_state tr).1.
Proof.
  intros Hcb. unfold write_chunk.
  destruct (0 <? chunk)%Z; [| reflexivity].
  destruct (tr_state tr) as [w s]. cbn [fst snd time_time].
  destruct cb as [f|]; [destruct (_ <=? _)%float |]; cbn; try reflexivity.
  match goal with
  | |- context [f ?i ?ws] => pose proof (Hcb i ws) as H; cbn in H
  end.
  exact H.
Qed.

Lemma chunks_posts cb filename path total_size start_time chunks :
  keeps_posts cb ->
  forall tr,
    w_posts (tr_state (fold_left (write_chunk cb filename path total_size start_time)
                         chunks tr)).1
    = w_posts (tr_state tr).1.
Proof.
  intros Hcb. induction chunks as [|c rest IH]; intros tr; cbn [fold_left];
    [reflexivity |].
  rewrite IH. apply write_chunk_posts, Hcb.
Qed.

Lemma download_single_file_posts cb fi download_dir ws :
  keeps_posts cb ->
  w_posts (download_single_file cb fi download_dir ws).2.1 = w_posts ws.1.
Proof.
  intros Hcb. unfold download_single_file.
  destruct (negb _); [reflexivity |]. destruct ws as [w s].
  destruct (exists_nonempty _ _); cbn [fst snd]; [apply (Hcb _ (w, s)) |].
  cbn [log_request w_fetch].
  destruct (w_fetch w _) as [|code cl chunks b]; [reflexivity |].
  destruct (negb _); [reflexivity |]. cbn [time_time].
  destruct b; cbn [fst snd].
  - rewrite chunks_posts by exact Hcb. reflexivity.
  - rewrite (Hcb _ _), chunks_posts by exact Hcb. reflexivity.
Qed.

Lemma download_loop_posts cb download_dir files :
  keeps_posts cb ->
  forall acc,
    w_posts (tl_state (fold_left (download_one cb download_dir) files acc)).1
    = w_posts (tl_state acc).1.
Proof.
  intros Hcb. induction files as [|fi rest IH]; intros acc; cbn [fold_left];
    [reflexivity |].
  rewrite IH. unfold download_one.
  pose proof (download_single_file_posts cb fi download_dir (tl_state acc) Hcb) as H.
  destruct (download_single_file _ _ _ _) as [[|] ws']; exact H.
Qed.

End PostsAgain.

Section JobPosts.

Lemma update_progress_posts task_id st kwargs w :
  w_posts (update_progress task_id st kwargs w) = w_posts w.
Proof. reflexivity. Qed.

Lemma update_download_progress_posts pm w task_id wi p speed cf tf cur cfl db tb :
  w_posts (update_download_progress pm w task_id wi p speed cf tf cur cfl db tb).2
  = w_posts w.
Proof.
  rewrite update_download_progress_steps. cbv zeta.
  destruct (should_update_file _ _ _).1; reflexivity.
Qed.

Lemma progress_callback_keeps_posts task_id wi file_sizes total_bytes total_files :
  keeps_posts (Some (progress_callback task_id wi file_sizes total_bytes total_files)).
Proof.
  intros info [w tk]. cbn [call_back fst]. unfold progress_callback.
  repeat match goal with
         | |- context [if ?b then _ else _] => destruct b
         end; cbv beta iota zeta.
  all: match goal with
       | |- context [update_download_progress ?a ?b ?c ?d ?e ?f ?g ?h ?i ?j ?k ?l] =>
           pose proof (update_download_progress_posts a b c d e f g h i j k l) as H;
           destruct (update_download_progress a b c d e f g h i j k l) as [pm' w']
       end.
  all: exact H.
Qed.

Lemma download_phase_posts config pm task_id work_id target_path wi tracks w :
  w_posts (download_phase config pm task_id work_id target_path wi tracks w).2
  = w_posts w.
Proof.
  unfold download_phase.
  destruct (update_preparing _ _ _ _ _ _) as [pm1 w1] eqn:Eprep.
  assert (H1 : w_posts w1 = w_posts w).
  { unfold update_preparing in Eprep. injection Eprep as _ <-. reflexivity. }
  destruct (size_table _ _) as [file_sizes total_bytes].
  match goal with
  | |- context [download_tracks ?cb ?c ?t ?i ?p ?ws] =>
      pose proof (download_loop_posts cb (download_dir_of c i) (selected_files t p)
                    (progress_callback_keeps_posts _ _ _ _ _)
                    {| tl_completed := []; tl_failed := []; tl_state := ws |}) as H2;
      unfold download_tracks
  end.
  cbn [tl_state fst snd] in H2. cbv zeta.
  set (acc := fold_left _ _ _) in *.
  destruct (tl_state acc) as [w2 tk2]. cbn [fst] in H2.
  destruct (0 <? _)%Z; cbn [snd]; unfold update_success, update_failed;
    rewrite update_progress_posts; congruence.
Qed.

Lemma after_starting_posts up config pm task_id work_id target_path w :
  w_posts (after_starting up config pm task_id work_id target_path w).2 = w_posts w.
Proof.
  unfold after_starting.
  destruct (negb (validate config)); [reflexivity |].
  destruct (login up) as [e|code body]; [reflexivity |].
  destruct (negb _); [reflexivity |].
  destruct body as [e|[token|]]; [reflexivity | | reflexivity].
  destruct (work up) as [e|code' body']; [reflexivity |].
  destruct (negb _); [reflexivity |].
  destruct body' as [e|wi]; [reflexivity |].
  destruct (tracks_of_work up) as [e|code'' body'']; [reflexivity |].
  destruct (negb _); [reflexivity |].
  destruct body'' as [e|tracks]; [reflexivity |].
  pose proof (download_phase_posts config pm task_id work_id target_path wi tracks w)
    as H.
  destruct (download_phase _ _ _ _ _ _ _ _) as [res w']. exact H.
Qed.

Lemma perform_posts up task_id work_id quality target_path w :
  w_posts (perform_download_sync up task_id work_id quality target_path w).2
  = w_posts w.
Proof.
  unfold perform_download_sync.
  destruct (results_dir_mkdir up); [reflexivity |].
  destruct (from_env (os_environ up)) as [e|config]; [reflexivity |].
  destruct (update_starting _ _ _ _) as [pm w1] eqn:Es.
  assert (H1 : w_posts w1 = w_posts w).
  { unfold update_starting in Es. injection Es as _ <-. reflexivity. }
  pose proof (after_starting_posts up config pm task_id work_id target_path w1) as H.
  destruct (after_starting _ _ _ _ _ _ _) as [[e|res] w2]; cbn [snd] in *.
  - unfold update_failed. rewrite update_progress_posts. congruence.
  - congruence.
Qed.

Lemma perform_request_id up task_id work_id quality target_path w :
  r_requestId (perform_download_sync up task_id work_id quality target_path w).1
  = task_id.
Proof.
  unfold perform_download_sync.
  destruct (results_dir_mkdir up); [reflexivity |].
  destruct (from_env (os_environ up)) as [e|config]; [reflexivity |].
  destruct (update_starting _ _ _ _) as [pm w1].
  pose proof (after_starting_agrees up config pm task_id work_id target_path w1) as H.
  cbv zeta in H.
  destruct (after_starting _ _ _ _ _ _ _) as [[e|res] w2]; cbn [fst snd] in *;
    [reflexivity |].
  destruct H as [(term & _ & _ & H & _) _]. exact H.
Qed.

End JobPosts.

(** X14. The thread of a job posts its result after the job, and only then.
    The job itself posts nothing.  Without both callback settings, or with an
    empty one, the thread posts nothing either.  Otherwise every post goes to
    the base address, the plugin name and the job's id joined by slashes, and
    carries the job's id; the first one carries the result the job returned;
    there are two posts when the first one raised something other than a
    request exception (the second one then carries a failure with the text of
    the exception), else one. *)
Theorem thread_posts_the_result (up : upstream)
  (task_id work_id quality target_path : string) (w : world) :
  let r := perform_download_sync up task_id work_id quality target_path w in
  let w' := background_download_task up task_id work_id quality target_path w in
  w_posts r.2 = w_posts w /\
  exists posts,
    w_posts w' = (w_posts w ++ posts)%list /\
    match callback_url_of up task_id with
    | None => posts = []
    | Some address =>
        head posts = Some (address, r.1) /\
        Forall (fun p => p.1 = address /\ r_requestId p.2 = task_id) posts /\
        match post_raises up with
        | Some (false, e) => posts = [(address, r.1); (address, failed_result task_id e None)]
        | _ => posts = [(address, r.1)]
        end
    end.
Proof.
  cbv zeta. split; [apply perform_posts |].
  unfold background_download_task, callback_url_of.
  pose proof (perform_posts up task_id work_id quality target_path w) as Hp.
  pose proof (perform_request_id up task_id work_id quality target_path w) as Hid.
  destruct (perform_download_sync _ _ _ _ _ _) as [result w1]. cbn [fst snd] in *.
  destruct (callback_base_url up) as [base|];
    [| exists []; rewrite app_nil_r; split; [exact Hp | reflexivity]].
  destruct (plugin_name_for_callback up) as [plugin_name|];
    [| exists []; rewrite app_nil_r; split; [exact Hp | reflexivity]].
  destruct (str_nonempty base && str_nonempty plugin_name);
    [| exists []; rewrite app_nil_r; split; [exact Hp | reflexivity]].
  destruct (post_raises up) as [[[|] e]|].
  - eexists [_]. cbn. rewrite Hp. split; [reflexivity |].
    split; [reflexivity |]. split; [| reflexivity].
    constructor; [split; [reflexivity | exact Hid] | constructor].
  - eexists [_; _]. cbn. rewrite Hp, <- app_assoc. split; [reflexivity |].
    split; [reflexivity |]. split; [| reflexivity].
    constructor; [split; [reflexivity | exact Hid] |].
    constructor; [split; reflexivity | constructor].
  - eexists [_]. cbn. rewrite Hp. split; [reflexivity |].
    split; [reflexivity |]. split; [| reflexivity].
    constructor; [split; [reflexivity | exact Hid] | constructor].
Qed.

(** ** The environment file *)

Example load_sample_env_file :
  load_env_file ascii_strip posix_putenv_error (Some sample_env_file)
    {[ "ASMR_USERNAME" := "bob" ]}
  = inr {[ "ASMR_USERNAME" := "bob"; "ASMR_PASSWORD" := "first" ]}.
Proof. vm_compute. reflexivity. Qed.

Section EnvFileFacts.

Variable py_strip : string -> string.
Variable putenv_error : string -> string -> option string.

Lemma split_once_without c s :
  PyStr.has_char c s = false -> split_once c s = [s].
Proof.
  induction s as [|a s IH]; simpl; [reflexivity |].
  destruct (Ascii.eqb a c); [discriminate |].
  intros H. rewrite (IH H). reflexivity.
Qed.

Lemma split_once_with c s :
  PyStr.has_char c s = true -> exists key value, split_once c s = [key; value].
Proof.
  induction s as [|a s IH]; simpl; [discriminate |].
  destruct (Ascii.eqb a c); [eauto |].
  intros H. destruct (IH H) as (k & v & ->). eauto.
Qed.

(** One turn of the loop, by the assignment of the line. *)
Lemma load_env_line_spec os_environ line :
  load_env_line py_strip putenv_error os_environ line
  = match assignment py_strip line with
    | Some (key, value) =>
        match os_environ !! key with
        | Some _ => inr os_environ
        | None =>
            match putenv_error key value with
            | Some e => inl e
            | None => inr (<[key := value]> os_environ)
            end
        end
    | None => inr os_environ
    end.
Proof.
  unfold load_env_line, assignment, environ_setitem. cbv zeta.
  destruct (str_nonempty (py_strip line) && negb (PyStr.startswith "#" (py_strip line)));
    cbn [andb]; [| reflexivity].
  destruct (PyStr.has_char "=" (py_strip line)) eqn:E.
  - destruct (split_once_with _ _ E) as (k & v & ->). reflexivity.
  - rewrite (split_once_without _ _ E). reflexivity.
Qed.

Lemma load_env_line_keeps os_environ line loaded :
  load_env_line py_strip putenv_error os_environ line = inr loaded ->
  (forall key value, os_environ !! key = Some value -> loaded !! key = Some value) /\
  (forall key value,
      loaded !! key = Some value ->
      os_environ !! key = Some value \/ assignment py_strip line = Some (key, value)) /\
  (forall key value,
      assignment py_strip line = Some (key, value) ->
      loaded !! key = Some (default value (os_environ !! key))).
Proof.
  rewrite load_env_line_spec.
  destruct (assignment py_strip line) as [[k v]|].
  2:{ intros [= <-]. split; [tauto |]. split; [tauto | discriminate]. }
  destruct (os_environ !! k) as [old|] eqn:Ek.
  { intros [= <-]. split; [tauto |]. split; [tauto |].
    intros key value [= <- <-]. rewrite Ek. reflexivity. }
  destruct (putenv_error k v); [discriminate |]. intros [= <-].
  split; [| split].
  - intros key value H. destruct (decide (key = k)) as [-> | Hne]; [congruence |].
    rewrite lookup_insert_ne by congruence. exact H.
  - intros key value H. destruct (decide (key = k)) as [-> | Hne].
    + rewrite lookup_insert_eq in H. injection H as <-. right. reflexivity.
    + rewrite lookup_insert_ne in H by congruence. left. exact H.
  - intros key value [= <- <-]. rewrite Ek, lookup_insert_eq. reflexivity.
Qed.

Lemma load_env_lines_keeps lines :
  forall os_environ loaded,
    load_env_lines py_strip putenv_error lines os_environ = inr loaded ->
    (forall key value, os_environ !! key = Some value -> loaded !! key = Some value) /\
    (forall key value,
        loaded !! key = Some value ->
        os_environ !! key = Some value \/
        exists line, In line lines /\ assignment py_strip line = Some (key, value)).
Proof.
  induction lines as [|line rest IH]; intros os_environ loaded; cbn [load_env_lines].
  - intros [= <-]. tauto.
  - destruct (load_env_line py_strip putenv_error os_environ line) as [e|env1] eqn:E1;
      [discriminate |].
    intros H. destruct (load_env_line_keeps _ _ _ E1) as (K1 & P1 & _).
    destruct (IH _ _ H) as (K2 & P2). split.
    + intros key value Hk. apply K2, K1, Hk.
    + intros key value Hk. destruct (P2 _ _ Hk) as [Hk1 | (l & Hin & Hl)].
      * destruct (P1 _ _ Hk1) as [Hk0 | Hl]; [left; exact Hk0 |].
        right. exists line. split; [left; reflexivity | exact Hl].
      * right. exists l. split; [right; exact Hin | exact Hl].
Qed.

Lemma load_env_lines_app before after :
  forall os_environ,
    load_env_lines py_strip putenv_error (before ++ after)%list os_environ
    = match load_env_lines py_strip putenv_error before os_environ with
      | inl e => inl e
      | inr os_environ => load_env_lines py_strip putenv_error after os_environ
      end.
Proof.
  induction before as [|line rest IH]; intros os_environ; cbn [app load_env_lines];
    [reflexivity |].
  destruct (load_env_line _ _ _ _); [reflexivity | apply IH].
Qed.

(** Lines whose variables are all set already change nothing. *)
Lemma load_env_lines_settled lines os_environ :
  (forall line key value,
      In line lines -> assignment py_strip line = Some (key, value) ->
      os_environ !! key <> None) ->
  load_env_lines py_strip putenv_error lines os_environ = inr os_environ.
Proof.
  induction lines as [|line rest IH]; intros H; cbn [load_env_lines]; [reflexivity |].
  rewrite load_env_line_spec.
  destruct (assignment py_strip line) as [[k v]|] eqn:Ea.
  - specialize (H line k v (or_introl eq_refl) Ea) as Hk.
    destruct (os_environ !! k); [| congruence].
    apply IH. intros l key value Hin. apply H. right. exact Hin.
  - apply IH. intros l key value Hin. apply H. right. exact Hin.
Qed.

(** After a load, every variable a line assigns is set. *)
Lemma load_env_lines_sets lines :
  forall os_environ loaded,
    load_env_lines py_strip putenv_error lines os_environ = inr loaded ->
    forall line key value,
      In line lines -> assignment py_strip line = Some (key, value) ->
      loaded !! key <> None.
Proof.
  induction lines as [|l rest IH]; intros os_environ loaded; cbn [load_env_lines];
    [intros _ line key value [] |].
  destruct (load_env_line py_strip putenv_error os_environ l) as [e|env1] eqn:E1;
    [discriminate |].
  intros H line key value [-> | Hin] Ha.
  - destruct (load_env_line_keeps _ _ _ E1) as (_ & _ & S1).
    destruct (load_env_lines_keeps _ _ _ H) as (K2 & _).
    rewrite (K2 _ _ (S1 _ _ Ha)). discriminate.
  - eapply IH; eauto.
Qed.

End EnvFileFacts.

(** X15. [load_env_file] never overrides the environment: a variable that
    is set when the file is read keeps its value, whatever the file says, and
    every other variable of the environment afterwards was assigned by a line
    of the file (a line that, stripped, is not empty, does not start with a
    hash sign and holds an equals sign; the variable is the stripped text
    before the first equals sign, the value the stripped text after it).  An
    absent file changes nothing. *)
Theorem env_file_never_overrides (py_strip : string -> string)
  (putenv_error : string -> string -> option string)
  (env_file : option (list string)) (os_environ loaded : gmap string string) :
  load_env_file py_strip putenv_error env_file os_environ = inr loaded ->
  (forall key value, os_environ !! key = Some value -> loaded !! key = Some value) /\
  (forall key value,
      loaded !! key = Some value ->
      os_environ !! key = Some value \/
      exists lines line,
        env_file = Some lines /\ In line lines /\
        assignment py_strip line = Some (key, value)) /\
  (env_file = None -> loaded = os_environ).
Proof.
  destruct env_file as [lines|]; cbn [load_env_file].
  - intros H. destruct (load_env_lines_keeps _ _ _ _ _ H) as (K & P).
    split; [exact K |]. split; [| discriminate].
    intros key value Hk. destruct (P _ _ Hk) as [H0 | (line & Hin & Hl)];
      [left; exact H0 | right; eauto].
  - intros [= <-]. split; [tauto |]. split; [tauto | reflexivity].
Qed.

Lemma env_file_never_overrides_witness :
  load_env_file ascii_strip posix_putenv_error (Some sample_env_file)
    {[ "ASMR_USERNAME" := "bob" ]}
  = inr {[ "ASMR_USERNAME" := "bob"; "ASMR_PASSWORD" := "first" ]} /\
  (forall key value,
      ({[ "ASMR_USERNAME" := "bob" ]} : gmap string string) !! key = Some value ->
      ({[ "ASMR_USERNAME" := "bob"; "ASMR_PASSWORD" := "first" ]} : gmap string string)
        !! key = Some value).
Proof.
  split; [exact load_sample_env_file |].
  exact (proj1 (env_file_never_overrides ascii_strip posix_putenv_error
                  (Some sample_env_file) {[ "ASMR_USERNAME" := "bob" ]}
                  {[ "ASMR_USERNAME" := "bob"; "ASMR_PASSWORD" := "first" ]}
                  load_sample_env_file)).
Defined.

(** X16. Of several lines of [config.env] that assign the same variable, the
    first one counts: when the file is loaded, a variable takes the value of
    the first line that assigns it, unless it was set before, in which case
    it keeps the value it had. *)
Theorem env_file_first_assignment_wins (py_strip : string -> string)
  (putenv_error : string -> string -> option string)
  (before after : list string) (line key value : string)
  (os_environ loaded : gmap string string) :
  load_env_file py_strip putenv_error (Some (before ++ line :: after)%list) os_environ
  = inr loaded ->
  assignment py_strip line = Some (key, value) ->
  (forall earlier other,
      In earlier before -> assignment py_strip earlier <> Some (key, other)) ->
  loaded !! key = Some (default value (os_environ !! key)).
Proof.
  cbn [load_env_file]. rewrite load_env_lines_app.
  destruct (load_env_lines py_strip putenv_error before os_environ) as [e|env1] eqn:E1;
    [discriminate |].
  cbn [load_env_lines].
  destruct (load_env_line py_strip putenv_error env1 line) as [e|env2] eqn:E2;
    [discriminate |].
  intros H Ha Hfirst.
  destruct (load_env_lines_keeps _ _ _ _ _ E1) as (K1 & P1).
  destruct (load_env_line_keeps _ _ _ _ _ E2) as (_ & _ & S2).
  destruct (load_env_lines_keeps _ _ _ _ _ H) as (K3 & _).
  apply K3. rewrite (S2 _ _ Ha). f_equal.
  destruct (os_environ !! key) as [old|] eqn:E0.
  - rewrite (K1 _ _ E0). reflexivity.
  - destruct (env1 !! key) as [v1|] eqn:Ev; [| reflexivity].
    destruct (P1 _ _ Ev) as [H0 | (l & Hin & Hl)]; [congruence |].
    exfalso. exact (Hfirst _ _ Hin Hl).
Qed.

Lemma env_file_first_assignment_wins_witness :
  ({[ "ASMR_USERNAME" := "bob"; "ASMR_PASSWORD" := "first" ]} : gmap string string)
    !! "ASMR_PASSWORD"
  = Some (default "first"
            (({[ "ASMR_USERNAME" := "bob" ]} : gmap string string) !! "ASMR_PASSWORD")).
Proof.
  apply (env_file_first_assignment_wins ascii_strip posix_putenv_error
           ["# credentials"; EmptyString; "ASMR_USERNAME = alice"]
           ["ASMR_PASSWORD=second"; "no assignment here"] "ASMR_PASSWORD=first").
  - exact load_sample_env_file.
  - reflexivity.
  - intros earlier other [<- | [<- | [<- | []]]]; vm_compute; discriminate.
Defined.

(** X17. Loading the environment file is idempotent: [from_env] reads the
    file each time a configuration is built (once per progress manager and
    once per job), and a second load into the environment the first load left
    changes nothing and raises nothing. *)
Theorem env_file_load_idempotent (py_strip : string -> string)
  (putenv_error : string -> string -> option string)
  (env_file : option (list string)) (os_environ loaded : gmap string string) :
  load_env_file py_strip putenv_error env_file os_environ = inr loaded ->
  load_env_file py_strip putenv_error env_file loaded = inr loaded.
Proof.
  destruct env_file as [lines|]; cbn [load_env_file]; [| reflexivity].
  intros H. apply load_env_lines_settled.
  intros line key value. apply (load_env_lines_sets _ _ _ _ _ H).
Qed.

Lemma env_file_load_idempotent_witness :
  load_env_file ascii_strip posix_putenv_error (Some sample_env_file)
    {[ "ASMR_USERNAME" := "bob"; "ASMR_PASSWORD" := "first" ]}
  = inr {[ "ASMR_USERNAME" := "bob"; "ASMR_PASSWORD" := "first" ]}.
Proof.
  exact (env_file_load_idempotent ascii_strip posix_putenv_error
           (Some sample_env_file) {[ "ASMR_USERNAME" := "bob" ]} _
           load_sample_env_file).
Defined.

(** ** Requests with retries *)

Example get_after_two_failures :
  (get 3 flaky_session).1 = Some "works" /\
  api_calls (get 3 flaky_session).2 = 3%nat /\
  api_slept (get 3 flaky_session).2 = 4.
Proof. repeat split. Qed.

Section RetryFacts.

Context {A : Type}.

Lemma get_loop_spec (turns : nat) :
  forall (max_retry retry : Z) (s : api_session A),
    retry <= max_retry -> (Z.to_nat (max_retry - retry + 1) <= turns)%nat ->
    let r := get_loop turns max_retry retry s in
    exists attempts : nat,
      (1 <= attempts <= Z.to_nat (max_retry - retry + 1))%nat /\
      api_calls r.2 = (api_calls s + attempts)%nat /\
      api_slept r.2 = api_slept s + 2 * (Z.of_nat attempts - 1) /\
      (forall i, (i < attempts - 1)%nat ->
                 exceptional (api_answers s (api_calls s + i)%nat) = true) /\
      r.1 = answer_of (api_answers s (api_calls s + (attempts - 1))%nat) /\
      (exceptional (api_answers s (api_calls s + (attempts - 1))%nat) = true ->
       attempts = Z.to_nat (max_retry - retry + 1)).
Proof.
  induction turns as [|turns IH]; intros max_retry retry s Hle Hturns; [lia |].
  cbv zeta. cbn [get_loop].
  replace (retry <=? max_retry)%Z with true by (symmetry; apply Z.leb_le; lia).
  assert (Hstop : forall a,
             a = api_answers s (api_calls s) ->
             (exceptional a = true -> (max_retry <=? retry)%Z = true) ->
             forall result,
               result = answer_of a ->
               exists attempts : nat,
                 (1 <= attempts <= Z.to_nat (max_retry - retry + 1))%nat /\
                 api_calls (result, api_call s).2 = (api_calls s + attempts)%nat /\
                 api_slept (result, api_call s).2
                 = api_slept s + 2 * (Z.of_nat attempts - 1) /\
                 (forall i, (i < attempts - 1)%nat ->
                            exceptional (api_answers s (api_calls s + i)%nat) = true) /\
                 (result, api_call s).1
                 = answer_of (api_answers s (api_calls s + (attempts - 1))%nat) /\
                 (exceptional (api_answers s (api_calls s + (attempts - 1))%nat) = true ->
                  attempts = Z.to_nat (max_retry - retry + 1))).
  { intros a Ha Hex result Hres. exists 1%nat.
    replace (api_calls s + (1 - 1))%nat with (api_calls s) by lia. rewrite <- Ha.
    cbn [fst snd api_call api_calls api_slept].
    split; [lia |]. split; [lia |]. split; [lia |]. split; [intros i; lia |].
    split; [exact Hres |]. intros He. apply Hex, Z.leb_le in He. lia. }
  assert (Hretry : forall a,
             a = api_answers s (api_calls s) -> exceptional a = true ->
             let r := if (max_retry <=? retry)%Z then (None, api_call s)
                      else get_loop turns max_retry (retry + 1)
                             (api_sleep 2 (api_call s)) in
             exists attempts : nat,
               (1 <= attempts <= Z.to_nat (max_retry - retry + 1))%nat /\
               api_calls r.2 = (api_calls s + attempts)%nat /\
               api_slept r.2 = api_slept s + 2 * (Z.of_nat attempts - 1) /\
               (forall i, (i < attempts - 1)%nat ->
                          exceptional (api_answers s (api_calls s + i)%nat) = true) /\
               r.1 = answer_of (api_answers s (api_calls s + (attempts - 1))%nat) /\
               (exceptional (api_answers s (api_calls s + (attempts - 1))%nat) = true ->
                attempts = Z.to_nat (max_retry - retry + 1))).
  { intros a Ha Hexc. cbv zeta.
    destruct (max_retry <=? retry)%Z eqn:Elast.
    - apply (Hstop a Ha (fun _ => eq_refl)).
      destruct a as [e|code [e|json]]; cbn in Hexc |- *; [reflexivity | reflexivity |].
      discriminate.
    - apply Z.leb_gt in Elast.
      destruct (IH max_retry (retry + 1) (api_sleep 2 (api_call s)))
        as (k & Hk & Hcalls & Hslept & Hbefore & Hres & Hall); [lia | lia |].
      cbn [api_sleep api_call api_calls api_slept api_answers] in *.
      exists (S k).
      replace (api_calls s + (S k - 1))%nat with (S (api_calls s) + (k - 1))%nat by lia.
      split; [lia |]. split; [lia |]. split; [lia |]. split; [| split].
      + intros i Hi. destruct i as [|i].
        * rewrite Nat.add_0_r, <- Ha. exact Hexc.
        * replace (api_calls s + S i)%nat with (S (api_calls s) + i)%nat by lia.
          apply Hbefore. lia.
      + exact Hres.
      + intros He. rewrite (Hall He). lia. }
  destruct (api_answers s (api_calls s)) as [e|code body] eqn:Ea.
  - apply (Hretry _ eq_refl). reflexivity.
  - destruct (code =? 200)%Z eqn:Ec.
    + destruct body as [e|json].
      * apply (Hretry _ eq_refl). cbn. exact Ec.
      * apply (Hstop _ eq_refl); [discriminate |]. cbn. rewrite Ec. reflexivity.
    + apply (Hstop _ eq_refl).
      * destruct body; cbn; [rewrite Ec |]; discriminate.
      * destruct body; cbn; [| rewrite Ec]; reflexivity.
Qed.

End RetryFacts.

Section FuelFacts.

Context {A : Type}.

(** Beyond [max_retry - retry + 1] turns the bound plays no part. *)
Lemma get_loop_turns (turns : nat) :
  forall (turns' : nat) (max_retry retry : Z) (s : api_session A),
    (Z.to_nat (max_retry - retry + 1) <= turns)%nat ->
    (Z.to_nat (max_retry - retry + 1) <= turns')%nat ->
    get_loop turns max_retry retry s = get_loop turns' max_retry retry s.
Proof.
  induction turns as [|turns IH]; intros turns' max_retry retry s H H'.
  - assert (Hgt : (retry <=? max_retry)%Z = false) by (apply Z.leb_gt; lia).
    destruct turns' as [|turns']; cbn [get_loop]; [reflexivity |].
    rewrite Hgt. reflexivity.
  - destruct turns' as [|turns'].
    + assert (Hgt : (retry <=? max_retry)%Z = false) by (apply Z.leb_gt; lia).
      cbn [get_loop]. rewrite Hgt. reflexivity.
    + cbn [get_loop]. destruct (retry <=? max_retry)%Z eqn:Hle; [| reflexivity].
      apply Z.leb_le in Hle.
      destruct (max_retry <=? retry)%Z eqn:Hlast; [reflexivity |].
      apply Z.leb_gt in Hlast.
      rewrite (IH turns' max_retry (retry + 1)) by lia. reflexivity.
Qed.

End FuelFacts.

(** X18. [ASMRAPIClient.get] (and [post], which has the same loop) asks at
    most [max_retry + 1] times and sleeps two seconds between two attempts.
    It retries an attempt only when the request raised or when the body of
    an answer with status 200 could not be parsed; the first attempt that is
    answered otherwise ends the loop: with the parsed body when the status is
    200, with [None] for any other status, which is never retried.  When
    every attempt raised, the result is [None] after [max_retry + 1]
    attempts.  A negative [max_retry] sends nothing.  The bound on the turns
    of the loop plays no part: more turns give the same result. *)
Theorem get_retries_exceptions_only {A : Type} (max_retry : Z) (s : api_session A) :
  let r := get max_retry s in
  (forall turns,
      (Z.to_nat (max_retry + 1) <= turns)%nat ->
      get_loop turns max_retry 0 s = r) /\
  (max_retry < 0 -> r = (None, s)) /\
  (0 <= max_retry ->
   exists attempts : nat,
     (1 <= attempts <= Z.to_nat max_retry + 1)%nat /\
     api_calls r.2 = (api_calls s + attempts)%nat /\
     api_slept r.2 = api_slept s + 2 * (Z.of_nat attempts - 1) /\
     (forall i, (i < attempts - 1)%nat ->
                exceptional (api_answers s (api_calls s + i)%nat) = true) /\
     r.1 = answer_of (api_answers s (api_calls s + (attempts - 1))%nat) /\
     (exceptional (api_answers s (api_calls s + (attempts - 1))%nat) = true ->
      attempts = (Z.to_nat max_retry + 1)%nat)).
Proof.
  cbv zeta. unfold get. split; [| split].
  - intros turns H. apply get_loop_turns; lia.
  - intros H. replace (Z.to_nat (max_retry + 1)) with 0%nat by lia. reflexivity.
  - intros H.
    destruct (get_loop_spec (Z.to_nat (max_retry + 1)) max_retry 0 s)
      as (k & Hk & Hrest); [lia | lia |].
    exists k. replace (max_retry - 0 + 1) with (max_retry + 1) in * by lia.
    replace (Z.to_nat (max_retry + 1)) with (Z.to_nat max_retry + 1)%nat in * by lia.
    split; [exact Hk | exact Hrest].
Qed.

(** ** Relative paths and titles *)

(** X19. The relative path of an item is the chain of its titles: the
    flattening returns one item per leaf file, in depth-first order, and the
    segments of the item's relative path are the sanitised titles of the
    folders that lead to the file, from the outermost one, followed by the
    sanitised title of the file (a missing title reads as [Unknown Folder] or
    [Unknown File]). *)
Theorem relative_paths_are_title_chains (tracks : list track) :
  map segments (_extract_files_from_tracks tracks EmptyString)
  = map (map _sanitize_filename) (flat_map leaf_chains tracks).
Proof.
  unfold _extract_files_from_tracks.
  induction tracks as [|t rest IH]; cbn [flat_map map]; [reflexivity |].
  rewrite !map_app, IH, extract_track_chains. reflexivity.
Qed.

(** ** Files that are already there *)

Section KeepAgain.

Context {State : Type}.
Implicit Types (cb : option (progress_info -> world * State -> world * State)).

(** One item leaves the file system as it is, or writes the item's own file,
    which was absent or empty. *)
Lemma download_single_file_fs cb fi download_dir w s :
  keeps_files cb ->
  let r := download_single_file cb fi download_dir (w, s) in
  w_fs r.2.1 = w_fs w \/
  exists_nonempty (w_fs w) (full_file_path download_dir fi) = false /\
  exists n, w_fs r.2.1 = <[full_file_path download_dir fi := n]> (w_fs w).
Proof.
  intros Hcb. cbv zeta.
  destruct (str_nonempty (fi_mediaDownloadUrl fi)) eqn:Eu.
  2:{ unfold download_single_file. rewrite Eu. left. reflexivity. }
  assert (Hurl : fi_mediaDownloadUrl fi <> EmptyString).
  { intros E. rewrite E in Eu. discriminate. }
  destruct (exists_nonempty (w_fs w) (full_file_path download_dir fi)) eqn:Eex.
  { rewrite (skip_existing cb fi download_dir w s Hurl Eex). cbn [fst snd].
    destruct (Hcb (skipped_event (w_fs w) download_dir fi) (w, s)) as (Hfs & _).
    left. exact Hfs. }
  destruct (w_fetch w (fi_mediaDownloadUrl fi)) as [|code cl chunks b] eqn:Ef.
  { unfold download_single_file. rewrite Eu, Eex. cbn [negb log_request w_fetch].
    rewrite Ef. left. reflexivity. }
  destruct (code =? 200)%Z eqn:Ec.
  - apply Z.eqb_eq in Ec. subst code.
    destruct (fetch_effect cb fi download_dir w s cl chunks b Hcb Hurl Eex Ef)
      as (_ & Hfs & _).
    right. split; [reflexivity |]. eexists. exact Hfs.
  - unfold download_single_file. rewrite Eu, Eex. cbn [negb log_request w_fetch].
    rewrite Ef, Ec. left. reflexivity.
Qed.

Lemma download_loop_keeps cb download_dir files :
  keeps_files cb ->
  forall acc p,
    let acc' := fold_left (download_one cb download_dir) files acc in
    (exists_nonempty (w_fs (tl_state acc).1) p = true ->
     w_fs (tl_state acc').1 !! p = w_fs (tl_state acc).1 !! p) /\
    (is_Some (w_fs (tl_state acc).1 !! p) -> is_Some (w_fs (tl_state acc').1 !! p)).
Proof.
  intros Hcb. induction files as [|fi rest IH]; intros acc p; cbn [fold_left];
    [tauto |].
  specialize (IH (download_one cb download_dir acc fi) p). cbv zeta in IH.
  destruct IH as [IH1 IH2].
  assert (Hone :
            w_fs (tl_state (download_one cb download_dir acc fi)).1
            = w_fs (tl_state acc).1 \/
            exists_nonempty (w_fs (tl_state acc).1) (full_file_path download_dir fi)
            = false /\
            exists n,
              w_fs (tl_state (download_one cb download_dir acc fi)).1
              = <[full_file_path download_dir fi := n]> (w_fs (tl_state acc).1)).
  { unfold download_one. destruct (tl_state acc) as [w s].
    pose proof (download_single_file_fs cb fi download_dir w s Hcb) as H.
    cbv zeta in H.
    destruct (download_single_file cb fi download_dir (w, s)) as [[|] ws'];
      exact H. }
  destruct Hone as [Hsame | (Hfresh & n & Hins)].
  - rewrite Hsame in IH1, IH2. tauto.
  - split.
    + intros Hp.
      assert (Hne : full_file_path download_dir fi <> p) by congruence.
      assert (Hp1 : w_fs (tl_state (download_one cb download_dir acc fi)).1 !! p
                    = w_fs (tl_state acc).1 !! p).
      { rewrite Hins. apply lookup_insert_ne, Hne. }
      rewrite IH1; [exact Hp1 |]. unfold exists_nonempty in *. rewrite Hp1. exact Hp.
    + intros Hp. apply IH2. rewrite Hins.
      destruct (decide (full_file_path download_dir fi = p)) as [-> | Hne].
      * rewrite lookup_insert_eq. eexists. reflexivity.
      * rewrite lookup_insert_ne by exact Hne. exact Hp.
Qed.

End KeepAgain.

(** X20. A run of [download_tracks] never overwrites a file that holds
    something: a path that has a non-empty file before the run has the same
    file after it, whatever the manifest and the server say; and no file
    disappears.  Only absent and empty files are written. *)
Theorem existing_files_are_kept {State : Type}
  (cb : option (progress_info -> world * State -> world * State))
  (config : ASMRConfig) (tracks : list track) (wi : work_info)
  (target_path : string) (w : world) (s : State) :
  keeps_files cb ->
  let r := download_tracks cb config tracks wi target_path (w, s) in
  (forall p, exists_nonempty (w_fs w) p = true -> w_fs r.2.1 !! p = w_fs w !! p) /\
  (forall p, is_Some (w_fs w !! p) -> is_Some (w_fs r.2.1 !! p)).
Proof.
  intros Hcb. cbv zeta. unfold download_tracks. cbn [fst snd].
  split; intros p;
    apply (download_loop_keeps cb (download_dir_of config wi)
             (selected_files tracks target_path) Hcb
             {| tl_completed := []; tl_failed := []; tl_state := (w, s) |} p).
Qed.

Lemma existing_files_are_kept_witness :
  keeps_files (State := unit) None /\
  (forall p,
      exists_nonempty (w_fs populated_world) p = true ->
      w_fs (download_tracks (State := unit) None plain_config one_file_manifest
              plain_work EmptyString (populated_world, tt)).2.1 !! p
      = w_fs populated_world !! p).
Proof.
  split; [apply keeps_files_none |].
  exact (proj1 (existing_files_are_kept None plain_config one_file_manifest
                  plain_work EmptyString populated_world tt keeps_files_none)).
Defined.

(** ** The files of a whole job *)

Section JobFiles.

Lemma update_download_progress_fs pm w task_id wi p speed cf tf cur cfl db tb :
  w_fs (update_download_progress pm w task_id wi p speed cf tf cur cfl db tb).2
  = w_fs w.
Proof.
  rewrite update_download_progress_steps. cbv zeta.
  destruct (should_update_file _ _ _).1; reflexivity.
Qed.

Lemma download_phase_fs config pm task_id work_id target_path wi tracks w p :
  (forall fi, In fi (selected_files tracks target_path) ->
              p <> item_path (download_directory config wi) fi) ->
  w_fs (download_phase config pm task_id work_id target_path wi tracks w).2 !! p
  = w_fs w !! p.
Proof.
  intros Hp. unfold download_phase.
  destruct (update_preparing _ _ _ _ _ _) as [pm1 w1] eqn:Eprep.
  assert (H1 : w_fs w1 = w_fs w).
  { unfold update_preparing in Eprep. injection Eprep as _ <-. reflexivity. }
  destruct (size_table _ _) as [file_sizes total_bytes].
  match goal with
  | |- context [download_tracks ?cb ?c ?t ?i ?tp ?ws] =>
      destruct (download_loop_frame cb (download_dir_of c i) (selected_files t tp)
                  (progress_callback_keeps_files _ _ _ _ _)
                  {| tl_completed := []; tl_failed := []; tl_state := ws |})
        as (H2 & _);
      unfold download_tracks
  end.
  cbn [tl_state fst snd] in H2. cbv zeta.
  set (acc := fold_left _ _ _) in *.
  specialize (H2 p). rewrite H1 in H2.
  destruct (tl_state acc) as [w2 tk2]. cbn [fst] in H2.
  destruct (0 <? _)%Z; cbn [snd]; unfold update_success, update_failed;
    (apply H2; intros fi Hin;
     rewrite (selected_item_path config wi tracks target_path fi Hin);
     apply Hp, Hin).
Qed.

Lemma after_starting_fs up config pm task_id work_id target_path w p :
  (forall wi tracks fi,
      work up = ApiAnswers 200 (inr wi) ->
      tracks_of_work up = ApiAnswers 200 (inr tracks) ->
      In fi (selected_files tracks target_path) ->
      p <> item_path (download_directory config wi) fi) ->
  w_fs (after_starting up config pm task_id work_id target_path w).2 !! p
  = w_fs w !! p.
Proof.
  intros Hp. unfold after_starting.
  destruct (negb (validate config)); [reflexivity |].
  destruct (login up) as [e|code body]; [reflexivity |].
  destruct (negb _); [reflexivity |].
  destruct body as [e|[token|]]; [reflexivity | | reflexivity].
  destruct (work up) as [e|code' body'] eqn:Ew; [reflexivity |].
  destruct (negb (code' =? 200)%Z) eqn:Ec'; [reflexivity |].
  destruct body' as [e|wi]; [reflexivity |].
  destruct (tracks_of_work up) as [e|code'' body''] eqn:Et; [reflexivity |].
  destruct (negb (code'' =? 200)%Z) eqn:Ec''; [reflexivity |].
  destruct body'' as [e|tracks]; [reflexivity |].
  apply negb_false_iff, Z.eqb_eq in Ec'. apply negb_false_iff, Z.eqb_eq in Ec''.
  subst code' code''.
  pose proof (download_phase_fs config pm task_id work_id target_path wi tracks w p
                (fun fi => Hp wi tracks fi eq_refl eq_refl)) as H.
  destruct (download_phase _ _ _ _ _ _ _ _) as [res w']. exact H.
Qed.

End JobFiles.

(** X21. A whole job stores no regular file but the files of its work (its
    progress file apart, which the model keeps in [w_writes]; the directories
    it makes are not files).  The thread changes no file after the job has
    returned, and a file differs after the job from what it was before only
    at the path that [pathlib] makes of the download directory of the
    configuration and the work the server named, and of the relative path of
    a selected item of the manifest the server gave; a job that fails before
    the download leaves every file as it was. *)
Theorem job_writes_only_its_files (up : upstream)
  (task_id work_id quality target_path : string) (w : world) :
  let r := perform_download_sync up task_id work_id quality target_path w in
  let w' := background_download_task up task_id work_id quality target_path w in
  w_fs w' = w_fs r.2 /\
  (forall p,
      (forall config wi tracks fi,
          from_env (os_environ up) = inr config ->
          work up = ApiAnswers 200 (inr wi) ->
          tracks_of_work up = ApiAnswers 200 (inr tracks) ->
          In fi (selected_files tracks target_path) ->
          p <> item_path (download_directory config wi) fi) ->
      w_fs r.2 !! p = w_fs w !! p).
Proof.
  cbv zeta. split.
  - unfold background_download_task.
    destruct (perform_download_sync _ _ _ _ _ _) as [result w1]. cbn [snd].
    destruct (callback_base_url up), (plugin_name_for_callback up); try reflexivity.
    destruct (_ && _); [| reflexivity].
    destruct (post_raises up) as [[[|] e]|]; reflexivity.
  - intros p Hp. unfold perform_download_sync.
    destruct (results_dir_mkdir up); [reflexivity |].
    destruct (from_env (os_environ up)) as [e|config]; [reflexivity |].
    destruct (update_starting _ _ _ _) as [pm w1] eqn:Es.
    assert (H1 : w_fs w1 = w_fs w).
    { unfold update_starting in Es. injection Es as _ <-. reflexivity. }
    pose proof (after_starting_fs up config pm task_id work_id target_path w1 p
                  (fun wi tracks fi => Hp config wi tracks fi eq_refl)) as H.
    destruct (after_starting _ _ _ _ _ _ _) as [[e|res] w2]; cbn [snd] in *;
      unfold update_failed; cbn; rewrite <- H1; exact H.
Qed.

(** ** A scope that selects nothing *)

(** X23. A job whose scope selects no item fails although no fetch failed:
    when the manifest holds no leaf file, or the target path matches none,
    the download phase sends no request, writes the [Preparing] snapshot and
    a [Failed] one, and returns the status ["Failed"] with the reason
    [All downloads failed] and an empty list of failed files. *)
Theorem empty_selection_fails (config : ASMRConfig) (pm : ProgressManager)
  (task_id work_id target_path : string) (wi : work_info) (tracks : list track)
  (w : world) :
  selected_files tracks target_path = [] ->
  let r := download_phase config pm task_id work_id target_path wi tracks w in
  r_status r.1 = "Failed" /\
  r_reason r.1 = Some "All downloads failed" /\
  r_failedFiles r.1 = Some [] /\
  w_requests r.2 = w_requests w /\
  w_fs r.2 = w_fs w /\
  map status (skipn (length (w_writes w)) (w_writes r.2)) = ["Preparing"; "Failed"].
Proof.
  intros Hsel. cbv zeta. unfold download_phase, download_tracks. rewrite Hsel.
  cbn [fold_left length]. cbv zeta.
  destruct (size_table _ _) as [file_sizes total_bytes].
  unfold update_preparing, update_failed.
  destruct (_build_file_structure tracks EmptyString);
    cbn [fst snd success_count tl_completed tl_state length tl_failed
         failed_downloads];
    change (0 <? Z.of_nat 0)%Z with false; cbv iota; cbn [fst snd];
    rewrite !update_progress_writes, <- app_assoc, drop_app_length;
    repeat split.
Qed.

Lemma empty_selection_fails_witness :
  let r := download_phase plain_config (ProgressManager_init plain_config)
             "job" "RJ123456" "no/such/folder" plain_work one_file_manifest
             (quiet_world []) in
  r_status r.1 = "Failed" /\
  r_reason r.1 = Some "All downloads failed" /\
  r_failedFiles r.1 = Some [] /\
  w_requests r.2 = w_requests (quiet_world []) /\
  w_fs r.2 = w_fs (quiet_world []) /\
  map status (skipn (length (w_writes (quiet_world []))) (w_writes r.2))
  = ["Preparing"; "Failed"].
Proof.
  apply (empty_selection_fails plain_config (ProgressManager_init plain_config)
           "job" "RJ123456" "no/such/folder" plain_work one_file_manifest
           (quiet_world [])).
  reflexivity.
Defined.
